(** * PythonManager: the session manager of the Variable Explorer extension

    A shallow embedding of [src/pythonManager.js] (class [PythonManager]) and
    of the [start] variant that scans the workspace for sub-directories,
    together with the platform functions the class calls ([Buffer.toString],
    [String.prototype.trim], [JSON.parse], [JSON.stringify], [path.join]).

    JavaScript strings are sequences of UTF-16 code units, bytes are
    [Byte.byte]; the manager's methods and stream handlers are written in a
    small state-and-trace monad whose trace records every call the class
    makes into its host (console, notifications, [spawn], [kill], [write],
    the message callback). *)

From Stdlib Require Import List NArith ZArith Lia Bool String Ascii.
From Stdlib.Strings Require Import Byte.
Import ListNotations.

Set Implicit Arguments.
Set Warnings "-register-all".

(* ================================================================== *)
(** ** JavaScript strings *)
(* ================================================================== *)

Module JS.

(** One UTF-16 code unit. *)
Definition code_unit := N.

(** A JavaScript string value. *)
Definition jsstring := list code_unit.

(** The string whose code units are the characters of an ASCII literal. *)
Definition u (s : string) : jsstring :=
  map N_of_ascii (list_ascii_of_string s).

(** Like [u], with every apostrophe of the literal standing for a double
    quote (code unit 34), so that JSON text can be written down. *)
Definition sq (s : string) : jsstring :=
  map (fun c => if N.eqb c 39 then 34%N else c) (u s).

Definition NL : code_unit := 10%N.

Definition eqb_str (a b : jsstring) : bool :=
  if list_eq_dec N.eq_dec a b then true else false.

(** [s.length] *)
Definition jslength (s : jsstring) : Z := Z.of_nat (List.length s).

(** [s.indexOf(c)] for a one-character search string: the index of the first
    occurrence, [-1] when there is none. *)
Fixpoint indexOf_from (c : code_unit) (s : jsstring) (i : Z) : Z :=
  match s with
  | [] => (-1)%Z
  | x :: r => if N.eqb x c then i else indexOf_from c r (i + 1)%Z
  end.

Definition indexOf (c : code_unit) (s : jsstring) : Z := indexOf_from c s 0%Z.

(** [s.substring(start, end)]: both indices are clamped to [0, s.length] and
    swapped when [start > end]. *)
Definition clamp (s : jsstring) (i : Z) : nat :=
  Z.to_nat (Z.min (Z.max i 0) (jslength s)).

Definition substring (s : jsstring) (start stop : Z) : jsstring :=
  let a := clamp s start in
  let b := clamp s stop in
  firstn (Nat.max a b - Nat.min a b) (skipn (Nat.min a b) s).

(** [s.substring(start)] *)
Definition substring_from (s : jsstring) (start : Z) : jsstring :=
  substring s start (jslength s).

(** WhiteSpace and LineTerminator code points of ECMAScript, the characters
    [String.prototype.trim] strips. *)
Definition is_white_space (c : code_unit) : bool :=
  (N.leb 9 c && N.leb c 13) || N.eqb c 32 || N.eqb c 160 || N.eqb c 5760
  || (N.leb 8192 c && N.leb c 8202) || N.eqb c 8232 || N.eqb c 8233
  || N.eqb c 8239 || N.eqb c 8287 || N.eqb c 12288 || N.eqb c 65279.

Fixpoint trimStart (s : jsstring) : jsstring :=
  match s with
  | [] => []
  | c :: r => if is_white_space c then trimStart r else s
  end.

Definition trimEnd (s : jsstring) : jsstring := rev (trimStart (rev s)).

(** [s.trim()] *)
Definition trim (s : jsstring) : jsstring := trimEnd (trimStart s).

Fixpoint startsWith (s prefix : jsstring) : bool :=
  match prefix, s with
  | [], _ => true
  | _ :: _, [] => false
  | p :: ps, c :: r => N.eqb p c && startsWith r ps
  end.

(** [s.includes(needle)] *)
Fixpoint includes (s needle : jsstring) : bool :=
  startsWith s needle ||
  match s with
  | [] => false
  | _ :: r => includes r needle
  end.

(** [parts.join(sep)] on an array of strings. *)
Fixpoint join (sep : jsstring) (parts : list jsstring) : jsstring :=
  match parts with
  | [] => []
  | [p] => p
  | p :: rest => p ++ sep ++ join sep rest
  end.

(** ToBoolean of a string, and of a possibly undefined or null string. *)
Definition truthy_str (s : jsstring) : bool :=
  match s with [] => false | _ :: _ => true end.

Definition truthy_opt (o : option jsstring) : bool :=
  match o with None => false | Some s => truthy_str s end.

End JS.
Import JS.

(* ================================================================== *)
(** ** [Buffer.prototype.toString]: UTF-8 decoding *)
(* ================================================================== *)

Module Utf8.

(** The decoder's state between two bytes: the code point under
    construction, the continuation bytes still expected, and the range the
    next continuation byte must lie in. *)
Record dstate := {
  code_point : N;
  bytes_needed : nat;
  lower : N;
  upper : N
}.

Definition dinit : dstate :=
  {| code_point := 0; bytes_needed := 0; lower := 128; upper := 191 |}.

Definition REPLACEMENT : N := 65533.

(** A code point as UTF-16: itself in the basic plane, a surrogate pair
    above it. *)
Definition utf16 (cp : N) : jsstring :=
  if N.ltb cp 65536 then [cp]
  else [(55296 + N.shiftr (cp - 65536) 10)%N;
        (56320 + N.land (cp - 65536) 1023)%N].

(** A byte met when no sequence is open. *)
Definition lead (b : N) : dstate * jsstring :=
  if N.leb b 127 then (dinit, [b])
  else if N.leb 194 b && N.leb b 223 then
    ({| code_point := N.land b 31; bytes_needed := 1;
        lower := 128; upper := 191 |}, [])
  else if N.leb 224 b && N.leb b 239 then
    ({| code_point := N.land b 15; bytes_needed := 2;
        lower := if N.eqb b 224 then 160 else 128;
        upper := if N.eqb b 237 then 159 else 191 |}, [])
  else if N.leb 240 b && N.leb b 244 then
    ({| code_point := N.land b 7; bytes_needed := 3;
        lower := if N.eqb b 240 then 144 else 128;
        upper := if N.eqb b 244 then 143 else 191 |}, [])
  else (dinit, [REPLACEMENT]).

(** One byte: inside a sequence a byte out of range ends the sequence with
    U+FFFD and is then read again as a first byte. *)
Definition dstep (st : dstate) (b : N) : dstate * jsstring :=
  match bytes_needed st with
  | O => lead b
  | S k =>
      if N.leb (lower st) b && N.leb b (upper st) then
        let cp := N.lor (N.shiftl (code_point st) 6) (N.land b 63) in
        match k with
        | O => (dinit, utf16 cp)
        | S _ => ({| code_point := cp; bytes_needed := k;
                     lower := 128; upper := 191 |}, [])
        end
      else
        let '(st', out) := lead b in (st', REPLACEMENT :: out)
  end.

Fixpoint decode (st : dstate) (bs : list byte) : jsstring :=
  match bs with
  | [] => match bytes_needed st with O => [] | S _ => [REPLACEMENT] end
  | b :: r => let '(st', out) := dstep st (Byte.to_N b) in out ++ decode st' r
  end.

(** [data.toString()] on a [Buffer]: UTF-8, every ill-formed or truncated
    sequence replaced by U+FFFD; a byte order mark is kept. *)
Definition toString (data : list byte) : jsstring := decode dinit data.

End Utf8.

(* ================================================================== *)
(** ** JavaScript values and the [JSON] object *)
(* ================================================================== *)

Module Json.

(** A finite Number, held exactly as [(-1)^negative * digits * 10^exponent].
    (The rounding of a literal to the nearest binary64 value is not
    modelled; no property below depends on it.) *)
Record number := {
  negative : bool;
  digits : N;
  exponent : Z
}.

(** The values commands and responses are made of.  An object is the list of
    its own properties in insertion order.  (JavaScript enumerates
    properties whose names are array indices first; the commands have no
    such property, and responses are handed on as they are.) *)
Inductive jsval :=
| JUndefined
| JNull
| JBool (b : bool)
| JNum (n : number)
| JStr (s : jsstring)
| JArr (items : list jsval)
| JObj (props : list (jsstring * jsval)).

(** ToBoolean *)
Definition truthy (v : jsval) : bool :=
  match v with
  | JUndefined | JNull => false
  | JBool b => b
  | JNum n => negb (N.eqb (digits n) 0)
  | JStr s => truthy_str s
  | JArr _ | JObj _ => true
  end.

(** [o.k = v] on an ordinary object: an existing property keeps its place. *)
Fixpoint obj_set (k : jsstring) (v : jsval) (o : list (jsstring * jsval))
  : list (jsstring * jsval) :=
  match o with
  | [] => [(k, v)]
  | (k', v') :: r =>
      if eqb_str k' k then (k, v) :: r else (k', v') :: obj_set k v r
  end.

(** [o.k] on an ordinary object; [undefined] when there is no such
    property. *)
Fixpoint obj_get (k : jsstring) (o : list (jsstring * jsval)) : jsval :=
  match o with
  | [] => JUndefined
  | (k', v') :: r => if eqb_str k' k then v' else obj_get k r
  end.

Definition has_own (k : jsstring) (o : list (jsstring * jsval)) : bool :=
  existsb (fun kv => eqb_str (fst kv) k) o.

(** *** Lexical helpers *)

Definition is_digit (c : code_unit) : bool := N.leb 48 c && N.leb c 57.

Definition is_json_ws (c : code_unit) : bool :=
  N.eqb c 32 || N.eqb c 9 || N.eqb c 10 || N.eqb c 13.

Fixpoint skip_ws (s : jsstring) : jsstring :=
  match s with
  | c :: r => if is_json_ws c then skip_ws r else s
  | [] => []
  end.

Fixpoint span (p : code_unit -> bool) (s : jsstring) : jsstring * jsstring :=
  match s with
  | c :: r => if p c then let '(a, b) := span p r in (c :: a, b) else ([], s)
  | [] => ([], [])
  end.

Definition hex_value (c : code_unit) : option N :=
  if is_digit c then Some (c - 48)%N
  else if N.leb 97 c && N.leb c 102 then Some (c - 87)%N
  else if N.leb 65 c && N.leb c 70 then Some (c - 55)%N
  else None.

Definition hex4 (a b c d : code_unit) : option code_unit :=
  match hex_value a, hex_value b, hex_value c, hex_value d with
  | Some x, Some y, Some z, Some w => Some (((x * 16 + y) * 16 + z) * 16 + w)%N
  | _, _, _, _ => None
  end.

Definition digits_value (ds : jsstring) : N :=
  fold_left (fun acc d => (acc * 10 + (d - 48))%N) ds 0%N.

(** Trailing zero digits removed, and how many there were. *)
Definition strip_zeros (ds : jsstring) : jsstring * nat :=
  let '(zs, r) := span (N.eqb 48) (rev ds) in (rev r, List.length zs).

Definition mk_number (neg : bool) (ds : jsstring) (e : Z) : number :=
  let '(ds', z) := strip_zeros ds in
  if N.eqb (digits_value ds') 0
  then {| negative := neg; digits := 0; exponent := 0 |}
  else {| negative := neg; digits := digits_value ds';
          exponent := (e + Z.of_nat z)%Z |}.

(** *** [JSON.parse] *)

(** The result of reading one grammar production off the front of the text:
    the value and the unread rest, a syntax error, or recursion budget
    exhausted (which the budget [JSON_parse] gives rules out, see
    [parse_value_budget]). *)
Inductive presult (A : Type) :=
| POk (a : A) (rest : jsstring)
| PError
| PFuel.
Arguments PError {A}.
Arguments PFuel {A}.

Definition map_ok {A B} (f : A -> B) (r : presult A) : presult B :=
  match r with
  | POk a rest => POk (f a) rest
  | PError => PError
  | PFuel => PFuel
  end.

(** The text after a given prefix, if it starts with it. *)
Fixpoint strip_prefix (prefix s : jsstring) : option jsstring :=
  match prefix, s with
  | [], _ => Some s
  | _ :: _, [] => None
  | p :: ps, c :: r => if N.eqb p c then strip_prefix ps r else None
  end.

(** The character a two-character escape stands for. *)
Definition simple_escape (e : code_unit) : option code_unit :=
  if N.eqb e 34 then Some 34%N
  else if N.eqb e 92 then Some 92%N
  else if N.eqb e 47 then Some 47%N
  else if N.eqb e 98 then Some 8%N
  else if N.eqb e 102 then Some 12%N
  else if N.eqb e 110 then Some 10%N
  else if N.eqb e 114 then Some 13%N
  else if N.eqb e 116 then Some 9%N
  else None.

(** The characters of a string literal after its opening quote: up to the
    closing quote, with escapes resolved; control characters are not
    allowed. *)
Fixpoint parse_chars (s : jsstring) : presult jsstring :=
  match s with
  | [] => PError
  | c :: r =>
      if N.eqb c 34 then POk [] r
      else if N.eqb c 92 then
        match r with
        | [] => PError
        | e :: r1 =>
            if N.eqb e 117 then
              match r1 with
              | a :: b :: c' :: d :: r4 =>
                  match hex4 a b c' d with
                  | Some x => map_ok (cons x) (parse_chars r4)
                  | None => PError
                  end
              | _ => PError
              end
            else
              match simple_escape e with
              | Some x => map_ok (cons x) (parse_chars r1)
              | None => PError
              end
        end
      else if N.ltb c 32 then PError
      else map_ok (cons c) (parse_chars r)
  end.

(** One or more digits. *)
Definition digits1 (s : jsstring) : option (jsstring * jsstring) :=
  match span is_digit s with
  | ([], _) => None
  | (ds, r) => Some (ds, r)
  end.

(** The parts of a number literal: an optional minus sign; a single 0 or a
    non-zero digit followed by digits; optionally a point and one or more
    digits; optionally e or E, an optional sign and one or more digits. *)
Definition read_sign (s : jsstring) : bool * jsstring :=
  match s with
  | c :: r => if N.eqb c 45 then (true, r) else (false, s)
  | [] => (false, s)
  end.

Definition read_int (s : jsstring) : option (jsstring * jsstring) :=
  match s with
  | c :: r => if N.eqb c 48 then Some ([48%N], r) else digits1 s
  | [] => None
  end.

Definition read_frac (s : jsstring) : option (jsstring * jsstring) :=
  match s with
  | c :: r => if N.eqb c 46 then digits1 r else Some ([], s)
  | [] => Some ([], s)
  end.

Definition read_exp_sign (s : jsstring) : bool * jsstring :=
  match s with
  | c :: r =>
      if N.eqb c 45 then (true, r)
      else if N.eqb c 43 then (false, r)
      else (false, s)
  | [] => (false, s)
  end.

Definition read_exp (s : jsstring) : option (Z * jsstring) :=
  match s with
  | c :: r =>
      if N.eqb c 101 || N.eqb c 69 then
        match digits1 (snd (read_exp_sign r)) with
        | None => None
        | Some (ep, r2) =>
            let e := Z.of_N (digits_value ep) in
            Some ((if fst (read_exp_sign r) then - e else e)%Z, r2)
        end
      else Some (0%Z, s)
  | [] => Some (0%Z, s)
  end.

Definition parse_number (s : jsstring) : presult number :=
  match read_int (snd (read_sign s)) with
  | None => PError
  | Some (ip, s2) =>
      match read_frac s2 with
      | None => PError
      | Some (fp, s3) =>
          match read_exp s3 with
          | None => PError
          | Some (e, s4) =>
              POk (mk_number (fst (read_sign s)) (ip ++ fp)
                     (e - Z.of_nat (List.length fp))%Z) s4
          end
      end
  end.

(** A value that is not an object or an array: a string, [true], [false],
    [null] or a number. *)
Definition parse_scalar (s : jsstring) : presult jsval :=
  match s with
  | [] => PError
  | c :: r =>
      if N.eqb c 34 then map_ok JStr (parse_chars r)
      else
        match strip_prefix (u "true") s with
        | Some r' => POk (JBool true) r'
        | None =>
            match strip_prefix (u "false") s with
            | Some r' => POk (JBool false) r'
            | None =>
                match strip_prefix (u "null") s with
                | Some r' => POk JNull r'
                | None => map_ok JNum (parse_number s)
                end
            end
        end
  end.

(** The first character of what follows, after white space. *)
Definition next_is (c : code_unit) (s : jsstring) : option jsstring :=
  match skip_ws s with
  | x :: r => if N.eqb x c then Some r else None
  | [] => None
  end.

Fixpoint parse_value (fuel : nat) (s : jsstring) : presult jsval :=
  match fuel with
  | O => PFuel
  | S f =>
      match next_is 123%N s with
      | Some r =>
          match next_is 125%N r with
          | Some r' => POk (JObj []) r'
          | None => parse_members f [] r
          end
      | None =>
          match next_is 91%N s with
          | Some r =>
              match next_is 93%N r with
              | Some r' => POk (JArr []) r'
              | None => parse_elements f [] r
              end
          | None => parse_scalar (skip_ws s)
          end
      end
  end

with parse_elements (fuel : nat) (acc : list jsval) (s : jsstring)
  : presult jsval :=
  match fuel with
  | O => PFuel
  | S f =>
      match parse_value f s with
      | POk v r =>
          match next_is 44%N r with
          | Some r' => parse_elements f (v :: acc) r'
          | None =>
              match next_is 93%N r with
              | Some r' => POk (JArr (rev (v :: acc))) r'
              | None => PError
              end
          end
      | other => other
      end
  end

with parse_members (fuel : nat) (acc : list (jsstring * jsval)) (s : jsstring)
  : presult jsval :=
  match fuel with
  | O => PFuel
  | S f =>
      match next_is 34%N s with
      | None => PError
      | Some r =>
          match parse_chars r with
          | POk k r1 =>
              match next_is 58%N r1 with
              | None => PError
              | Some r2 =>
                  match parse_value f r2 with
                  | POk v r3 =>
                      match next_is 44%N r3 with
                      | Some r4 => parse_members f (obj_set k v acc) r4
                      | None =>
                          match next_is 125%N r3 with
                          | Some r4 => POk (JObj (obj_set k v acc)) r4
                          | None => PError
                          end
                      end
                  | other => other
                  end
              end
          | PError => PError
          | PFuel => PFuel
          end
      end
  end.

(** [JSON.parse(text)]: the value, or [None] where JavaScript throws a
    SyntaxError. *)
Definition JSON_parse (text : jsstring) : option jsval :=
  match parse_value (2 * List.length text + 2) text with
  | POk v rest => match skip_ws rest with [] => Some v | _ :: _ => None end
  | _ => None
  end.

(** *** [JSON.stringify] *)

Definition hex_digit (n : N) : code_unit :=
  if N.ltb n 10 then (48 + n)%N else (87 + n)%N.

(** The six characters [\uXXXX], lower-case hexadecimal. *)
Definition unicode_escape (c : code_unit) : jsstring :=
  [92; 117]%N ++
  [hex_digit (N.land (N.shiftr c 12) 15); hex_digit (N.land (N.shiftr c 8) 15);
   hex_digit (N.land (N.shiftr c 4) 15); hex_digit (N.land c 15)].

Definition is_high_surrogate (c : code_unit) : bool :=
  N.leb 55296 c && N.leb c 56319.

Definition is_low_surrogate (c : code_unit) : bool :=
  N.leb 56320 c && N.leb c 57343.

(** QuoteJSONString without the surrounding quotes: short escapes for
    backspace, tab, line feed, form feed, carriage return, the quote and the
    backslash; [\uXXXX] for the other control characters and for unpaired
    surrogates; everything else unchanged. *)
Fixpoint quote_chars (s : jsstring) : jsstring :=
  match s with
  | [] => []
  | c :: r =>
      if N.eqb c 8 then [92; 98]%N ++ quote_chars r
      else if N.eqb c 9 then [92; 116]%N ++ quote_chars r
      else if N.eqb c 10 then [92; 110]%N ++ quote_chars r
      else if N.eqb c 12 then [92; 102]%N ++ quote_chars r
      else if N.eqb c 13 then [92; 114]%N ++ quote_chars r
      else if N.eqb c 34 then [92; 34]%N ++ quote_chars r
      else if N.eqb c 92 then [92; 92]%N ++ quote_chars r
      else if N.ltb c 32 then unicode_escape c ++ quote_chars r
      else if is_high_surrogate c then
        match r with
        | d :: r' =>
            if is_low_surrogate d then c :: d :: quote_chars r'
            else unicode_escape c ++ quote_chars r
        | [] => unicode_escape c
        end
      else if is_low_surrogate c then unicode_escape c ++ quote_chars r
      else c :: quote_chars r
  end.

Definition quote (s : jsstring) : jsstring := 34%N :: quote_chars s ++ [34%N].

Fixpoint uint_chars (d : Decimal.uint) : jsstring :=
  match d with
  | Decimal.Nil => []
  | Decimal.D0 r => 48%N :: uint_chars r
  | Decimal.D1 r => 49%N :: uint_chars r
  | Decimal.D2 r => 50%N :: uint_chars r
  | Decimal.D3 r => 51%N :: uint_chars r
  | Decimal.D4 r => 52%N :: uint_chars r
  | Decimal.D5 r => 53%N :: uint_chars r
  | Decimal.D6 r => 54%N :: uint_chars r
  | Decimal.D7 r => 55%N :: uint_chars r
  | Decimal.D8 r => 56%N :: uint_chars r
  | Decimal.D9 r => 57%N :: uint_chars r
  end.

Definition N_chars (n : N) : jsstring := uint_chars (N.to_uint n).

(** Number::toString in radix 10: with [k] digits [s] and the value
    [s * 10^(n-k)], plain digits for [k <= n <= 21], a decimal point inside
    for [0 < n <= 21], leading zeros for [-6 < n <= 0], exponent notation
    otherwise. *)
Definition number_toString (x : number) : jsstring :=
  if N.eqb (digits x) 0 then u "0"
  else
    let s := N_chars (digits x) in
    let k := Z.of_nat (List.length s) in
    let n := (k + exponent x)%Z in
    (if negative x then u "-" else []) ++
    if Z.leb k n && Z.leb n 21 then s ++ repeat 48%N (Z.to_nat (n - k))
    else if Z.ltb 0 n && Z.leb n 21 then
      firstn (Z.to_nat n) s ++ u "." ++ skipn (Z.to_nat n) s
    else if Z.ltb (-6) n && Z.leb n 0 then
      u "0." ++ repeat 48%N (Z.to_nat (- n)) ++ s
    else
      let e := (n - 1)%Z in
      let es := (if Z.ltb e 0 then u "-" else u "+") ++ N_chars (Z.abs_N e) in
      match s with
      | [] => []
      | [d] => d :: u "e" ++ es
      | d :: rest => d :: u "." ++ rest ++ u "e" ++ es
      end.

(** [JSON.stringify(v)] with no replacer and no indentation; [None] is the
    result [undefined].  A property whose value serializes to [undefined]
    is left out, an array element that does is written [null]. *)
Fixpoint JSON_stringify (v : jsval) : option jsstring :=
  match v with
  | JUndefined => None
  | JNull => Some (u "null")
  | JBool b => Some (if b then u "true" else u "false")
  | JNum n => Some (number_toString n)
  | JStr s => Some (quote s)
  | JArr items =>
      Some (u "[" ++
            join (u ",")
              (map (fun x => match JSON_stringify x with
                             | Some t => t
                             | None => u "null"
                             end) items)
            ++ u "]")
  | JObj props =>
      Some (u "{" ++
            join (u ",")
              (flat_map (fun kv => match JSON_stringify (snd kv) with
                                   | Some t => [quote (fst kv) ++ u ":" ++ t]
                                   | None => []
                                   end) props)
            ++ u "}")
  end.

End Json.
Import Json.

(* ================================================================== *)
(** ** The [path] module *)
(* ================================================================== *)

Module Path.

(** What the manager uses of Node's [path] module.  Which implementation
    [require('path')] gives depends on the platform, so the manager is
    written against this interface; [posix] is the implementation on Linux
    and macOS. *)
Record PathModule := {
  isAbsolute : jsstring -> bool;
  join : list jsstring -> jsstring;
  delimiter : jsstring
}.

Definition SLASH : code_unit := 47%N.

Fixpoint split_on (c : code_unit) (s : jsstring) : list jsstring :=
  match s with
  | [] => [[]]
  | x :: r =>
      if N.eqb x c then [] :: split_on c r
      else match split_on c r with
           | h :: t => (x :: h) :: t
           | [] => [[x]]
           end
  end.

(** [normalizeString]: the segments that remain, innermost first.  Empty
    segments and [.] vanish; [..] removes the segment before it, and is kept
    (when the path is relative) or dropped (when it is absolute) if there is
    none left to remove. *)
Fixpoint normalize_segments (allowAboveRoot : bool) (segs : list jsstring)
  (stack : list jsstring) : list jsstring :=
  match segs with
  | [] => stack
  | seg :: rest =>
      if eqb_str seg [] || eqb_str seg (u ".") then
        normalize_segments allowAboveRoot rest stack
      else if eqb_str seg (u "..") then
        match stack with
        | top :: below =>
            if eqb_str top (u "..")
            then normalize_segments allowAboveRoot rest
                   (if allowAboveRoot then seg :: stack else stack)
            else normalize_segments allowAboveRoot rest below
        | [] =>
            normalize_segments allowAboveRoot rest
              (if allowAboveRoot then [seg] else [])
        end
      else normalize_segments allowAboveRoot rest (seg :: stack)
  end.

Definition posix_isAbsolute (p : jsstring) : bool :=
  match p with c :: _ => N.eqb c SLASH | [] => false end.

(** [path.posix.normalize] *)
Definition posix_normalize (p : jsstring) : jsstring :=
  match p with
  | [] => u "."
  | _ :: _ =>
      let absolute := posix_isAbsolute p in
      let trailingSeparator :=
        match rev p with c :: _ => N.eqb c SLASH | [] => false end in
      let body :=
        JS.join [SLASH]
          (rev (normalize_segments (negb absolute) (split_on SLASH p) [])) in
      match body with
      | [] =>
          if absolute then u "/"
          else if trailingSeparator then u "./" else u "."
      | _ :: _ =>
          let body' := if trailingSeparator then body ++ [SLASH] else body in
          if absolute then SLASH :: body' else body'
      end
  end.

(** [path.posix.join]: the non-empty arguments joined by [/], normalized. *)
Definition posix_join (args : list jsstring) : jsstring :=
  match filter truthy_str args with
  | [] => u "."
  | parts => posix_normalize (JS.join [SLASH] parts)
  end.

Definition posix : PathModule :=
  {| isAbsolute := posix_isAbsolute; join := posix_join; delimiter := u ":" |}.

End Path.
Import Path.

(* ================================================================== *)
(** ** The host: editor API, process globals, child processes *)
(* ================================================================== *)

Module Host.

(** A thrown value. *)
Inductive exn :=
| SyntaxError
| Error (message : jsstring).

(** How a call ends. *)
Inductive completion (A : Type) :=
| Normal (a : A)
| Throw (e : exn).
Arguments Throw {A}.

Definition pid := N.

(** A [ChildProcess] object, as far as the manager looks at it. *)
Record child := {
  child_pid : pid;
  has_stdin : bool
}.

(** The function a panel registers for decoded responses: the model records
    each call under [cb_id]; [cb_throws] says for which arguments the call
    throws.  (A callback that calls back into the manager is outside the
    model.) *)
Record callback := {
  cb_id : N;
  cb_throws : jsval -> option exn
}.

Inductive platform := win32 | other_platform.

Record dirent := {
  name : jsstring;
  isDirectory : bool
}.

(** Everything [start] reads from its surroundings. *)
Record host := {
  (** [vscode.workspace.getConfiguration('python').get('defaultInterpreterPath')] *)
  python_defaultInterpreterPath : option jsstring;
  (** [vscode.workspace.getConfiguration('variableExplorer').get('pythonPath')] *)
  variableExplorer_pythonPath : option jsstring;
  (** [vscode.workspace.getConfiguration('python').get('analysis.extraPaths')] *)
  python_analysis_extraPaths : option (list jsstring);
  (** [vscode.workspace.getConfiguration('variableExplorer').get('captureMainLocals', false)] *)
  variableExplorer_captureMainLocals : bool;
  (** [vscode.workspace.workspaceFolders?.[0]?.uri.fsPath] *)
  workspaceFolder : option jsstring;
  process_platform : platform;
  (** [process.env.PYTHONPATH] *)
  env_PYTHONPATH : option jsstring;
  (** [require('path')] *)
  path : PathModule;
  (** [fs.readdirSync(dir, { withFileTypes: true })] *)
  readdirSync : jsstring -> completion (list dirent)
}.

(** What [spawn] does when called, and what [stdin.write] does. *)
Inductive spawn_result :=
| Spawned (c : child)
| SpawnThrew (e : exn).

Inductive write_result :=
| Written
| WriteThrew (e : exn).

(** The texts the manager logs or shows, by their varying parts. *)
Inductive message :=
| MsgAlreadyRunning
| MsgStarting (pythonPath backendScript : jsstring)
| MsgSpawnFailedLog (e : exn)
| MsgSpawnFailed (pythonPath : jsstring)
| MsgProcessErrorLog (err : exn)
| MsgProcessError (err : exn)
| MsgParseError (e : exn) (line : jsstring) (length : Z)
| MsgPythonErrorLog (errorMsg : jsstring)
| MsgPythonError (errorMsg : jsstring)
| MsgExited (code : option Z)
| MsgExitedUnexpectedly (code : Z)
| MsgNotRunning (command : jsval)
| MsgSendErrorLog (e : exn)
| MsgSendError
| MsgDebugBanner
| MsgDebugPythonPath (pythonPath : jsstring)
| MsgDebugBackendScript (backendScript : jsstring)
| MsgDebugWorkspaceFolder (workspaceFolder : option jsstring)
| MsgDebugScanned (dirCount : nat)
| MsgDebugScanError (e : exn)
| MsgDebugEntries
| MsgDebugEntry (i : nat) (p : jsstring)
| MsgUsingPython (pythonPath : jsstring).

Inductive handler_kind := on_error_h | on_stdout_h | on_stderr_h | on_close_h.

(** One call from the manager into its host. *)
Inductive event :=
| console_log (m : message)
| console_error (m : message)
| showErrorMessage (m : message)
| showWarningMessage (m : message)
| showInformationMessage (m : message)
| spawn (command : jsstring) (args : list jsstring) (cwd : option jsstring)
        (PYTHONPATH : jsstring) (r : spawn_result)
| attach (p : pid) (k : handler_kind)
| kill (p : pid)
| stdin_write (p : pid) (chunk : jsstring) (r : write_result)
| call (cb : N) (response : jsval)
| readdir (dir : jsstring).

End Host.
Import Host.

(* ================================================================== *)
(** ** class PythonManager *)
(* ================================================================== *)

Module Manager.

(** The fields of a [PythonManager]; [context] is the extension context's
    [extensionPath]. *)
Record PythonManager := {
  context : jsstring;
  process : option child;
  messageCallback : option callback;
  outputBuffer : jsstring
}.

(** [constructor(context)] *)
Definition constructor (extensionPath : jsstring) : PythonManager :=
  {| context := extensionPath; process := None; messageCallback := None;
     outputBuffer := [] |}.

(** Code running on a manager: it ends normally or by a throw, leaves the
    fields changed, and has made the listed calls into the host, oldest
    first. *)
Definition M (A : Type) : Type :=
  PythonManager -> completion A * PythonManager * list event.

Definition ret {A} (a : A) : M A := fun s => (Normal a, s, []).

Definition bind {A B} (m : M A) (k : A -> M B) : M B :=
  fun s =>
    match m s with
    | (Normal a, s1, t1) => let '(r, s2, t2) := k a s1 in (r, s2, t1 ++ t2)
    | (Throw e, s1, t1) => (Throw e, s1, t1)
    end.

Definition throw {A} (e : exn) : M A := fun s => (Throw e, s, []).

(** [try { body } catch (e) { handler }] *)
Definition try_catch {A} (body : M A) (handler : exn -> M A) : M A :=
  fun s =>
    match body s with
    | (Normal a, s1, t1) => (Normal a, s1, t1)
    | (Throw e, s1, t1) => let '(r, s2, t2) := handler e s1 in (r, s2, t1 ++ t2)
    end.

Definition emit (e : event) : M unit := fun s => (Normal tt, s, [e]).

Definition emit_all (es : list event) : M unit := fun s => (Normal tt, s, es).

Definition get_process : M (option child) := fun s => (Normal (process s), s, []).
Definition get_messageCallback : M (option callback) :=
  fun s => (Normal (messageCallback s), s, []).
Definition get_outputBuffer : M jsstring := fun s => (Normal (outputBuffer s), s, []).
Definition get_context : M jsstring := fun s => (Normal (context s), s, []).

(** Assignments to [this.process], [this.messageCallback] and
    [this.outputBuffer]. *)
Definition with_process (s : PythonManager) (p : option child) : PythonManager :=
  {| context := context s; process := p;
     messageCallback := messageCallback s; outputBuffer := outputBuffer s |}.

Definition with_messageCallback (s : PythonManager) (cb : option callback)
  : PythonManager :=
  {| context := context s; process := process s;
     messageCallback := cb; outputBuffer := outputBuffer s |}.

Definition with_outputBuffer (s : PythonManager) (b : jsstring) : PythonManager :=
  {| context := context s; process := process s;
     messageCallback := messageCallback s; outputBuffer := b |}.

Definition set_process (p : option child) : M unit :=
  fun s => (Normal tt, with_process s p, []).

Definition set_messageCallback (cb : option callback) : M unit :=
  fun s => (Normal tt, with_messageCallback s cb, []).

Definition set_outputBuffer (b : jsstring) : M unit :=
  fun s => (Normal tt, with_outputBuffer s b, []).

Declare Scope js_scope.
Delimit Scope js_scope with js.
Notation "x <- m ;; k" := (bind m (fun x => k))
  (at level 61, m at next level, right associativity) : js_scope.
Notation "m ;; k" := (bind m (fun _ => k))
  (at level 61, right associativity) : js_scope.
Local Open Scope js_scope.

(** [spawn(command, args, options)]: the call is recorded with what the
    host answers. *)
Definition do_spawn (command : jsstring) (args : list jsstring)
  (cwd : option jsstring) (PYTHONPATH : jsstring) (r : spawn_result) : M child :=
  emit (spawn command args cwd PYTHONPATH r);;
  match r with
  | Spawned c => ret c
  | SpawnThrew e => throw e
  end.

(** [c.stdin.write(chunk)] *)
Definition do_write (c : child) (chunk : jsstring) (r : write_result) : M unit :=
  emit (stdin_write (child_pid c) chunk r);;
  match r with
  | Written => ret tt
  | WriteThrew e => throw e
  end.

(** [cb(response)] *)
Definition do_call (cb : callback) (response : jsval) : M unit :=
  emit (call (cb_id cb) response);;
  match cb_throws cb response with
  | None => ret tt
  | Some e => throw e
  end.

(** [JSON.parse(line)] as a step that may throw. *)
Definition do_parse (line : jsstring) : M jsval :=
  match JSON_parse line with
  | Some v => ret v
  | None => throw SyntaxError
  end.

(** *** [start]: choosing the interpreter and building PYTHONPATH *)

(** Lines 26-34: the configured interpreter, else the extension's own
    setting, else the platform's default command. *)
Definition pythonPath_of (h : host) : jsstring :=
  let pythonPath := python_defaultInterpreterPath h in
  let pythonPath :=
    if negb (truthy_opt pythonPath) then variableExplorer_pythonPath h
    else pythonPath in
  match pythonPath with
  | Some p =>
      if truthy_str p then p
      else match process_platform h with
           | win32 => u "python"
           | other_platform => u "python3"
           end
  | None =>
      match process_platform h with
      | win32 => u "python"
      | other_platform => u "python3"
      end
  end.

(** Lines 42 and 46-51: [extraPaths.map(p => ...)]. *)
Definition resolvedPaths_of (h : host) : list jsstring :=
  let extraPaths :=
    match python_analysis_extraPaths h with Some l => l | None => [] end in
  map (fun p =>
         if isAbsolute (path h) p then p
         else match workspaceFolder h with
              | Some w => if truthy_str w then join (path h) [w; p] else p
              | None => p
              end)
      extraPaths.

(** Lines 53-57, from the resolved paths on. *)
Definition pythonPathParts_of (h : host) (extensionPath : jsstring)
  (resolvedPaths : list jsstring) : list jsstring :=
  let extensionPythonPath := join (path h) [extensionPath; u "python"] in
  let pythonPathParts := resolvedPaths ++ [extensionPythonPath] in
  if truthy_opt (env_PYTHONPATH h)
  then pythonPathParts ++
       [match env_PYTHONPATH h with Some p => p | None => [] end]
  else pythonPathParts.

Definition pythonPathEnv_of (h : host) (extensionPath : jsstring)
  (resolvedPaths : list jsstring) : jsstring :=
  JS.join (delimiter (path h)) (pythonPathParts_of h extensionPath resolvedPaths).

(** [workspaceFolder || undefined] *)
Definition cwd_of (h : host) : option jsstring :=
  if truthy_opt (workspaceFolder h) then workspaceFolder h else None.

(** *** The handlers [start] attaches *)

(** ['error'] (lines 79-86) *)
Definition on_error (err : exn) : M unit :=
  emit (console_error (MsgProcessErrorLog err));;
  set_process None;;
  emit (showErrorMessage (MsgProcessError err)).

(** The body of the [if (line.length > 0)] of lines 98-110. *)
Definition deliver (line : jsstring) : M unit :=
  try_catch
    (response <- do_parse line;;
     cb <- get_messageCallback;;
     match cb with
     | Some f => do_call f response
     | None => ret tt
     end)
    (fun e =>
       emit (console_error
               (MsgParseError e (substring line 0 100 ++ u "...")
                  (jslength line)))).

(** The [while] loop of lines 94-111.  [fuel] bounds the iterations; every
    iteration removes a line feed from the buffer, so the budget
    [on_stdout_data] gives is never used up: the loop always ends because
    no line feed is left ([frame_split], [on_stdout_data_run]). *)
Fixpoint stdout_loop (fuel : nat) : M unit :=
  match fuel with
  | O => ret tt
  | S fuel' =>
      buf <- get_outputBuffer;;
      let lineEnd := indexOf NL buf in
      if Z.eqb lineEnd (-1) then ret tt
      else
        let line := trim (substring buf 0 lineEnd) in
        set_outputBuffer (substring_from buf (lineEnd + 1));;
        (if Z.ltb 0 (jslength line) then deliver line else ret tt);;
        stdout_loop fuel'
  end.

(** [stdout 'data'] (lines 88-112) *)
Definition on_stdout_data (data : list byte) : M unit :=
  buf <- get_outputBuffer;;
  set_outputBuffer (buf ++ Utf8.toString data);;
  buf' <- get_outputBuffer;;
  stdout_loop (S (List.length buf')).

(** [stderr 'data'] (lines 114-124) *)
Definition on_stderr_data (data : list byte) : M unit :=
  let errorMsg := Utf8.toString data in
  emit (console_error (MsgPythonErrorLog errorMsg));;
  if includes errorMsg (u "ModuleNotFoundError")
     || includes errorMsg (u "ImportError")
     || includes errorMsg (u "SyntaxError")
     || includes errorMsg (u "No module named")
  then emit (showErrorMessage (MsgPythonError (substring errorMsg 0 200)))
  else ret tt.

(** ['close'] (lines 126-136); [code] is [None] for [null]. *)
Definition on_close (code : option Z) : M unit :=
  emit (console_log (MsgExited code));;
  (match code with
   | Some c =>
       if negb (Z.eqb c 0)
       then emit (showWarningMessage (MsgExitedUnexpectedly c))
       else ret tt
   | None => ret tt
   end);;
  set_process None;;
  set_outputBuffer [].

(** Lines 66-136, shared by both versions of [start]: spawn, and on success
    attach the four handlers. *)
Definition spawn_and_attach (pythonPath backendScript : jsstring)
  (cwd : option jsstring) (pythonPathEnv : jsstring) (r : spawn_result)
  : M unit :=
  spawned <-
    try_catch
      (c <- do_spawn pythonPath [backendScript] cwd pythonPathEnv r;;
       set_process (Some c);;
       ret true)
      (fun e =>
         emit (console_error (MsgSpawnFailedLog e));;
         emit (showErrorMessage (MsgSpawnFailed pythonPath));;
         ret false);;
  if spawned : bool then
    p <- get_process;;
    match p with
    | Some c =>
        emit (attach (child_pid c) on_error_h);;
        emit (attach (child_pid c) on_stdout_h);;
        emit (attach (child_pid c) on_stderr_h);;
        emit (attach (child_pid c) on_close_h)
    | None => ret tt
    end
  else ret tt.

(** [start(onMessage)] of [src/pythonManager.js]; [r] is what [spawn] does
    if it is reached. *)
Definition start (h : host) (onMessage : option callback) (r : spawn_result)
  : M unit :=
  set_messageCallback onMessage;;
  p <- get_process;;
  match p with
  | Some _ => emit (console_log MsgAlreadyRunning)
  | None =>
      set_outputBuffer [];;
      let pythonPath := pythonPath_of h in
      extensionPath <- get_context;;
      let backendScript :=
        join (path h) [extensionPath; u "python"; u "variable_inspector.py"] in
      let resolvedPaths := resolvedPaths_of h in
      let pythonPathEnv := pythonPathEnv_of h extensionPath resolvedPaths in
      emit (console_log (MsgStarting pythonPath backendScript));;
      spawn_and_attach pythonPath backendScript (cwd_of h) pythonPathEnv r
  end.

(** *** The [start] variant that scans the workspace *)

(** The local variables the scan updates, and the directories it read. *)
Record scan := {
  scan_paths : list jsstring;
  dirCount : nat;
  dirs_read : list jsstring
}.

Definition eligible (entry : dirent) : bool :=
  isDirectory entry
  && negb (startsWith (name entry) (u "."))
  && negb (startsWith (name entry) (u "__"))
  && negb (eqb_str (name entry) (u "node_modules"))
  && negb (eqb_str (name entry) (u "venv"))
  && negb (eqb_str (name entry) (u ".git")).

(** The [for (const entry of entries)] loop of [addSubdirs(dir, depth)];
    [recurse] is [addSubdirs(_, depth + 1)].  A throw leaves the loop. *)
Fixpoint for_entries (h : host)
  (recurse : jsstring -> scan -> completion unit * scan)
  (dir : jsstring) (entries : list dirent) (st : scan)
  : completion unit * scan :=
  match entries with
  | [] => (Normal tt, st)
  | entry :: rest =>
      if eligible entry then
        let subdir := join (path h) [dir; name entry] in
        let st1 := {| scan_paths := scan_paths st ++ [subdir];
                      dirCount := S (dirCount st);
                      dirs_read := dirs_read st |} in
        match recurse subdir st1 with
        | (Normal _, st2) => for_entries h recurse dir rest st2
        | (Throw e, st2) => (Throw e, st2)
        end
      else for_entries h recurse dir rest st
  end.

(** [addSubdirs(dir, depth)] with [levels = 6 - depth], so that [levels = 0]
    is the [depth > 5] return.  A throw of [readdirSync] ends the scan; what
    was pushed before stays pushed. *)
Fixpoint addSubdirs (h : host) (levels : nat) (dir : jsstring) (st : scan)
  : completion unit * scan :=
  match levels with
  | O => (Normal tt, st)
  | S levels' =>
      let st := {| scan_paths := scan_paths st; dirCount := dirCount st;
                   dirs_read := dirs_read st ++ [dir] |} in
      match readdirSync h dir with
      | Throw e => (Throw e, st)
      | Normal entries => for_entries h (addSubdirs h levels') dir entries st
      end
  end.

Fixpoint log_entries (i : nat) (parts : list jsstring) : M unit :=
  match parts with
  | [] => ret tt
  | p :: rest => emit (console_log (MsgDebugEntry i p));; log_entries (S i) rest
  end.

(** [start(onMessage)] of the variant; after the spawn options it goes on
    as [start] does from its line 64: the log of the command, then lines
    66-136. *)
Definition start_scanning (h : host) (onMessage : option callback)
  (r : spawn_result) : M unit :=
  set_messageCallback onMessage;;
  p <- get_process;;
  match p with
  | Some _ => emit (console_log MsgAlreadyRunning)
  | None =>
      set_outputBuffer [];;
      let pythonPath := pythonPath_of h in
      emit (console_log MsgDebugBanner);;
      emit (console_log (MsgDebugPythonPath pythonPath));;
      extensionPath <- get_context;;
      let backendScript :=
        join (path h) [extensionPath; u "python"; u "variable_inspector.py"] in
      emit (console_log (MsgDebugBackendScript backendScript));;
      emit (console_log (MsgDebugWorkspaceFolder (workspaceFolder h)));;
      let resolvedPaths := resolvedPaths_of h in
      resolvedPaths <-
        match workspaceFolder h with
        | Some w =>
            if truthy_str w then
              let '(c, st) :=
                addSubdirs h 6 w
                  {| scan_paths := resolvedPaths; dirCount := 0;
                     dirs_read := [] |} in
              emit_all (map readdir (dirs_read st));;
              match c with
              | Normal _ => emit (console_log (MsgDebugScanned (dirCount st)))
              | Throw e => emit (console_error (MsgDebugScanError e))
              end;;
              ret (scan_paths st)
            else ret resolvedPaths
        | None => ret resolvedPaths
        end;;
      let pythonPathParts := pythonPathParts_of h extensionPath resolvedPaths in
      let pythonPathEnv := pythonPathEnv_of h extensionPath resolvedPaths in
      emit (console_log MsgDebugEntries);;
      log_entries 0 pythonPathParts;;
      emit (console_log MsgDebugBanner);;
      emit (showInformationMessage (MsgUsingPython pythonPath));;
      emit (console_log (MsgStarting pythonPath backendScript));;
      spawn_and_attach pythonPath backendScript (cwd_of h) pythonPathEnv r
  end.

(** *** Sending commands *)

(** [commandStr + '\n'] where [commandStr] may be [undefined]. *)
Definition to_string (o : option jsstring) : jsstring :=
  match o with Some t => t | None => u "undefined" end.

(** [sendCommand(command)] for a command object with the given properties;
    [w] is what [stdin.write] does if it is reached. *)
Definition sendCommand (command : list (jsstring * jsval)) (w : write_result)
  : M bool :=
  p <- get_process;;
  let not_running :=
    emit (console_error (MsgNotRunning (obj_get (u "command") command)));;
    ret false in
  match p with
  | None => not_running
  | Some c =>
      if negb (has_stdin c) then not_running
      else
        try_catch
          (let commandStr := JSON_stringify (JObj command) in
           do_write c (to_string commandStr ++ [NL]) w;;
           ret true)
          (fun e =>
             emit (console_error (MsgSendErrorLog e));;
             emit (showErrorMessage MsgSendError);;
             ret false)
  end.

Definition runFile (h : host) (filePath : jsval) (w : write_result) : M bool :=
  let captureMainLocals := variableExplorer_captureMainLocals h in
  sendCommand [(u "command", JStr (u "run_file"));
               (u "file", filePath);
               (u "capture_main_locals", JBool captureMainLocals)] w.

Definition runCode (h : host) (code : jsval) (w : write_result) : M bool :=
  let captureMainLocals := variableExplorer_captureMainLocals h in
  sendCommand [(u "command", JStr (u "run_code"));
               (u "code", code);
               (u "capture_main_locals", JBool captureMainLocals)] w.

Definition getVariables (w : write_result) : M bool :=
  sendCommand [(u "command", JStr (u "get_variables"))] w.

(** [getDetails(varName, path = null)]: an [undefined] argument takes the
    default. *)
Definition getDetails (varName path : jsval) (w : write_result) : M bool :=
  let path := match path with JUndefined => JNull | _ => path end in
  let command := [(u "command", JStr (u "get_details")); (u "name", varName)] in
  let command :=
    if truthy path then obj_set (u "path") path command else command in
  sendCommand command w.

Definition updateVariable (varName varType newValue : jsval) (w : write_result)
  : M bool :=
  sendCommand [(u "command", JStr (u "update_variable"));
               (u "name", varName); (u "type", varType);
               (u "value", newValue)] w.

Definition clearNamespace (w : write_result) : M bool :=
  sendCommand [(u "command", JStr (u "clear_namespace"))] w.

Definition saveSession (filePath : jsval) (w : write_result) : M bool :=
  sendCommand [(u "command", JStr (u "save_session")); (u "file", filePath)] w.

Definition loadSession (filePath : jsval) (w : write_result) : M bool :=
  sendCommand [(u "command", JStr (u "load_session")); (u "file", filePath)] w.

Definition isRunning : M bool :=
  p <- get_process;;
  ret (match p with Some _ => true | None => false end).

(** [dispose()] *)
Definition dispose : M unit :=
  p <- get_process;;
  match p with
  | Some c => emit (kill (child_pid c));; set_process None
  | None => ret tt
  end.

End Manager.
Import Manager.

(* ================================================================== *)
(** ** The stream framer, read off the stdout handler *)
(* ================================================================== *)

Module Framer.

(** The loop of the stdout handler with the delivery of each line left out:
    the lines it passes on, and the buffer it leaves. *)
Fixpoint frame (fuel : nat) (buf : jsstring) : list jsstring * jsstring :=
  match fuel with
  | O => ([], buf)
  | S fuel' =>
      let lineEnd := indexOf NL buf in
      if Z.eqb lineEnd (-1) then ([], buf)
      else
        let line := trim (substring buf 0 lineEnd) in
        let '(ls, b) := frame fuel' (substring_from buf (lineEnd + 1)) in
        ((if Z.ltb 0 (jslength line) then [line] else []) ++ ls, b)
  end.

(** [feed(chunk)]: the lines one ['data'] event passes on and the buffer it
    leaves, from the buffer it found. *)
Definition feed (buf : jsstring) (data : list byte) : list jsstring * jsstring :=
  let buf' := buf ++ Utf8.toString data in
  frame (S (List.length buf')) buf'.

(** What [deliver] does with one line under callback [cb]: the calls into
    the host. *)
Definition deliver_events (cb : option callback) (line : jsstring) : list event :=
  let parse_error e :=
    console_error (MsgParseError e (substring line 0 100 ++ u "...") (jslength line)) in
  match JSON_parse line with
  | None => [parse_error SyntaxError]
  | Some response =>
      match cb with
      | None => []
      | Some f =>
          call (cb_id f) response ::
          match cb_throws f response with
          | None => []
          | Some e => [parse_error e]
          end
      end
  end.

(** A text cut at its line feeds: the terminated lines, without their line
    feed, and the unterminated rest. *)
Fixpoint split_lines (text : jsstring) : list jsstring * jsstring :=
  match text with
  | [] => ([], [])
  | c :: r =>
      let '(ls, frag) := split_lines r in
      if N.eqb c NL then ([] :: ls, frag)
      else match ls with
           | [] => ([], c :: frag)
           | l :: ls' => ((c :: l) :: ls', frag)
           end
  end.

Definition complete_lines (text : jsstring) : list jsstring := fst (split_lines text).
Definition fragment (text : jsstring) : jsstring := snd (split_lines text).

(** Lines written out again, each with its line feed. *)
Definition unlines (ls : list jsstring) : jsstring :=
  List.concat (map (fun l => l ++ [NL]) ls).

(** Each line trimmed, and those that are empty then left out. *)
Definition yielded (ls : list jsstring) : list jsstring :=
  filter truthy_str (map trim ls).

(** The ['data'] handler run on one chunk after the other. *)
Fixpoint feed_chunks (chunks : list (list byte)) : M unit :=
  match chunks with
  | [] => ret tt
  | c :: rest => bind (on_stdout_data c) (fun _ => feed_chunks rest)
  end.

End Framer.
Import Framer.

(* ================================================================== *)
(** ** Sessions: a manager and the processes it has spawned *)
(* ================================================================== *)

Module Session.

(** What happens to a manager: a method is called, or a child process
    fires one of the events [start] attached a handler for.  Calls carry
    the host's answer to the [spawn] or [write] they may reach. *)
Inductive input :=
| call_start (onMessage : option callback) (r : spawn_result)
| call_sendCommand (command : list (jsstring * jsval)) (w : write_result)
| call_dispose
| fire_error (p : pid) (err : exn)
| fire_stdout (p : pid) (data : list byte)
| fire_stderr (p : pid) (data : list byte)
| fire_close (p : pid) (code : option Z).

(** The manager together with the host's view of its children:
    [listening] are the spawned processes that have not yet fired ['close'],
    [signalled] those [kill()] was called on, [spawned] all there ever
    were. *)
Record world := {
  mgr : PythonManager;
  listening : list pid;
  signalled : list pid;
  spawned : list pid;
  trace : list event
}.

Definition initial (extensionPath : jsstring) : world :=
  {| mgr := constructor extensionPath; listening := []; signalled := [];
     spawned := []; trace := [] |}.

Definition mem (p : pid) (l : list pid) : bool := existsb (N.eqb p) l.

(** The code an input runs. *)
Definition react (h : host) (i : input) : M unit :=
  match i with
  | call_start onMessage r => start h onMessage r
  | call_sendCommand command w => bind (sendCommand command w) (fun _ => ret tt)
  | call_dispose => dispose
  | fire_error _ err => on_error err
  | fire_stdout _ data => on_stdout_data data
  | fire_stderr _ data => on_stderr_data data
  | fire_close _ code => on_close code
  end.

Definition born (t : list event) : list pid :=
  flat_map (fun e => match e with
                     | spawn _ _ _ _ (Spawned c) => [child_pid c]
                     | _ => []
                     end) t.

Definition killed (t : list event) : list pid :=
  flat_map (fun e => match e with kill p => [p] | _ => [] end) t.

Definition step (h : host) (w : world) (i : input) : world :=
  let '(_, m, t) := react h i (mgr w) in
  let closed := match i with fire_close p _ => [p] | _ => [] end in
  {| mgr := m;
     listening :=
       filter (fun p => negb (mem p closed)) (listening w ++ born t);
     signalled := signalled w ++ killed t;
     spawned := spawned w ++ born t;
     trace := trace w ++ t |}.

(** An input the host can deliver in world [w]: events come only from
    processes that are listened to, and [spawn] answers with a process
    that did not exist before. *)
Definition admissible (w : world) (i : input) : bool :=
  match i with
  | call_start _ (Spawned c) => negb (mem (child_pid c) (spawned w))
  | call_start _ (SpawnThrew _) => true
  | call_sendCommand _ _ => true
  | call_dispose => true
  | fire_error p _ | fire_stdout p _ | fire_stderr p _ | fire_close p _ =>
      mem p (listening w)
  end.

Fixpoint run (h : host) (w : world) (inputs : list input) : world :=
  match inputs with
  | [] => w
  | i :: rest => run h (step h w i) rest
  end.

Fixpoint admissible_run (h : host) (w : world) (inputs : list input) : bool :=
  match inputs with
  | [] => true
  | i :: rest => admissible w i && admissible_run h (step h w i) rest
  end.

(** The worker processes of the session: spawned by it, not yet closed, and
    not told to terminate. *)
Definition workers (w : world) : list pid :=
  filter (fun p => negb (mem p (signalled w))) (listening w).

End Session.
Import Session.

(* ================================================================== *)
(** ** Reading traces *)
(* ================================================================== *)

Definition calls (t : list event) : list (N * jsval) :=
  flat_map (fun e => match e with call id v => [(id, v)] | _ => [] end) t.

Definition writes (t : list event) : list jsstring :=
  flat_map (fun e => match e with stdin_write _ c _ => [c] | _ => [] end) t.

Definition spawns (t : list event) : list event :=
  filter (fun e => match e with spawn _ _ _ _ _ => true | _ => false end) t.

Definition search_paths (t : list event) : list jsstring :=
  flat_map (fun e => match e with spawn _ _ _ pp _ => [pp] | _ => [] end) t.

Definition reads (t : list event) : list jsstring :=
  flat_map (fun e => match e with readdir d => [d] | _ => [] end) t.

(** The events a user sees: notifications, as opposed to console output. *)
Definition user_visible (e : event) : bool :=
  match e with
  | showErrorMessage _ | showWarningMessage _ | showInformationMessage _ => true
  | _ => false
  end.

Definition warnings (t : list event) : list message :=
  flat_map (fun e => match e with showWarningMessage m => [m] | _ => [] end) t.

(** The notification ['close'] shows for an exit code. *)
Definition close_warning (code : option Z) : list event :=
  match code with
  | Some c =>
      if Z.eqb c 0 then [] else [showWarningMessage (MsgExitedUnexpectedly c)]
  | None => []
  end.

(** The calls [start] makes when it gets as far as [spawn]. *)
Definition start_spawn_event (h : host) (extensionPath : jsstring)
  (r : spawn_result) : event :=
  spawn (pythonPath_of h)
    [join (path h) [extensionPath; u "python"; u "variable_inspector.py"]]
    (cwd_of h)
    (pythonPathEnv_of h extensionPath (resolvedPaths_of h)) r.

Definition attach_events (c : child) : list event :=
  [attach (child_pid c) on_error_h; attach (child_pid c) on_stdout_h;
   attach (child_pid c) on_stderr_h; attach (child_pid c) on_close_h].

Definition starting_event (h : host) (extensionPath : jsstring) : event :=
  console_log
    (MsgStarting (pythonPath_of h)
       (join (path h) [extensionPath; u "python"; u "variable_inspector.py"])).

(** The line [sendCommand] writes for a command. *)
Definition wire_line (command : list (jsstring * jsval)) : jsstring :=
  to_string (JSON_stringify (JObj command)) ++ [NL].

(** The three parts of what running a piece of manager code gives. *)
Definition result_of {A} (x : completion A * PythonManager * list event)
  : completion A := fst (fst x).
Definition state_after {A} (x : completion A * PythonManager * list event)
  : PythonManager := snd (fst x).
Definition trace_of {A} (x : completion A * PythonManager * list event)
  : list event := snd x.

(** A text without a line feed. *)
Definition one_line (t : jsstring) : bool :=
  forallb (fun c => negb (N.eqb c NL)) t.

(* ================================================================== *)
(** ** The search path as the specification words it *)
(* ================================================================== *)

(** Each extra path in order (absolute entries unchanged; relative entries
    joined against the workspace root when there is one, otherwise left
    as they are), then the extension-owned path, then the inherited
    PYTHONPATH if it is non-empty, joined with the path-list separator.
    A workspace root is "present" when the host reports a non-empty one. *)
Definition search_path_spec (P : PathModule) (extraPaths : list jsstring)
  (workspaceRoot : option jsstring) (extensionOwnedPath : jsstring)
  (inherited : option jsstring) : jsstring :=
  let resolve p :=
    if isAbsolute P p then p
    else match workspaceRoot with
         | Some w => match w with [] => p | _ :: _ => join P [w; p] end
         | None => p
         end in
  let inherited_part :=
    match inherited with
    | Some i => match i with [] => [] | _ :: _ => [i] end
    | None => []
    end in
  JS.join (delimiter P)
    (map resolve extraPaths ++ [extensionOwnedPath] ++ inherited_part).

(** The same with the directories a scan found put between the extra paths
    and the extension-owned path: what the scanning variant builds. *)
Definition search_path_scanned (P : PathModule) (extraPaths : list jsstring)
  (workspaceRoot : option jsstring) (scanned : list jsstring)
  (extensionOwnedPath : jsstring) (inherited : option jsstring) : jsstring :=
  let resolve p :=
    if isAbsolute P p then p
    else match workspaceRoot with
         | Some w => match w with [] => p | _ :: _ => join P [w; p] end
         | None => p
         end in
  let inherited_part :=
    match inherited with
    | Some i => match i with [] => [] | _ :: _ => [i] end
    | None => []
    end in
  JS.join (delimiter P)
    (map resolve extraPaths ++ scanned ++ [extensionOwnedPath] ++ inherited_part).

(** The directories the variant's scan finds, in the order it pushes them. *)
Definition scanned_dirs (h : host) : list jsstring :=
  match workspaceFolder h with
  | Some w =>
      if truthy_str w
      then scan_paths
             (snd (addSubdirs h 6 w
                     {| scan_paths := []; dirCount := 0; dirs_read := [] |}))
      else []
  | None => []
  end.

Definition extraPaths_of (h : host) : list jsstring :=
  match python_analysis_extraPaths h with Some l => l | None => [] end.

(** A scan state with paths put in front of its own. *)
Definition prepend (pre : list jsstring) (st : scan) : scan :=
  {| scan_paths := pre ++ scan_paths st; dirCount := dirCount st;
     dirs_read := dirs_read st |}.

(** The decoder states that occur: the continuation range lies within
    80..BF, and a sequence under way has either a non-zero code point so far
    or a raised lower bound (the guard against overlong forms). *)
Definition tracked (st : Utf8.dstate) : Prop :=
  (128 <= Utf8.lower st)%N /\ (Utf8.upper st <= 191)%N
  /\ match Utf8.bytes_needed st with
     | O => True
     | S O => Utf8.code_point st <> 0%N
     | S (S _) => Utf8.code_point st <> 0%N \/ (129 <= Utf8.lower st)%N
     end.

(** A byte that is a character by itself. *)
Definition is_ascii (b : byte) : Prop := (Byte.to_N b <= 127)%N.

(** The inputs after which a running process is still held: all but
    [dispose()] and the ['error'] and ['close'] events. *)
Definition keeps_running (i : input) : bool :=
  match i with
  | call_dispose | fire_error _ _ | fire_close _ _ => false
  | _ => true
  end.

(** The directories the variant's scan reads. *)
Definition scanned_reads (h : host) : list jsstring :=
  match workspaceFolder h with
  | Some w =>
      if truthy_str w
      then dirs_read
             (snd (addSubdirs h 6 w
                     {| scan_paths := []; dirCount := 0; dirs_read := [] |}))
      else []
  | None => []
  end.

(** The console lines of [log_entries]. *)
Fixpoint log_events (i : nat) (parts : list jsstring) : list event :=
  match parts with
  | [] => []
  | p :: rest => console_log (MsgDebugEntry i p) :: log_events (S i) rest
  end.

(** The bytes of an ASCII text. *)
Definition ascii_bytes (t : jsstring) : list byte :=
  map (fun c => match Byte.of_N c with Some b => b | None => x00 end) t.

(** The stream of the specification's codec example: a JSON line, a line
    that is not JSON, a JSON line. *)
Definition example_stream : list byte :=
  ascii_bytes (sq "{'a':1}") ++ [x0a]
  ++ ascii_bytes (u "NOT-JSON") ++ [x0a]
  ++ ascii_bytes (sq "{'b':2}") ++ [x0a].

Definition number_of (n : N) : jsval :=
  JNum {| negative := false; digits := n; exponent := 0 |}.

(** *** A host to run examples on *)

(** Linux, no interpreter configured, the extra paths of the
    specification's example, and a workspace [/ws] that holds a package
    directory [pkg] with a sub-directory [sub], a directory [.git] and a
    file [f.py]. *)
Definition example_host : host :=
  {| python_defaultInterpreterPath := None;
     variableExplorer_pythonPath := None;
     python_analysis_extraPaths := Some [u "./lib"; u "/abs/x"];
     variableExplorer_captureMainLocals := false;
     workspaceFolder := Some (u "/ws");
     process_platform := other_platform;
     env_PYTHONPATH := Some (u "/old");
     path := posix;
     readdirSync := fun d =>
       if eqb_str d (u "/ws") then
         Normal [ {| name := u "pkg"; isDirectory := true |};
                  {| name := u ".git"; isDirectory := true |};
                  {| name := u "f.py"; isDirectory := false |} ]
       else if eqb_str d (u "/ws/pkg") then
         Normal [ {| name := u "sub"; isDirectory := true |} ]
       else if eqb_str d (u "/ws/pkg/sub") then Normal []
       else Throw (Error (u "ENOENT")) |}.

Definition example_callback (id : N) : callback :=
  {| cb_id := id; cb_throws := fun _ => None |}.

Definition example_child (p : pid) : child :=
  {| child_pid := p; has_stdin := true |}.

Definition example_manager : PythonManager := constructor (u "/ext").

(* ================================================================== *)
(** ** More readings of traces and inputs *)
(* ================================================================== *)

(** The texts the stderr handler looks for. *)
Definition stderr_markers : list jsstring :=
  [u "ModuleNotFoundError"; u "ImportError"; u "SyntaxError";
   u "No module named"].

(** The [spawn] calls of a trace without the PYTHONPATH they pass. *)
Definition spawn_calls (t : list event)
  : list (jsstring * list jsstring * option jsstring * spawn_result) :=
  flat_map (fun e => match e with
                     | spawn c a d _ r => [(c, a, d, r)]
                     | _ => []
                     end) t.

Definition spawn_commands (t : list event) : list jsstring :=
  flat_map (fun e => match e with spawn c _ _ _ _ => [c] | _ => [] end) t.

Definition attaches (t : list event) : list (pid * handler_kind) :=
  flat_map (fun e => match e with attach p k => [(p, k)] | _ => [] end) t.

(** The line previews of the parse diagnostics in a trace. *)
Definition parse_error_previews (t : list event) : list jsstring :=
  flat_map (fun e => match e with
                     | console_error (MsgParseError _ l _) => [l]
                     | _ => []
                     end) t.

(** The callback the last [start] call of a list of inputs passed, [acc]
    if there is no such call. *)
Fixpoint last_onMessage (acc : option callback) (inputs : list input)
  : option callback :=
  match inputs with
  | [] => acc
  | call_start cb _ :: rest => last_onMessage cb rest
  | _ :: rest => last_onMessage acc rest
  end.

Definition is_write_to (p : pid) (e : event) : bool :=
  match e with stdin_write q _ _ => N.eqb q p | _ => false end.

(** No write to a process follows a [kill] of it. *)
Fixpoint quiet_after_kill (t : list event) : bool :=
  match t with
  | [] => true
  | kill p :: rest => negb (existsb (is_write_to p) rest) && quiet_after_kill rest
  | _ :: rest => quiet_after_kill rest
  end.

(** A text that neither starts nor ends with a white space character. *)
Definition starts_black (l : jsstring) : bool :=
  match l with c :: _ => negb (is_white_space c) | [] => true end.

Definition ends_black (l : jsstring) : bool := starts_black (rev l).

(** *** The scanning variant of [start], step by step *)

(** The scan the variant makes, if it makes one: how it ended, and the
    paths, count and directories read it ended with. *)
Definition scan_of (h : host) : completion unit * scan :=
  let initial_scan :=
    {| scan_paths := resolvedPaths_of h; dirCount := 0; dirs_read := [] |} in
  match workspaceFolder h with
  | Some w => if truthy_str w then addSubdirs h 6 w initial_scan
              else (Normal tt, initial_scan)
  | None => (Normal tt, initial_scan)
  end.

(** What the scan leaves in the trace: the directories read, then the count
    or the error. *)
Definition scan_events (h : host) : list event :=
  match workspaceFolder h with
  | Some w =>
      if truthy_str w then
        map readdir (dirs_read (snd (scan_of h)))
        ++ [match fst (scan_of h) with
            | Normal _ => console_log (MsgDebugScanned (dirCount (snd (scan_of h))))
            | Throw e => console_error (MsgDebugScanError e)
            end]
      else []
  | None => []
  end.

(** The variant's calls into the host before [spawn]. *)
Definition scanning_prelude (h : host) (extensionPath : jsstring) : list event :=
  [console_log MsgDebugBanner;
   console_log (MsgDebugPythonPath (pythonPath_of h));
   console_log (MsgDebugBackendScript
                  (join (path h)
                     [extensionPath; u "python"; u "variable_inspector.py"]));
   console_log (MsgDebugWorkspaceFolder (workspaceFolder h))]
  ++ scan_events h
  ++ [console_log MsgDebugEntries]
  ++ log_events 0
       (pythonPathParts_of h extensionPath (scan_paths (snd (scan_of h))))
  ++ [console_log MsgDebugBanner;
      showInformationMessage (MsgUsingPython (pythonPath_of h));
      starting_event h extensionPath].

(** What follows the [spawn] call in either version of [start]. *)
Definition after_spawn (h : host) (r : spawn_result) : list event :=
  match r with
  | Spawned c => attach_events c
  | SpawnThrew e =>
      [console_error (MsgSpawnFailedLog e);
       showErrorMessage (MsgSpawnFailed (pythonPath_of h))]
  end.

(** The fields either version of [start] leaves when it gets to [spawn]. *)
Definition started (s : PythonManager) (cb : option callback)
  (r : spawn_result) : PythonManager :=
  {| context := context s;
     process := match r with Spawned c => Some c | SpawnThrew _ => None end;
     messageCallback := cb;
     outputBuffer := [] |}.

(** A path the scan may add: the join of a directory it read with the
    name of an eligible entry of that directory. *)
Definition found_in (h : host) (dirs : list jsstring) (p : jsstring) : Prop :=
  exists d entries entry,
    In d dirs /\ readdirSync h d = Normal entries /\ In entry entries
    /\ eligible entry = true /\ p = join (path h) [d; name entry].

(** What a scan started on [dir] in state [st] may have made of it. *)
Definition scanned_from (h : host) (dir : jsstring) (st r : scan) : Prop :=
  exists added newreads,
    scan_paths r = scan_paths st ++ added
    /\ dirCount r = dirCount st + List.length added
    /\ dirs_read r = dirs_read st ++ newreads
    /\ Forall (found_in h (dirs_read r)) added
    /\ Forall (fun d => d = dir \/ In d added) newreads.

(** The example host with a workspace that cannot be read. *)
Definition unreadable_host : host :=
  {| python_defaultInterpreterPath := python_defaultInterpreterPath example_host;
     variableExplorer_pythonPath := variableExplorer_pythonPath example_host;
     python_analysis_extraPaths := python_analysis_extraPaths example_host;
     variableExplorer_captureMainLocals := false;
     workspaceFolder := workspaceFolder example_host;
     process_platform := process_platform example_host;
     env_PYTHONPATH := env_PYTHONPATH example_host;
     path := posix;
     readdirSync := fun _ => Throw (Error (u "EACCES")) |}.

(** The directory counts the variant logs. *)
Definition scanned_counts (t : list event) : list nat :=
  flat_map (fun e => match e with
                     | console_log (MsgDebugScanned n) => [n]
                     | _ => []
                     end) t.

Definition scan_errors (t : list event) : list exn :=
  flat_map (fun e => match e with
                     | console_error (MsgDebugScanError e) => [e]
                     | _ => []
                     end) t.

(** A callback that throws whatever it is given. *)
Definition throwing_callback (id : N) : callback :=
  {| cb_id := id; cb_throws := fun _ => Some (Error (u "panel is gone")) |}.

(** The values of the lines that parse, as the callback [f] is called with
    them. *)
Definition parsed_calls (f : callback) (lines : list jsstring)
  : list (N * jsval) :=
  flat_map (fun line => match JSON_parse line with
                        | Some v => [(cb_id f, v)]
                        | None => []
                        end) lines.

(** The processes a trace writes to. *)
Definition written_to (t : list event) : list pid :=
  flat_map (fun e => match e with stdin_write p _ _ => [p] | _ => [] end) t.

(** A session that starts twice, sends, disposes and sends again. *)
Definition example_session : list input :=
  [call_start (Some (example_callback 1%N)) (Spawned (example_child 1%N));
   call_sendCommand [(u "command", JStr (u "get_variables"))] Written;
   call_start (Some (example_callback 2%N)) (Spawned (example_child 2%N));
   call_dispose;
   call_sendCommand [(u "command", JStr (u "get_variables"))] Written;
   call_dispose;
   call_start None (Spawned (example_child 3%N));
   fire_close 1%N None;
   call_sendCommand [(u "command", JStr (u "clear_namespace"))] Written].

(** What holds of a session whatever happens to it: processes are killed
    and written to only after they were spawned, none is killed twice,
    none is written to once it was killed, and the process held is
    listened to and was not killed. *)
Record disciplined (w : world) : Prop := {
  killed_were_spawned : incl (signalled w) (spawned w);
  listened_were_spawned : incl (listening w) (spawned w);
  written_were_spawned : incl (written_to (trace w)) (spawned w);
  killed_once : NoDup (signalled w);
  killed_are_signalled : killed (trace w) = signalled w;
  held_is_live : forall c, process (mgr w) = Some c ->
                   In (child_pid c) (listening w)
                   /\ ~ In (child_pid c) (signalled w);
  quiet_once_killed : quiet_after_kill (trace w) = true
}.

(** *** Values that survive the wire *)

Fixpoint distinct (ks : list jsstring) : bool :=
  match ks with
  | [] => true
  | k :: rest => negb (existsb (fun k' => eqb_str k' k) rest) && distinct rest
  end.

(** The values made of [null], booleans, strings, arrays and objects with
    distinct property names: no [undefined] (which [JSON.stringify] leaves
    out or writes as [null]) and no number. *)
Fixpoint plain (v : jsval) : bool :=
  match v with
  | JUndefined | JNum _ => false
  | JNull | JBool _ | JStr _ => true
  | JArr items => forallb plain items
  | JObj props =>
      forallb (fun kv => plain (snd kv)) props && distinct (map fst props)
  end.

(** The text [JSON.stringify] gives, as [sendCommand] uses it. *)
Definition json_text (v : jsval) : jsstring := to_string (JSON_stringify v).


(** One property as [JSON.stringify] writes it. *)
Definition member_line (kv : jsstring * jsval) : jsstring :=
  quote (fst kv) ++ u ":" ++ json_text (snd kv).

(** What reading a written value back may give while fuel lasts. *)
Definition reads_back (r : presult jsval) (v : jsval) (rest : jsstring) : Prop :=
  r = POk v rest \/ r = PFuel.


(** The properties [JSON.stringify] writes: those whose value is not
    [undefined]. *)
Definition defined (o : list (jsstring * jsval)) : list (jsstring * jsval) :=
  filter (fun kv => match snd kv with JUndefined => false | _ => true end) o.

(** *** The methods that send one fixed command *)

Inductive request :=
| run_file (filePath : jsval)
| run_code (code : jsval)
| get_variables
| update_variable (varName varType newValue : jsval)
| clear_namespace
| save_session (filePath : jsval)
| load_session (filePath : jsval).

(** The method call a request stands for. *)
Definition perform (h : host) (r : request) (w : write_result) : M bool :=
  match r with
  | run_file filePath => runFile h filePath w
  | run_code code => runCode h code w
  | get_variables => getVariables w
  | update_variable varName varType newValue =>
      updateVariable varName varType newValue w
  | clear_namespace => clearNamespace w
  | save_session filePath => saveSession filePath w
  | load_session filePath => loadSession filePath w
  end.

Definition arguments (r : request) : list jsval :=
  match r with
  | run_file a | run_code a | save_session a | load_session a => [a]
  | get_variables | clear_namespace => []
  | update_variable a b c => [a; b; c]
  end.

(** The name the worker is expected to find under [command]. *)
Definition command_name (r : request) : jsstring :=
  match r with
  | run_file _ => u "run_file"
  | run_code _ => u "run_code"
  | get_variables => u "get_variables"
  | update_variable _ _ _ => u "update_variable"
  | clear_namespace => u "clear_namespace"
  | save_session _ => u "save_session"
  | load_session _ => u "load_session"
  end.

(** An argument that is left out or plain. *)
Definition sendable (v : jsval) : bool :=
  match v with JUndefined => true | _ => plain v end.


(** [below h root n d]: [d] is reached from [root] in [n] steps, each from a
    directory to one of the sub-directories [readdirSync] lists for it that
    the scan accepts. *)
Inductive below (h : host) (root : jsstring) : nat -> jsstring -> Prop :=
| below_here : below h root 0 root
| below_step (n : nat) (d : jsstring) (entries : list dirent) (entry : dirent) :
    below h root n d ->
    readdirSync h d = Normal entries -> In entry entries ->
    eligible entry = true ->
    below h root (S n) (join (path h) [d; name entry]).

(** What a scan of [levels] levels started on [dir] in state [st] may have
    made of it: everything added or read lies within those levels. *)
Definition within (h : host) (levels : nat) (dir : jsstring) (st r : scan)
  : Prop :=
  exists added newreads,
    scan_paths r = scan_paths st ++ added
    /\ dirs_read r = dirs_read st ++ newreads
    /\ Forall (fun a => exists n, 1 <= n <= levels /\ below h dir n a) added
    /\ Forall (fun d => exists n, n < levels /\ below h dir n d) newreads.

(* ================================================================== *)
(** ** The platform functions on examples *)
(* ================================================================== *)

Unset Implicit Arguments.

Example trim_both_ends : trim (u "  ab c 	") = u "ab c".
Proof. reflexivity. Qed.

Example trim_no_break_space : trim [160; 97; 65279; 8232]%N = [97%N].
Proof. reflexivity. Qed.

Example substring_swaps : substring (u "abcdef") 4 1 = u "bcd".
Proof. reflexivity. Qed.

Example indexOf_first : indexOf NL [97; 10; 98; 10]%N = 1%Z.
Proof. reflexivity. Qed.

Example toString_two_byte : Utf8.toString [xc3; xa9; x0a] = [233; 10]%N.
Proof. reflexivity. Qed.

Example toString_four_byte :
  Utf8.toString [xf0; x9f; x98; x80] = [55357; 56832]%N.
Proof. reflexivity. Qed.

Example toString_truncated : Utf8.toString [x61; xe2; x82] = [97; 65533]%N.
Proof. reflexivity. Qed.

Example toString_overlong : Utf8.toString [xc0; x8a] = [65533; 65533]%N.
Proof. reflexivity. Qed.

Example toString_surrogate :
  Utf8.toString [xed; xa0; x80] = [65533; 65533; 65533]%N.
Proof. reflexivity. Qed.

Example parse_object :
  JSON_parse (sq " { 'k' : [1.50e3, true, null, 'x\n\u0041'], 'k2': -0.0 } ")
  = Some (JObj [(u "k", JArr [JNum {| negative := false; digits := 15;
                                      exponent := 2 |};
                              JBool true; JNull; JStr [120; 10; 65]%N]);
                (u "k2", JNum {| negative := true; digits := 0;
                                 exponent := 0 |})]).
Proof. vm_compute; reflexivity. Qed.

Example parse_duplicate_key :
  JSON_parse (sq "{'a':1,'b':2,'a':3}")
  = Some (JObj [(u "a", number_of 3); (u "b", number_of 2)]).
Proof. vm_compute; reflexivity. Qed.

Example parse_rejects :
  map JSON_parse
    [u "NOT-JSON"; sq "[01]"; sq "{'a':1,}"; u "1 2"; sq "'a"; u "-"; u "1.";
     u ".5"; sq "{a:1}"; u ""; sq "['\x']"; u "[1,]"; u "nul"]
  = repeat None 13.
Proof. vm_compute; reflexivity. Qed.

Example stringify_values :
  JSON_stringify
    (JObj [(u "command", JStr (u "update_variable"));
           (u "skipped", JUndefined);
           (u "value",
            JArr [JNum {| negative := true; digits := 15; exponent := 2 |};
                  JNum {| negative := false; digits := 12345; exponent := -3 |};
                  JNum {| negative := false; digits := 25; exponent := -9 |};
                  JNum {| negative := false; digits := 1; exponent := 21 |};
                  JUndefined; JBool false;
                  JStr [97; 10; 34; 1; 55357; 56832; 55357]%N])])
  = Some (sq "{'command':'update_variable','value':[-1500,12.345,2.5e-8,1e+21,null,false,'a\n\'\u0001"
          ++ [55357; 56832]%N ++ sq "\ud83d']}").
Proof. vm_compute; reflexivity. Qed.

Example posix_join_relative : posix_join [u "/ws"; u "./lib"] = u "/ws/lib".
Proof. reflexivity. Qed.

Example posix_join_dotdot :
  posix_join [u "/ws/a/"; u "../../../lib//x/"] = u "/lib/x/".
Proof. reflexivity. Qed.

Example posix_join_above : posix_join [u "a"; u "../../b"] = u "../b".
Proof. reflexivity. Qed.

Example posix_join_empty : posix_join [u ""; u ""] = u ".".
Proof. reflexivity. Qed.

(** The resolver example of the specification. *)
Example search_path_of_the_specification :
  search_path_spec posix [u "./lib"; u "/abs/x"] (Some (u "/ws"))
    (u "/ext/python") (Some (u "/old"))
  = u "/ws/lib:/abs/x:/ext/python:/old".
Proof. reflexivity. Qed.

Example getDetails_wire_lines :
  let s := with_process example_manager (Some (example_child 1%N)) in
  writes (trace_of (getDetails (JStr (u "df")) (JStr (u "a.b")) Written s))
  = [sq "{'command':'get_details','name':'df','path':'a.b'}" ++ [NL]]
  /\ writes (trace_of (getDetails (JStr (u "df")) JUndefined Written s))
     = [sq "{'command':'get_details','name':'df'}" ++ [NL]]
  /\ writes (trace_of (getDetails (JStr (u "df")) JNull Written s))
     = [sq "{'command':'get_details','name':'df'}" ++ [NL]]
  /\ writes (trace_of (getDetails (JStr (u "df")) (JStr []) Written s))
     = [sq "{'command':'get_details','name':'df'}" ++ [NL]].
Proof. cbv zeta; repeat split; vm_compute; reflexivity. Qed.

(* ================================================================== *)
(** ** Strings: [indexOf], [substring], lines *)
(* ================================================================== *)

Lemma indexOf_from_cases (c : code_unit) (s : jsstring) (i : Z) :
  (0 <= i)%Z ->
  (indexOf_from c s i = (-1)%Z /\ ~ In c s)
  \/ (exists pre post, s = pre ++ c :: post /\ ~ In c pre
        /\ indexOf_from c s i = (i + Z.of_nat (List.length pre))%Z).
Proof.
  revert i; induction s as [|x r IH]; intros i Hi; simpl.
  - left; split; [reflexivity | tauto].
  - destruct (N.eqb_spec x c) as [->|Hne].
    + right; exists [], r; simpl; repeat split; [tauto | lia].
    + destruct (IH (i + 1)%Z ltac:(lia)) as [[E Hn] | (pre & post & E & Hn & Ei)].
      * left; split; [exact E | intros [H|H]; [congruence | tauto]].
      * right; exists (x :: pre), post; subst r; simpl; repeat split.
        -- intros [H|H]; [congruence | tauto].
        -- rewrite Ei; lia.
Qed.

Lemma indexOf_cases (c : code_unit) (s : jsstring) :
  (indexOf c s = (-1)%Z /\ ~ In c s)
  \/ (exists pre post, s = pre ++ c :: post /\ ~ In c pre
        /\ indexOf c s = Z.of_nat (List.length pre)).
Proof.
  unfold indexOf.
  destruct (indexOf_from_cases c s 0%Z ltac:(lia)) as [H | (pre & post & E & Hn & Ei)].
  - left; exact H.
  - right; exists pre, post; repeat split; auto.
Qed.

Lemma indexOf_absent (c : code_unit) (s : jsstring) :
  ~ In c s -> indexOf c s = (-1)%Z.
Proof.
  intros Hn; destruct (indexOf_cases c s) as [[E _] | (pre & post & E & _ & _)].
  - exact E.
  - exfalso; apply Hn; subst s; apply in_or_app; right; left; reflexivity.
Qed.

Lemma substring_prefix (pre post : jsstring) (c : code_unit) :
  substring (pre ++ c :: post) 0 (Z.of_nat (List.length pre)) = pre.
Proof.
  unfold substring, clamp, jslength.
  rewrite length_app; simpl List.length.
  replace (Z.to_nat (Z.min (Z.max 0 0) (Z.of_nat (List.length pre + S (List.length post)))))
    with 0%nat by lia.
  replace (Z.to_nat (Z.min (Z.max (Z.of_nat (List.length pre)) 0)
                       (Z.of_nat (List.length pre + S (List.length post)))))
    with (List.length pre) by lia.
  rewrite Nat.max_0_l, Nat.min_0_l, Nat.sub_0_r; simpl skipn.
  rewrite firstn_app, Nat.sub_diag, firstn_all; simpl; apply app_nil_r.
Qed.

Lemma substring_from_suffix (pre post : jsstring) (c : code_unit) :
  substring_from (pre ++ c :: post) (Z.of_nat (List.length pre) + 1) = post.
Proof.
  unfold substring_from, substring, clamp, jslength.
  rewrite length_app; simpl List.length.
  set (n := List.length pre); set (m := List.length post).
  replace (Z.to_nat (Z.min (Z.max (Z.of_nat n + 1) 0) (Z.of_nat (n + S m))))
    with (S n) by lia.
  replace (Z.to_nat (Z.min (Z.max (Z.of_nat (n + S m)) 0) (Z.of_nat (n + S m))))
    with (n + S m)%nat by lia.
  replace (Nat.min (S n) (n + S m)) with (S n) by lia.
  replace (Nat.max (S n) (n + S m) - S n)%nat with m by lia.
  replace (S n) with (List.length (pre ++ [c])) by (rewrite length_app; simpl; lia).
  replace (pre ++ c :: post) with ((pre ++ [c]) ++ post)
    by (rewrite <- app_assoc; reflexivity).
  rewrite skipn_app, skipn_all, Nat.sub_diag; simpl.
  apply firstn_all.
Qed.

Lemma split_lines_no_nl (s : jsstring) :
  ~ In NL s -> split_lines s = ([], s).
Proof.
  induction s as [|x r IH]; intros Hn; simpl; [reflexivity|].
  rewrite IH by (intros H; apply Hn; right; exact H).
  destruct (N.eqb_spec x NL) as [->|_]; [exfalso; apply Hn; left|]; reflexivity.
Qed.

Lemma split_lines_at_nl (pre post : jsstring) :
  ~ In NL pre ->
  split_lines (pre ++ NL :: post) = (pre :: complete_lines post, fragment post).
Proof.
  unfold complete_lines, fragment.
  induction pre as [|x r IH]; intros Hn; simpl.
  - destruct (split_lines post); reflexivity.
  - rewrite IH by (intros H; apply Hn; right; exact H).
    destruct (N.eqb_spec x NL) as [->|_]; [exfalso; apply Hn; left|]; reflexivity.
Qed.

Lemma split_lines_app (a b : jsstring) :
  split_lines (a ++ b)
  = (complete_lines a ++ complete_lines (fragment a ++ b),
     fragment (fragment a ++ b)).
Proof.
  unfold complete_lines, fragment.
  induction a as [|x r IH]; cbn [app split_lines].
  - cbn [fst snd app]; destruct (split_lines b); reflexivity.
  - rewrite IH; clear IH.
    destruct (split_lines r) as [ls frag]; cbn [fst snd].
    destruct (N.eqb x NL) eqn:E; [reflexivity|].
    destruct ls as [|l ls']; cbn [app fst snd split_lines].
    + rewrite E.
      destruct (split_lines (frag ++ b)) as [ls2 f2]; cbn [fst snd].
      destruct ls2; reflexivity.
    + reflexivity.
Qed.

(** A text is its terminated lines followed by its fragment, and neither a
    line nor the fragment contains a line feed. *)
Lemma split_lines_sound (text : jsstring) :
  text = unlines (complete_lines text) ++ fragment text
  /\ ~ In NL (fragment text)
  /\ Forall (fun l => ~ In NL l) (complete_lines text).
Proof.
  unfold complete_lines, fragment, unlines.
  induction text as [|x r (E & Hf & Hl)]; cbn [split_lines].
  - split; [reflexivity | split; [simpl; tauto | constructor]].
  - destruct (split_lines r) as [ls frag]; cbn [fst snd] in *.
    destruct (N.eqb_spec x NL) as [->|Hne]; cbn [fst snd map List.concat app].
    + split; [congruence | split; [exact Hf |]].
      constructor; [simpl; tauto | exact Hl].
    + destruct ls as [|l ls']; cbn [fst snd map List.concat app] in *.
      * split; [congruence | split; [|constructor]].
        intros [H|H]; [congruence | tauto].
      * inversion Hl as [|? ? H1 H2]; subst.
        split; [rewrite <- !app_assoc; reflexivity | split; [exact Hf |]].
        constructor; [intros [H|H]; [congruence | tauto] | assumption].
Qed.

(** Lines without line feeds, written out and followed by a fragment without
    one, are cut back into exactly those lines and that fragment. *)
Lemma split_lines_unlines (ls : list jsstring) (frag : jsstring) :
  Forall (fun l => ~ In NL l) ls -> ~ In NL frag ->
  split_lines (unlines ls ++ frag) = (ls, frag).
Proof.
  unfold unlines.
  induction 1 as [|l ls Hl _ IH]; intros Hf; simpl.
  - apply split_lines_no_nl; exact Hf.
  - rewrite <- !app_assoc; simpl.
    rewrite split_lines_at_nl by exact Hl.
    unfold complete_lines, fragment; rewrite IH by exact Hf; reflexivity.
Qed.

Lemma yielded_app (a b : list jsstring) :
  yielded (a ++ b) = yielded a ++ yielded b.
Proof. unfold yielded; rewrite map_app, filter_app; reflexivity. Qed.

Lemma length_positive (line : jsstring) :
  Z.ltb 0 (jslength line) = truthy_str line.
Proof. destruct line; reflexivity. Qed.

(* ================================================================== *)
(** ** The framer *)
(* ================================================================== *)

(** With a budget above the buffer's length the loop runs to its exit: it
    passes on the terminated lines, trimmed and without the empty ones, and
    leaves the unterminated rest. *)
Lemma frame_split (fuel : nat) (buf : jsstring) :
  List.length buf < fuel ->
  frame fuel buf = (yielded (complete_lines buf), fragment buf).
Proof.
  revert buf; induction fuel as [|fuel IH]; intros buf Hlen; [lia|].
  simpl.
  destruct (indexOf_cases NL buf) as [[E Hn] | (pre & post & Eb & Hn & Ei)].
  - rewrite E; simpl.
    unfold complete_lines, fragment; rewrite split_lines_no_nl by exact Hn.
    reflexivity.
  - rewrite Ei.
    destruct (Z.eqb_spec (Z.of_nat (List.length pre)) (-1)) as [Hneg|_]; [lia|].
    subst buf.
    rewrite substring_prefix, substring_from_suffix.
    rewrite IH by (rewrite length_app in Hlen; simpl in Hlen; lia).
    unfold complete_lines at 2, fragment at 2.
    rewrite split_lines_at_nl by exact Hn; simpl.
    unfold yielded; simpl.
    rewrite length_positive.
    destruct (truthy_str (trim pre)); reflexivity.
Qed.

Lemma feed_split (buf : jsstring) (data : list byte) :
  feed buf data
  = (yielded (complete_lines (buf ++ Utf8.toString data)),
     fragment (buf ++ Utf8.toString data)).
Proof. unfold feed; apply frame_split; lia. Qed.

(* ================================================================== *)
(** ** [JSON.parse]: the recursion budget suffices *)
(* ================================================================== *)

Lemma skip_ws_length (s : jsstring) : List.length (skip_ws s) <= List.length s.
Proof.
  induction s as [|c r IH]; simpl; [lia|].
  destruct (is_json_ws c); simpl; lia.
Qed.

Lemma next_is_shorter (c : code_unit) (s r : jsstring) :
  next_is c s = Some r -> List.length r < List.length s.
Proof.
  unfold next_is; intros H; pose proof (skip_ws_length s) as Hl.
  destruct (skip_ws s) as [|x t]; [discriminate|].
  destruct (N.eqb x c); [|discriminate].
  injection H as <-; simpl in Hl; lia.
Qed.

Lemma strip_prefix_length (prefix s r : jsstring) :
  strip_prefix prefix s = Some r ->
  List.length r + List.length prefix = List.length s.
Proof.
  revert s; induction prefix as [|p ps IH]; intros s H; simpl in *.
  - injection H as <-; lia.
  - destruct s as [|c t]; [discriminate|].
    destruct (N.eqb p c); [|discriminate].
    apply IH in H; simpl; lia.
Qed.

Lemma span_length (p : code_unit -> bool) (s : jsstring) :
  List.length (fst (span p s)) + List.length (snd (span p s)) = List.length s.
Proof.
  induction s as [|c r IH]; simpl; [reflexivity|].
  destruct (p c); [|reflexivity].
  destruct (span p r); simpl in *; lia.
Qed.

Lemma digits1_shorter (s ds r : jsstring) :
  digits1 s = Some (ds, r) -> List.length r < List.length s.
Proof.
  unfold digits1; intros H; pose proof (span_length is_digit s) as Hl.
  destruct (span is_digit s) as [[|d ds'] r']; [discriminate|].
  injection H as <- <-; simpl in Hl; lia.
Qed.

Lemma map_ok_inv {A B} (f : A -> B) (x : presult A) (b : B) (r : jsstring) :
  map_ok f x = POk b r -> exists a, x = POk a r /\ b = f a.
Proof.
  destruct x as [a rest| |]; simpl; intros H; try discriminate.
  injection H as <- <-; exists a; split; reflexivity.
Qed.

Lemma map_ok_fuel {A B} (f : A -> B) (x : presult A) :
  map_ok f x = PFuel -> x = PFuel.
Proof. destruct x; simpl; intros H; [discriminate | discriminate | reflexivity]. Qed.

Lemma parse_chars_shorter (s t r : jsstring) :
  parse_chars s = POk t r -> List.length r < List.length s.
Proof.
  remember (List.length s) as n eqn:En.
  assert (Hle : List.length s <= n) by lia; clear En.
  revert s t r Hle; induction n as [|n IH]; intros s t r Hle H.
  - destruct s; [discriminate | simpl in Hle; lia].
  - destruct s as [|c s']; [discriminate|].
    cbn [parse_chars] in H; simpl in Hle.
    destruct (N.eqb c 34); [injection H as _ <-; simpl; lia|].
    destruct (N.eqb c 92).
    + destruct s' as [|e r1]; [discriminate|].
      destruct (N.eqb e 117).
      * destruct r1 as [|a [|b [|c' [|d r4]]]]; try discriminate.
        destruct (hex4 a b c' d); [|discriminate].
        apply map_ok_inv in H as (t' & H & _).
        apply IH in H; simpl in *; lia.
      * destruct (simple_escape e); [|discriminate].
        apply map_ok_inv in H as (t' & H & _).
        apply IH in H; simpl in *; lia.
    + destruct (N.ltb c 32); [discriminate|].
      apply map_ok_inv in H as (t' & H & _).
      apply IH in H; simpl in *; lia.
Qed.

Lemma parse_chars_no_fuel (s : jsstring) : parse_chars s <> PFuel.
Proof.
  remember (List.length s) as n eqn:En.
  assert (Hle : List.length s <= n) by lia; clear En.
  revert s Hle; induction n as [|n IH]; intros s Hle H.
  - destruct s; [discriminate | simpl in Hle; lia].
  - destruct s as [|c s']; [discriminate|].
    cbn [parse_chars] in H; simpl in Hle.
    destruct (N.eqb c 34); [discriminate|].
    destruct (N.eqb c 92).
    + destruct s' as [|e r1]; [discriminate|].
      destruct (N.eqb e 117).
      * destruct r1 as [|a [|b [|c' [|d r4]]]]; try discriminate.
        destruct (hex4 a b c' d); [|discriminate].
        apply map_ok_fuel in H; apply IH in H; [exact H | simpl in *; lia].
      * destruct (simple_escape e); [|discriminate].
        apply map_ok_fuel in H; apply IH in H; [exact H | simpl in *; lia].
    + destruct (N.ltb c 32); [discriminate|].
      apply map_ok_fuel in H; apply IH in H; [exact H | lia].
Qed.

Lemma read_sign_length (s : jsstring) :
  List.length (snd (read_sign s)) <= List.length s.
Proof.
  unfold read_sign; destruct s as [|c r]; [simpl; lia|].
  destruct (N.eqb c 45); simpl; lia.
Qed.

Lemma read_exp_sign_length (s : jsstring) :
  List.length (snd (read_exp_sign s)) <= List.length s.
Proof.
  unfold read_exp_sign; destruct s as [|c r]; [simpl; lia|].
  destruct (N.eqb c 45); [simpl; lia|].
  destruct (N.eqb c 43); simpl; lia.
Qed.

Lemma read_int_shorter (s ip r : jsstring) :
  read_int s = Some (ip, r) -> List.length r < List.length s.
Proof.
  unfold read_int; destruct s as [|c t]; [discriminate|].
  destruct (N.eqb c 48).
  - intros H; injection H as _ <-; simpl; lia.
  - apply digits1_shorter.
Qed.

Lemma read_frac_length (s fp r : jsstring) :
  read_frac s = Some (fp, r) -> List.length r <= List.length s.
Proof.
  unfold read_frac; destruct s as [|c t].
  - intros H; injection H as _ <-; simpl; lia.
  - destruct (N.eqb c 46).
    + intros H; apply digits1_shorter in H; simpl; lia.
    + intros H; injection H as _ <-; simpl; lia.
Qed.

Lemma read_exp_length (s : jsstring) (e : Z) (r : jsstring) :
  read_exp s = Some (e, r) -> List.length r <= List.length s.
Proof.
  unfold read_exp; destruct s as [|c t].
  - intros H; injection H as _ <-; simpl; lia.
  - destruct (N.eqb c 101 || N.eqb c 69).
    + pose proof (read_exp_sign_length t) as Hs.
      destruct (digits1 (snd (read_exp_sign t))) as [[ep r2]|] eqn:Ed;
        [|discriminate].
      apply digits1_shorter in Ed.
      intros H; injection H as _ <-; simpl; lia.
    + intros H; injection H as _ <-; simpl; lia.
Qed.

Lemma parse_number_shorter (s : jsstring) (n : number) (r : jsstring) :
  parse_number s = POk n r -> List.length r < List.length s.
Proof.
  unfold parse_number; pose proof (read_sign_length s) as Hs.
  destruct (read_int (snd (read_sign s))) as [[ip s2]|] eqn:Ei; [|discriminate].
  destruct (read_frac s2) as [[fp s3]|] eqn:Ef; [|discriminate].
  destruct (read_exp s3) as [[e s4]|] eqn:Ee; [|discriminate].
  apply read_int_shorter in Ei; apply read_frac_length in Ef;
    apply read_exp_length in Ee.
  intros H; injection H as _ <-; lia.
Qed.

Lemma parse_number_no_fuel (s : jsstring) : parse_number s <> PFuel.
Proof.
  unfold parse_number.
  destruct (read_int _) as [[ip s2]|]; [|discriminate].
  destruct (read_frac s2) as [[fp s3]|]; [|discriminate].
  destruct (read_exp s3) as [[e s4]|]; discriminate.
Qed.

Lemma parse_scalar_shorter (s : jsstring) (v : jsval) (r : jsstring) :
  parse_scalar s = POk v r -> List.length r < List.length s.
Proof.
  unfold parse_scalar; destruct s as [|c t]; [discriminate|].
  destruct (N.eqb c 34).
  { intros H; apply map_ok_inv in H as (k & H & _).
    apply parse_chars_shorter in H; simpl; lia. }
  destruct (strip_prefix (u "true") (c :: t)) as [r1|] eqn:E1.
  { intros H; injection H as _ <-.
    apply strip_prefix_length in E1; simpl in *; lia. }
  destruct (strip_prefix (u "false") (c :: t)) as [r2|] eqn:E2.
  { intros H; injection H as _ <-.
    apply strip_prefix_length in E2; simpl in *; lia. }
  destruct (strip_prefix (u "null") (c :: t)) as [r3|] eqn:E3.
  { intros H; injection H as _ <-.
    apply strip_prefix_length in E3; simpl in *; lia. }
  intros H; apply map_ok_inv in H as (n & H & _).
  apply parse_number_shorter in H; exact H.
Qed.

Lemma parse_scalar_no_fuel (s : jsstring) : parse_scalar s <> PFuel.
Proof.
  unfold parse_scalar; destruct s as [|c t]; [discriminate|].
  destruct (N.eqb c 34).
  { intros H; apply map_ok_fuel in H; exact (parse_chars_no_fuel _ H). }
  destruct (strip_prefix (u "true") (c :: t)); [discriminate|].
  destruct (strip_prefix (u "false") (c :: t)); [discriminate|].
  destruct (strip_prefix (u "null") (c :: t)); [discriminate|].
  intros H; apply map_ok_fuel in H; exact (parse_number_no_fuel _ H).
Qed.

(** Every production consumes at least one character. *)
Lemma parse_shorter (fuel : nat) :
  (forall s v r, parse_value fuel s = POk v r -> List.length r < List.length s)
  /\ (forall acc s v r,
        parse_elements fuel acc s = POk v r -> List.length r < List.length s)
  /\ (forall acc s v r,
        parse_members fuel acc s = POk v r -> List.length r < List.length s).
Proof.
  induction fuel as [|f (IHv & IHe & IHm)];
    [repeat split; intros; discriminate|].
  split; [|split].
  - intros s v r; cbn [parse_value].
    destruct (next_is 123%N s) as [r1|] eqn:E1.
    { apply next_is_shorter in E1.
      destruct (next_is 125%N r1) as [r2|] eqn:E2.
      - apply next_is_shorter in E2; intros H; injection H as _ <-; lia.
      - intros H; apply IHm in H; lia. }
    destruct (next_is 91%N s) as [r1|] eqn:E2.
    { apply next_is_shorter in E2.
      destruct (next_is 93%N r1) as [r2|] eqn:E3.
      - apply next_is_shorter in E3; intros H; injection H as _ <-; lia.
      - intros H; apply IHe in H; lia. }
    intros H; apply parse_scalar_shorter in H.
    pose proof (skip_ws_length s); lia.
  - intros acc s v r; cbn [parse_elements].
    destruct (parse_value f s) as [v1 r1| |] eqn:Ev; try discriminate.
    apply IHv in Ev.
    destruct (next_is 44%N r1) as [r2|] eqn:E1.
    { apply next_is_shorter in E1; intros H; apply IHe in H; lia. }
    destruct (next_is 93%N r1) as [r2|] eqn:E2; [|discriminate].
    apply next_is_shorter in E2; intros H; injection H as _ <-; lia.
  - intros acc s v r; cbn [parse_members].
    destruct (next_is 34%N s) as [r0|] eqn:E0; [|discriminate].
    apply next_is_shorter in E0.
    destruct (parse_chars r0) as [k r1| |] eqn:Ek; try discriminate.
    apply parse_chars_shorter in Ek.
    destruct (next_is 58%N r1) as [r2|] eqn:E1; [|discriminate].
    apply next_is_shorter in E1.
    destruct (parse_value f r2) as [v1 r3| |] eqn:Ev; try discriminate.
    apply IHv in Ev.
    destruct (next_is 44%N r3) as [r4|] eqn:E2.
    { apply next_is_shorter in E2; intros H; apply IHm in H; lia. }
    destruct (next_is 125%N r3) as [r4|] eqn:E3; [|discriminate].
    apply next_is_shorter in E3; intros H; injection H as _ <-; lia.
Qed.

(** With a budget of twice the text's length and one more (two more inside
    an array or an object) the parser never stops for lack of budget. *)
Lemma parse_budget (fuel : nat) :
  (forall s, 2 * List.length s + 1 <= fuel -> parse_value fuel s <> PFuel)
  /\ (forall acc s, 2 * List.length s + 2 <= fuel ->
        parse_elements fuel acc s <> PFuel)
  /\ (forall acc s, 2 * List.length s + 2 <= fuel ->
        parse_members fuel acc s <> PFuel).
Proof.
  induction fuel as [|f (IHv & IHe & IHm)]; [repeat split; intros; lia|].
  destruct (parse_shorter f) as (Sv & Se & Sm).
  split; [|split].
  - intros s Hf; cbn [parse_value].
    destruct (next_is 123%N s) as [r1|] eqn:E1.
    { apply next_is_shorter in E1.
      destruct (next_is 125%N r1); [discriminate | apply IHm; lia]. }
    destruct (next_is 91%N s) as [r1|] eqn:E2.
    { apply next_is_shorter in E2.
      destruct (next_is 93%N r1); [discriminate | apply IHe; lia]. }
    apply parse_scalar_no_fuel.
  - intros acc s Hf; cbn [parse_elements].
    destruct (parse_value f s) as [v1 r1| |] eqn:Ev; [|discriminate|].
    + apply Sv in Ev.
      destruct (next_is 44%N r1) as [r2|] eqn:E1.
      { apply next_is_shorter in E1; apply IHe; lia. }
      destruct (next_is 93%N r1); discriminate.
    + exfalso; revert Ev; apply IHv; lia.
  - intros acc s Hf; cbn [parse_members].
    destruct (next_is 34%N s) as [r0|] eqn:E0; [|discriminate].
    apply next_is_shorter in E0.
    destruct (parse_chars r0) as [k r1| |] eqn:Ek; [|discriminate|].
    + apply parse_chars_shorter in Ek.
      destruct (next_is 58%N r1) as [r2|] eqn:E1; [|discriminate].
      apply next_is_shorter in E1.
      destruct (parse_value f r2) as [v1 r3| |] eqn:Ev; [|discriminate|].
      * apply Sv in Ev.
        destruct (next_is 44%N r3) as [r4|] eqn:E2.
        { apply next_is_shorter in E2; apply IHm; lia. }
        destruct (next_is 125%N r3); discriminate.
      * exfalso; revert Ev; apply IHv; lia.
    + exfalso; exact (parse_chars_no_fuel _ Ek).
Qed.

(** [JSON_parse] gives its parser budget enough: [None] is always a syntax
    error of the text. *)
Lemma parse_value_budget (text : jsstring) :
  parse_value (2 * List.length text + 2) text <> PFuel.
Proof. apply (parse_budget (2 * List.length text + 2)); lia. Qed.

(* ================================================================== *)
(** ** The stdout handler *)
(* ================================================================== *)

Lemma with_outputBuffer_twice (s : PythonManager) (a b : jsstring) :
  with_outputBuffer (with_outputBuffer s a) b = with_outputBuffer s b.
Proof. reflexivity. Qed.

Lemma with_outputBuffer_same (s : PythonManager) :
  with_outputBuffer s (outputBuffer s) = s.
Proof. destruct s; reflexivity. Qed.

(** Delivering a line changes no field and never throws: a parse error, or
    a throw of the callback, ends in the [catch]. *)
Lemma deliver_run (line : jsstring) (s : PythonManager) :
  deliver line s = (Normal tt, s, deliver_events (messageCallback s) line).
Proof.
  unfold deliver, deliver_events, try_catch, bind, do_parse, get_messageCallback,
    do_call, emit, ret, throw.
  destruct (JSON_parse line) as [v|]; [|reflexivity].
  destruct (messageCallback s) as [f|]; [|reflexivity].
  simpl. destruct (cb_throws f v); reflexivity.
Qed.

Lemma stdout_loop_run (fuel : nat) (s : PythonManager) :
  stdout_loop fuel s
  = (Normal tt,
     with_outputBuffer s (snd (frame fuel (outputBuffer s))),
     flat_map (deliver_events (messageCallback s))
       (fst (frame fuel (outputBuffer s)))).
Proof.
  revert s; induction fuel as [|fuel IH]; intros s.
  - simpl; unfold ret; rewrite with_outputBuffer_same; reflexivity.
  - cbn [stdout_loop frame].
    unfold bind at 1, get_outputBuffer at 1.
    destruct (Z.eqb (indexOf NL (outputBuffer s)) (-1)) eqn:E.
    + unfold ret; simpl; rewrite with_outputBuffer_same; reflexivity.
    + unfold bind at 1, set_outputBuffer at 1.
      unfold bind at 1.
      rewrite length_positive.
      set (line := trim (substring (outputBuffer s) 0 (indexOf NL (outputBuffer s)))).
      set (rest := substring_from (outputBuffer s) (indexOf NL (outputBuffer s) + 1)).
      assert (Hd : (if truthy_str line then deliver line else ret tt)
                     (with_outputBuffer s rest)
                   = (Normal tt, with_outputBuffer s rest,
                      if truthy_str line
                      then deliver_events (messageCallback s) line else [])).
      { destruct (truthy_str line); [rewrite deliver_run|]; reflexivity. }
      rewrite Hd, IH; cbn [outputBuffer with_outputBuffer messageCallback].
      destruct (frame fuel rest) as [ls b]; cbn [fst snd].
      rewrite with_outputBuffer_twice, flat_map_app.
      destruct (truthy_str line); simpl; rewrite ?app_nil_r; reflexivity.
Qed.

(** One ['data'] event: the handler never throws, touches no field but the
    buffer, leaves there the unterminated rest of the text, and delivers the
    terminated lines in order. *)
Lemma on_stdout_data_run (data : list byte) (s : PythonManager) :
  let text := outputBuffer s ++ Utf8.toString data in
  on_stdout_data data s
  = (Normal tt,
     with_outputBuffer s (fragment text),
     flat_map (deliver_events (messageCallback s)) (yielded (complete_lines text))).
Proof.
  intros text; unfold on_stdout_data, bind, get_outputBuffer, set_outputBuffer.
  cbn [outputBuffer with_outputBuffer].
  rewrite stdout_loop_run; cbn [outputBuffer with_outputBuffer messageCallback].
  fold text; rewrite frame_split by lia; cbn [fst snd].
  rewrite with_outputBuffer_twice; reflexivity.
Qed.

(** Any number of ['data'] events, from a buffer that holds no line feed (as
    every buffer the handler leaves does): what is delivered and what stays
    buffered depends on the text received, not on how it was cut into
    chunks after decoding. *)
Lemma feed_chunks_run (chunks : list (list byte)) (s : PythonManager) :
  ~ In NL (outputBuffer s) ->
  let text := outputBuffer s ++ List.concat (map Utf8.toString chunks) in
  feed_chunks chunks s
  = (Normal tt,
     with_outputBuffer s (fragment text),
     flat_map (deliver_events (messageCallback s)) (yielded (complete_lines text))).
Proof.
  revert s; induction chunks as [|c rest IH]; intros s Hn; cbn zeta.
  - simpl; unfold ret; rewrite app_nil_r.
    unfold fragment, complete_lines; rewrite split_lines_no_nl by exact Hn.
    simpl; rewrite with_outputBuffer_same; reflexivity.
  - cbn [feed_chunks map List.concat]; unfold bind.
    rewrite on_stdout_data_run, IH; cbn [outputBuffer with_outputBuffer messageCallback].
    + rewrite with_outputBuffer_twice.
      rewrite (app_assoc (outputBuffer s)).
      set (a := outputBuffer s ++ Utf8.toString c).
      set (b := List.concat (map Utf8.toString rest)).
      assert (Ef : fragment (a ++ b) = fragment (fragment a ++ b))
        by (unfold fragment at 1; rewrite split_lines_app; reflexivity).
      assert (Ec : complete_lines (a ++ b)
                   = complete_lines a ++ complete_lines (fragment a ++ b))
        by (unfold complete_lines at 1; rewrite split_lines_app; reflexivity).
      rewrite Ef, Ec, yielded_app, flat_map_app; reflexivity.
    + apply split_lines_sound.
Qed.

(* ================================================================== *)
(** ** What each method and handler does *)
(* ================================================================== *)

Ltac run_method :=
  unfold start, start_scanning, spawn_and_attach, sendCommand, dispose,
    on_close, on_error, on_stderr_data, isRunning, do_spawn, do_write,
    try_catch, bind, emit, emit_all, ret, throw, get_process, get_context,
    get_messageCallback, get_outputBuffer, set_process, set_messageCallback,
    set_outputBuffer, with_process, with_messageCallback, with_outputBuffer;
  cbn [process context messageCallback outputBuffer app].

Lemma dispose_run (s : PythonManager) :
  dispose s
  = match process s with
    | Some c => (Normal tt, with_process s None, [kill (child_pid c)])
    | None => (Normal tt, s, [])
    end.
Proof. run_method; destruct (process s); reflexivity. Qed.

Lemma on_close_run (code : option Z) (s : PythonManager) :
  on_close code s
  = (Normal tt,
     with_outputBuffer (with_process s None) [],
     console_log (MsgExited code) :: close_warning code).
Proof.
  run_method; unfold close_warning.
  destruct code as [c|]; [destruct (Z.eqb c 0)|]; reflexivity.
Qed.

Lemma on_error_run (err : exn) (s : PythonManager) :
  on_error err s
  = (Normal tt, with_process s None,
     [console_error (MsgProcessErrorLog err);
      showErrorMessage (MsgProcessError err)]).
Proof. run_method; reflexivity. Qed.

Lemma on_stderr_data_run (data : list byte) (s : PythonManager) :
  exists shown,
    on_stderr_data data s
    = (Normal tt, s,
       console_error (MsgPythonErrorLog (Utf8.toString data)) :: shown)
    /\ calls shown = [] /\ writes shown = [] /\ spawns shown = [].
Proof.
  run_method.
  match goal with |- context [if ?b then _ else _] => destruct b end;
    eexists; repeat split.
Qed.

Lemma start_running (h : host) (cb : option callback) (r : spawn_result)
  (s : PythonManager) (c : child) :
  process s = Some c ->
  start h cb r s
  = (Normal tt, with_messageCallback s cb, [console_log MsgAlreadyRunning]).
Proof. intros E; run_method; rewrite E; reflexivity. Qed.

Lemma start_idle_spawned (h : host) (cb : option callback) (c : child)
  (s : PythonManager) :
  process s = None ->
  start h cb (Spawned c) s
  = (Normal tt,
     {| context := context s; process := Some c; messageCallback := cb;
        outputBuffer := [] |},
     starting_event h (context s)
     :: start_spawn_event h (context s) (Spawned c) :: attach_events c).
Proof. intros E; run_method; rewrite E; reflexivity. Qed.

Lemma start_idle_threw (h : host) (cb : option callback) (e : exn)
  (s : PythonManager) :
  process s = None ->
  start h cb (SpawnThrew e) s
  = (Normal tt,
     {| context := context s; process := None; messageCallback := cb;
        outputBuffer := [] |},
     [starting_event h (context s);
      start_spawn_event h (context s) (SpawnThrew e);
      console_error (MsgSpawnFailedLog e);
      showErrorMessage (MsgSpawnFailed (pythonPath_of h))]).
Proof. intros E; run_method; rewrite E; reflexivity. Qed.

Lemma sendCommand_run (command : list (jsstring * jsval)) (w : write_result)
  (s : PythonManager) :
  sendCommand command w s
  = match process s with
    | Some c =>
        if has_stdin c then
          match w with
          | Written =>
              (Normal true, s,
               [stdin_write (child_pid c) (wire_line command) Written])
          | WriteThrew e =>
              (Normal false, s,
               [stdin_write (child_pid c) (wire_line command) (WriteThrew e);
                console_error (MsgSendErrorLog e);
                showErrorMessage MsgSendError])
          end
        else
          (Normal false, s,
           [console_error (MsgNotRunning (obj_get (u "command") command))])
    | None =>
        (Normal false, s,
         [console_error (MsgNotRunning (obj_get (u "command") command))])
    end.
Proof.
  run_method; unfold wire_line.
  destruct (process s) as [c|]; [|reflexivity].
  destruct (has_stdin c); [|reflexivity].
  destruct w; reflexivity.
Qed.

(* ================================================================== *)
(** ** [JSON.stringify] writes one line *)
(* ================================================================== *)

Lemma jsval_nested_ind (P : jsval -> Prop) :
  P JUndefined -> P JNull -> (forall b, P (JBool b)) ->
  (forall n, P (JNum n)) -> (forall s, P (JStr s)) ->
  (forall items, Forall P items -> P (JArr items)) ->
  (forall props, Forall (fun kv => P (snd kv)) props -> P (JObj props)) ->
  forall v, P v.
Proof.
  intros Hu Hn Hb Hnum Hs Ha Ho.
  fix IH 1.
  intros [ | | b | n | s | items | props];
    [exact Hu | exact Hn | apply Hb | apply Hnum | apply Hs | | ].
  - apply Ha.
    induction items as [|x r IHr]; constructor; [apply IH | exact IHr].
  - apply Ho.
    induction props as [|[k x] r IHr]; constructor; [apply IH | exact IHr].
Qed.

Lemma one_line_app (a b : jsstring) :
  one_line (a ++ b) = one_line a && one_line b.
Proof. apply forallb_app. Qed.

Lemma one_line_not_in (t : jsstring) : one_line t = true -> ~ In NL t.
Proof.
  unfold one_line; rewrite forallb_forall; intros H Hin.
  specialize (H NL Hin); rewrite N.eqb_refl in H; discriminate.
Qed.

Lemma one_line_join (sep : jsstring) (parts : list jsstring) :
  one_line sep = true -> forallb one_line parts = true ->
  one_line (JS.join sep parts) = true.
Proof.
  intros Hs; induction parts as [|p rest IH]; intros Hp; [reflexivity|].
  simpl in Hp; apply andb_prop in Hp as [Hp Hr].
  destruct rest as [|q rest']; [exact Hp|].
  change (JS.join sep (p :: q :: rest')) with (p ++ sep ++ JS.join sep (q :: rest')).
  rewrite !one_line_app, Hp, Hs, (IH Hr); reflexivity.
Qed.

Lemma hex_digit_not_nl (n : N) : N.eqb (hex_digit n) NL = false.
Proof.
  unfold hex_digit, NL; destruct (N.ltb n 10); apply N.eqb_neq; lia.
Qed.

Lemma one_line_unicode_escape (c : code_unit) :
  one_line (unicode_escape c) = true.
Proof.
  unfold unicode_escape, one_line; simpl.
  rewrite !hex_digit_not_nl; reflexivity.
Qed.

Lemma one_line_quote_chars (s : jsstring) : one_line (quote_chars s) = true.
Proof.
  remember (List.length s) as n eqn:En.
  assert (Hle : List.length s <= n) by lia; clear En.
  revert s Hle; induction n as [|n IH]; intros s Hle.
  - destruct s; [reflexivity | simpl in Hle; lia].
  - destruct s as [|c r]; [reflexivity|].
    simpl in Hle.
    assert (Hr : one_line (quote_chars r) = true) by (apply IH; lia).
    cbn [quote_chars].
    repeat match goal with
           | |- context [if N.eqb c ?k then _ else _] =>
               destruct (N.eqb_spec c k);
               [rewrite one_line_app, Hr; reflexivity|]
           end.
    destruct (N.ltb c 32);
      [rewrite one_line_app, one_line_unicode_escape, Hr; reflexivity|].
    assert (Hc : negb (N.eqb c NL) = true)
      by (apply negb_true_iff, N.eqb_neq; assumption).
    destruct (is_high_surrogate c).
    + destruct r as [|d r'].
      * apply one_line_unicode_escape.
      * destruct (is_low_surrogate d) eqn:Ed.
        -- cbn [one_line forallb]; rewrite Hc.
           assert (Hd : negb (N.eqb d NL) = true).
           { unfold is_low_surrogate in Ed; apply andb_prop in Ed as [Ed _].
             apply N.leb_le in Ed; apply negb_true_iff, N.eqb_neq.
             unfold NL; lia. }
           rewrite Hd; apply IH; simpl in Hle; lia.
        -- rewrite one_line_app, one_line_unicode_escape, Hr; reflexivity.
    + destruct (is_low_surrogate c).
      * rewrite one_line_app, one_line_unicode_escape, Hr; reflexivity.
      * cbn [one_line forallb]; rewrite Hc; exact Hr.
Qed.

Lemma one_line_quote (s : jsstring) : one_line (quote s) = true.
Proof.
  unfold quote.
  change (34%N :: quote_chars s ++ [34%N]) with ([34%N] ++ quote_chars s ++ [34%N]).
  rewrite !one_line_app, one_line_quote_chars; reflexivity.
Qed.

Lemma one_line_uint_chars (d : Decimal.uint) : one_line (uint_chars d) = true.
Proof. induction d; simpl; auto. Qed.

Lemma one_line_repeat_zero (n : nat) : one_line (repeat 48%N n) = true.
Proof. induction n; simpl; auto. Qed.

Lemma one_line_firstn_skipn (n : nat) (s : jsstring) :
  one_line s = true ->
  one_line (firstn n s) = true /\ one_line (skipn n s) = true.
Proof.
  intros H; rewrite <- (firstn_skipn n s), one_line_app in H.
  apply andb_prop in H; exact H.
Qed.

Lemma one_line_exponent_form (s es : jsstring) :
  one_line s = true -> one_line es = true ->
  one_line match s with
           | [] => []
           | [d] => d :: u "e" ++ es
           | d :: rest => d :: u "." ++ rest ++ u "e" ++ es
           end = true.
Proof.
  intros Hs He.
  destruct s as [|d [|d' rest]]; [reflexivity | |].
  - change (d :: u "e" ++ es) with ([d] ++ u "e" ++ es).
    rewrite !one_line_app, Hs, He; reflexivity.
  - change (d :: u "." ++ (d' :: rest) ++ u "e" ++ es)
      with ([d] ++ u "." ++ (d' :: rest) ++ u "e" ++ es).
    change (d :: d' :: rest) with ([d] ++ d' :: rest) in Hs.
    rewrite one_line_app in Hs; apply andb_prop in Hs as [Hd Hr].
    rewrite !one_line_app, Hd, Hr, He; reflexivity.
Qed.

Lemma one_line_number_toString (x : number) :
  one_line (number_toString x) = true.
Proof.
  unfold number_toString, N_chars.
  destruct (N.eqb (digits x) 0); [reflexivity|].
  set (s := uint_chars (N.to_uint (digits x))).
  assert (Hs : one_line s = true) by apply one_line_uint_chars.
  rewrite one_line_app.
  match goal with
  | |- one_line ?sign && _ = true =>
      replace (one_line sign) with true by (destruct (negative x); reflexivity)
  end.
  cbn [andb].
  destruct (_ && _).
  { rewrite one_line_app, Hs, one_line_repeat_zero; reflexivity. }
  destruct (_ && _).
  { destruct (one_line_firstn_skipn
                (Z.to_nat (Z.of_nat (List.length s) + exponent x)) s Hs) as [Hf Hk].
    rewrite !one_line_app, Hf, Hk; reflexivity. }
  destruct (_ && _).
  { rewrite !one_line_app, Hs, one_line_repeat_zero; reflexivity. }
  apply one_line_exponent_form; [exact Hs|].
  rewrite one_line_app, one_line_uint_chars.
  destruct (Z.ltb _ 0); reflexivity.
Qed.

Lemma JSON_stringify_one_line (v : jsval) (t : jsstring) :
  JSON_stringify v = Some t -> one_line t = true.
Proof.
  revert t; induction v as [ | | b | n | s | items IH | props IH]
    using jsval_nested_ind; intros t E; cbn [JSON_stringify] in E;
    [discriminate | ..];
    change (match Some t with Some x => one_line x | None => true end = true);
    rewrite <- E; cbv beta iota; clear E t.
  - reflexivity.
  - destruct b; reflexivity.
  - apply one_line_number_toString.
  - apply one_line_quote.
  - rewrite !one_line_app.
    rewrite one_line_join; [reflexivity | reflexivity |].
    induction IH as [|x r Hx _ IHr]; [reflexivity|].
    cbn [map forallb]; apply andb_true_intro; split; [|exact IHr].
    destruct (JSON_stringify x) as [tx|]; [apply Hx | ]; reflexivity.
  - rewrite !one_line_app.
    rewrite one_line_join; [reflexivity | reflexivity |].
    induction IH as [|[k x] r Hx _ IHr]; [reflexivity|].
    cbn [flat_map fst snd] in *.
    rewrite forallb_app; apply andb_true_intro; split; [|exact IHr].
    destruct (JSON_stringify x) as [tx|]; [|reflexivity].
    cbn [forallb]; rewrite !one_line_app, one_line_quote, (Hx tx eq_refl).
    reflexivity.
Qed.

(** The line written for a command ends in a line feed and contains no
    other. *)
Lemma wire_line_one_line (command : list (jsstring * jsval)) :
  exists json,
    JSON_stringify (JObj command) = Some json
    /\ wire_line command = json ++ [NL]
    /\ ~ In NL json.
Proof.
  unfold wire_line.
  destruct (JSON_stringify (JObj command)) as [json|] eqn:E; [|discriminate].
  exists json; repeat split.
  apply one_line_not_in, (JSON_stringify_one_line (JObj command)); exact E.
Qed.

(* ================================================================== *)
(** ** Sending commands (C5, C10) *)
(* ================================================================== *)

(** C5: [sendCommand(command)] never throws and changes no field.  With no
    process (or no input stream) it returns [false] and writes nothing, and
    shows nothing to the user.  With a process it writes the command's JSON
    text, which contains no line feed, followed by one line feed, and
    returns [true]; if the write throws, the exception is caught, the
    communication error is shown, and [false] is returned.  No process is
    running on a fresh manager, after [dispose], and after ['close']. *)
Theorem C5_sendCommand_delivery (command : list (jsstring * jsval))
  (w : write_result) (s : PythonManager) :
  state_after (sendCommand command w s) = s
  /\ (exists b : bool, result_of (sendCommand command w s) = Normal b)
  /\ match process s with
     | None =>
         result_of (sendCommand command w s) = Normal false
         /\ writes (trace_of (sendCommand command w s)) = []
         /\ filter user_visible (trace_of (sendCommand command w s)) = []
     | Some c =>
         if has_stdin c then
           exists json,
             JSON_stringify (JObj command) = Some json /\ ~ In NL json
             /\ match w with
                | Written =>
                    sendCommand command w s
                    = (Normal true, s,
                       [stdin_write (child_pid c) (json ++ [NL]) Written])
                | WriteThrew e =>
                    result_of (sendCommand command w s) = Normal false
                    /\ filter user_visible (trace_of (sendCommand command w s))
                       = [showErrorMessage MsgSendError]
                end
         else
           result_of (sendCommand command w s) = Normal false
           /\ writes (trace_of (sendCommand command w s)) = []
           /\ filter user_visible (trace_of (sendCommand command w s)) = []
     end
  /\ (forall extensionPath, process (constructor extensionPath) = None)
  /\ process (state_after (dispose s)) = None
  /\ (forall code, process (state_after (on_close code s)) = None).
Proof.
  rewrite sendCommand_run.
  destruct (wire_line_one_line command) as (json & Ej & Ew & Hn).
  split; [|split; [|split; [|split; [|split]]]].
  - destruct (process s) as [c|]; [destruct (has_stdin c); [destruct w|]|];
      reflexivity.
  - destruct (process s) as [c|]; [destruct (has_stdin c); [destruct w|]|];
      eexists; reflexivity.
  - destruct (process s) as [c|]; [destruct (has_stdin c)|].
    + exists json; split; [exact Ej | split; [exact Hn|]].
      destruct w; [rewrite Ew; reflexivity | split; reflexivity].
    + repeat split.
    + repeat split.
  - reflexivity.
  - rewrite dispose_run; destruct (process s) eqn:E; [reflexivity | exact E].
  - intros code; rewrite on_close_run; reflexivity.
Qed.

(** C10: [getDetails(name, path)] sends the command with the properties
    [command: 'get_details'] and [name], followed by [path] exactly when the
    path argument is truthy, and returns what [sendCommand] returns.  For an
    omitted ([undefined]), [null] or empty-string path the command has no
    [path] property at all. *)
Theorem C10_getDetails_command (varName path : jsval) (w : write_result)
  (s : PythonManager) :
  let base := [(u "command", JStr (u "get_details")); (u "name", varName)] in
  let command := if truthy path then base ++ [(u "path", path)] else base in
  getDetails varName path w s = sendCommand command w s
  /\ has_own (u "path") command = truthy path
  /\ (truthy path = false -> wire_line command = wire_line base)
  /\ truthy JUndefined = false /\ truthy JNull = false
  /\ truthy (JStr []) = false.
Proof.
  cbv zeta; unfold getDetails.
  split; [|split; [|split; [|repeat split]]].
  - destruct path; reflexivity.
  - destruct (truthy path); reflexivity.
  - intros ->; reflexivity.
Qed.

(* ================================================================== *)
(** ** Exit and dispose (C7, C8, C9) *)
(* ================================================================== *)

(** C7: the ['close'] handler never throws; it clears the process handle
    (so [isRunning()] is false) and empties the output buffer, and it shows
    a warning, and nothing else, exactly when the exit code is neither 0
    nor null.  A [start] that follows calls [spawn], and holds the new
    process when [spawn] returns one. *)
Theorem C7_close_returns_to_idle (h : host) (code : option Z)
  (cb : option callback) (r : spawn_result) (s : PythonManager) :
  let s' := state_after (on_close code s) in
  result_of (on_close code s) = Normal tt
  /\ process s' = None
  /\ result_of (isRunning s') = Normal false
  /\ outputBuffer s' = []
  /\ filter user_visible (trace_of (on_close code s))
     = match code with
       | Some c =>
           if Z.eqb c 0 then []
           else [showWarningMessage (MsgExitedUnexpectedly c)]
       | None => []
       end
  /\ (warnings (trace_of (on_close code s)) <> []
      <-> code <> Some 0%Z /\ code <> None)
  /\ spawns (trace_of (start h cb r s')) = [start_spawn_event h (context s) r]
  /\ process (state_after (start h cb r s'))
     = match r with Spawned c => Some c | SpawnThrew _ => None end.
Proof.
  cbv zeta; rewrite on_close_run.
  unfold result_of, state_after, trace_of; cbn [fst snd].
  split; [reflexivity|]. split; [reflexivity|]. split; [reflexivity|].
  split; [reflexivity|].
  split; [destruct code as [c|]; [simpl; destruct (Z.eqb c 0)|]; reflexivity|].
  split.
  - destruct code as [c|]; simpl.
    + destruct (Z.eqb_spec c 0) as [->|Hc]; simpl.
      * split; [intros H; contradiction | intros [H _]; contradiction].
      * split; [intros _; split; congruence | discriminate].
    + split; [intros H; contradiction | intros [_ H]; contradiction].
  - destruct r as [c|e].
    + rewrite start_idle_spawned by reflexivity; split; reflexivity.
    + rewrite start_idle_threw by reflexivity; split; reflexivity.
Qed.

(** C8: [dispose()] never throws and leaves the process handle null.  If
    there was a process it is killed (one [kill] call); on a manager with no
    process, such as a fresh one or one just disposed, it does nothing at
    all. *)
Theorem C8_dispose_idempotent (s : PythonManager) (extensionPath : jsstring) :
  result_of (dispose s) = Normal tt
  /\ process (state_after (dispose s)) = None
  /\ trace_of (dispose s)
     = match process s with Some c => [kill (child_pid c)] | None => [] end
  /\ dispose (state_after (dispose s)) = (Normal tt, state_after (dispose s), [])
  /\ dispose (constructor extensionPath)
     = (Normal tt, constructor extensionPath, []).
Proof.
  assert (Hp : process (state_after (dispose s)) = None)
    by (rewrite dispose_run; destruct (process s) eqn:E; [reflexivity | exact E]).
  split; [rewrite dispose_run; destruct (process s); reflexivity|].
  split; [exact Hp|].
  split; [rewrite dispose_run; destruct (process s); reflexivity|].
  split; [|reflexivity].
  rewrite (dispose_run (state_after (dispose s))), Hp; reflexivity.
Qed.

(** C9: [dispose()] changes only the process handle: the output buffer, the
    message callback and the context stay as they were, and no line is
    delivered.  The buffer is emptied afterwards by the ['close'] handler,
    and by the next [start]. *)
Theorem C9_dispose_keeps_buffer (h : host) (cb : option callback)
  (r : spawn_result) (code : option Z) (s : PythonManager) :
  let s' := state_after (dispose s) in
  outputBuffer s' = outputBuffer s
  /\ messageCallback s' = messageCallback s
  /\ context s' = context s
  /\ calls (trace_of (dispose s)) = []
  /\ outputBuffer (state_after (on_close code s')) = []
  /\ outputBuffer (state_after (start h cb r s')) = [].
Proof.
  cbv zeta.
  assert (Hp : process (state_after (dispose s)) = None)
    by (rewrite dispose_run; destruct (process s) eqn:E; [reflexivity | exact E]).
  split; [|split; [|split; [|split; [|split]]]];
    try (rewrite dispose_run; destruct (process s); reflexivity).
  - rewrite on_close_run; reflexivity.
  - destruct r as [c|e];
      [rewrite start_idle_spawned by exact Hp
      | rewrite start_idle_threw by exact Hp]; reflexivity.
Qed.

(* ================================================================== *)
(** ** The search path (C3) *)
(* ================================================================== *)

Lemma resolvedPaths_spec (h : host) :
  resolvedPaths_of h
  = map (fun p =>
           if isAbsolute (path h) p then p
           else match workspaceFolder h with
                | Some w => match w with [] => p | _ :: _ => join (path h) [w; p] end
                | None => p
                end) (extraPaths_of h).
Proof.
  unfold resolvedPaths_of, extraPaths_of; apply map_ext; intros p.
  destruct (isAbsolute (path h) p); [reflexivity|].
  destruct (workspaceFolder h) as [[|c w]|]; reflexivity.
Qed.

Lemma pythonPathEnv_scanned (h : host) (extensionPath : jsstring)
  (scanned : list jsstring) :
  pythonPathEnv_of h extensionPath (resolvedPaths_of h ++ scanned)
  = search_path_scanned (path h) (extraPaths_of h) (workspaceFolder h) scanned
      (join (path h) [extensionPath; u "python"]) (env_PYTHONPATH h).
Proof.
  unfold pythonPathEnv_of, pythonPathParts_of, search_path_scanned.
  rewrite resolvedPaths_spec; f_equal.
  destruct (env_PYTHONPATH h) as [[|c i]|]; cbn [truthy_opt truthy_str];
    rewrite <- ?app_assoc, ?app_nil_r; reflexivity.
Qed.

(** The string [start] builds is the one the specification describes. *)
Lemma pythonPathEnv_spec (h : host) (extensionPath : jsstring) :
  pythonPathEnv_of h extensionPath (resolvedPaths_of h)
  = search_path_spec (path h) (extraPaths_of h) (workspaceFolder h)
      (join (path h) [extensionPath; u "python"]) (env_PYTHONPATH h).
Proof.
  rewrite <- (app_nil_r (resolvedPaths_of h)) at 1.
  rewrite pythonPathEnv_scanned; reflexivity.
Qed.

(** The scan only appends to the paths it was given. *)
Lemma for_entries_appends (h : host)
  (recurse : jsstring -> scan -> completion unit * scan)
  (dir : jsstring) (pre : list jsstring) :
  (forall d st, recurse d (prepend pre st)
                = (fst (recurse d st), prepend pre (snd (recurse d st)))) ->
  forall entries st,
    for_entries h recurse dir entries (prepend pre st)
    = (fst (for_entries h recurse dir entries st),
       prepend pre (snd (for_entries h recurse dir entries st))).
Proof.
  intros Hrec; induction entries as [|entry rest IH]; intros st; [reflexivity|].
  cbn [for_entries]; destruct (eligible entry); [|apply IH].
  set (subdir := join (path h) [dir; name entry]).
  set (st1 := {| scan_paths := scan_paths st ++ [subdir];
                 dirCount := S (dirCount st); dirs_read := dirs_read st |}).
  replace {| scan_paths := scan_paths (prepend pre st) ++ [subdir];
             dirCount := S (dirCount (prepend pre st));
             dirs_read := dirs_read (prepend pre st) |}
    with (prepend pre st1)
    by (unfold prepend; cbn; rewrite <- app_assoc; reflexivity).
  rewrite Hrec.
  destruct (recurse subdir st1) as [[[]|e] st2]; cbn [fst snd];
    [apply IH | reflexivity].
Qed.

Lemma addSubdirs_appends (h : host) (levels : nat) (dir : jsstring)
  (pre : list jsstring) (st : scan) :
  addSubdirs h levels dir (prepend pre st)
  = (fst (addSubdirs h levels dir st),
     prepend pre (snd (addSubdirs h levels dir st))).
Proof.
  revert dir st; induction levels as [|n IH]; intros dir st; [reflexivity|].
  cbn [addSubdirs].
  destruct (readdirSync h dir) as [entries|e]; [|reflexivity].
  apply (for_entries_appends h (addSubdirs h n) dir pre IH entries
           {| scan_paths := scan_paths st; dirCount := dirCount st;
              dirs_read := dirs_read st ++ [dir] |}).
Qed.

(** The scan only adds to the directories read, and reads the directory it
    is started on first. *)
Lemma for_entries_reads (h : host)
  (recurse : jsstring -> scan -> completion unit * scan) (dir : jsstring) :
  (forall d st, exists more, dirs_read (snd (recurse d st)) = dirs_read st ++ more) ->
  forall entries st, exists more,
    dirs_read (snd (for_entries h recurse dir entries st)) = dirs_read st ++ more.
Proof.
  intros Hrec; induction entries as [|entry rest IH]; intros st.
  - exists []; simpl; rewrite app_nil_r; reflexivity.
  - cbn [for_entries]; destruct (eligible entry); [|apply IH].
    set (st1 := {| scan_paths := _; dirCount := _; dirs_read := dirs_read st |}).
    destruct (Hrec (join (path h) [dir; name entry]) st1) as [m1 E1].
    destruct (recurse _ st1) as [[[]|e] st2]; cbn [snd] in *.
    + destruct (IH st2) as [m2 E2]; exists (m1 ++ m2).
      rewrite E2, E1, app_assoc; reflexivity.
    + exists m1; exact E1.
Qed.

Lemma addSubdirs_reads (h : host) (levels : nat) (dir : jsstring) (st : scan) :
  exists more,
    dirs_read (snd (addSubdirs h levels dir st))
    = dirs_read st ++ match levels with O => [] | S _ => dir :: more end.
Proof.
  revert dir st; induction levels as [|n IH]; intros dir st.
  - exists []; simpl; rewrite app_nil_r; reflexivity.
  - cbn [addSubdirs].
    destruct (readdirSync h dir) as [entries|e]; [|exists []; reflexivity].
    set (st0 := {| scan_paths := _; dirCount := _; dirs_read := _ |}).
    destruct (for_entries_reads h (addSubdirs h n) dir) with (entries := entries)
      (st := st0) as [more E].
    + intros d st'; destruct (IH d st') as [m Em].
      eexists; rewrite Em; reflexivity.
    + exists more; rewrite E; subst st0; cbn [dirs_read].
      rewrite <- app_assoc; reflexivity.
Qed.

Lemma log_entries_run (i : nat) (parts : list jsstring) (s : PythonManager) :
  log_entries i parts s = (Normal tt, s, log_events i parts).
Proof.
  revert i; induction parts as [|p rest IH]; intros i; [reflexivity|].
  cbn [log_entries log_events]; unfold bind, emit; rewrite IH; reflexivity.
Qed.

Lemma search_paths_app (a b : list event) :
  search_paths (a ++ b) = search_paths a ++ search_paths b.
Proof. apply flat_map_app. Qed.

Lemma reads_app (a b : list event) : reads (a ++ b) = reads a ++ reads b.
Proof. apply flat_map_app. Qed.

Lemma search_paths_log_events (i : nat) (parts : list jsstring) :
  search_paths (log_events i parts) = [].
Proof. revert i; induction parts; intros i; simpl; auto. Qed.

Lemma reads_log_events (i : nat) (parts : list jsstring) :
  reads (log_events i parts) = [].
Proof. revert i; induction parts; intros i; simpl; auto. Qed.

Lemma search_paths_readdir (l : list jsstring) :
  search_paths (map readdir l) = [].
Proof. induction l; simpl; auto. Qed.

Lemma reads_readdir (l : list jsstring) : reads (map readdir l) = l.
Proof. induction l; simpl; congruence. Qed.


Lemma start_scanning_paths (h : host) (cb : option callback) (r : spawn_result)
  (s : PythonManager) :
  process s = None ->
  search_paths (trace_of (start_scanning h cb r s))
  = [pythonPathEnv_of h (context s) (resolvedPaths_of h ++ scanned_dirs h)]
  /\ reads (trace_of (start_scanning h cb r s)) = scanned_reads h.
Proof.
  intros E.
  unfold start_scanning, scanned_dirs, scanned_reads.
  destruct (workspaceFolder h) as [w|] eqn:Ew.
  2:{ run_method; rewrite !E, !log_entries_run, app_nil_r.
      destruct r; cbn; rewrite ?search_paths_app, ?reads_app,
        ?search_paths_log_events, ?reads_log_events; split; reflexivity. }
  destruct (truthy_str w) eqn:Et.
  2:{ run_method; rewrite !E, !log_entries_run, app_nil_r.
      destruct r; cbn; rewrite ?search_paths_app, ?reads_app,
        ?search_paths_log_events, ?reads_log_events; split; reflexivity. }
  replace {| scan_paths := resolvedPaths_of h; dirCount := 0; dirs_read := [] |}
    with (prepend (resolvedPaths_of h)
            {| scan_paths := []; dirCount := 0; dirs_read := [] |})
    by (unfold prepend; cbn; rewrite app_nil_r; reflexivity).
  rewrite addSubdirs_appends.
  destruct (addSubdirs h 6 w {| scan_paths := []; dirCount := 0; dirs_read := [] |})
    as [c st]; cbn [fst snd prepend scan_paths dirs_read dirCount].
  destruct c; run_method; rewrite !E, !log_entries_run;
  destruct r; cbn;
    rewrite ?search_paths_app, ?reads_app, ?search_paths_readdir, ?reads_readdir;
    cbn; rewrite ?search_paths_app, ?reads_app,
      ?search_paths_log_events, ?reads_log_events;
    cbn; rewrite ?app_nil_r; split; reflexivity.
Qed.

(** C3, as the claim states it, at the scanning variant of [start]: on a
    workspace [/ws] that holds a package directory, the PYTHONPATH handed to
    [spawn] is not the string the claim gives (the directories found are in
    it), and building it read three directories. *)
Lemma C3_scanning_variant_differs :
  search_paths
    (trace_of (start_scanning example_host None (Spawned (example_child 1%N))
                 example_manager))
  = [u "/ws/lib:/abs/x:/ws/pkg:/ws/pkg/sub:/ext/python:/old"]
  /\ search_path_spec posix [u "./lib"; u "/abs/x"] (Some (u "/ws"))
       (u "/ext/python") (Some (u "/old"))
     = u "/ws/lib:/abs/x:/ext/python:/old"
  /\ search_paths
       (trace_of (start_scanning example_host None (Spawned (example_child 1%N))
                    example_manager))
     <> [search_path_spec (path example_host) (extraPaths_of example_host)
           (workspaceFolder example_host)
           (join (path example_host) [context example_manager; u "python"])
           (env_PYTHONPATH example_host)]
  /\ reads
       (trace_of (start_scanning example_host None (Spawned (example_child 1%N))
                    example_manager))
     = [u "/ws"; u "/ws/pkg"; u "/ws/pkg/sub"].
Proof.
  split; [vm_compute; reflexivity|].
  split; [vm_compute; reflexivity|].
  split; [vm_compute; discriminate | vm_compute; reflexivity].
Qed.

(** C3 (amended): when [start] of [src/pythonManager.js] spawns, the
    PYTHONPATH it hands to [spawn] is: each extra path in order (absolute
    ones unchanged, relative ones joined against the workspace root when
    there is a non-empty one, otherwise unchanged), then the extension's
    [python] directory, then the inherited PYTHONPATH if and only if it is
    non-empty, joined with the path-list separator; nothing is removed as a
    duplicate and no directory is read.  The variant of [start] that scans
    the workspace hands over the same list with the directories its scan
    found put between the extra paths and the extension's directory; it
    reads no directory when there is no workspace root, and otherwise reads
    the workspace root first. *)
Theorem C3_search_path (h : host) (cb : option callback) (r : spawn_result)
  (s : PythonManager) :
  process s = None ->
  let extensionOwned := join (path h) [context s; u "python"] in
  search_paths (trace_of (start h cb r s))
  = [search_path_spec (path h) (extraPaths_of h) (workspaceFolder h)
       extensionOwned (env_PYTHONPATH h)]
  /\ reads (trace_of (start h cb r s)) = []
  /\ search_paths (trace_of (start_scanning h cb r s))
     = [search_path_scanned (path h) (extraPaths_of h) (workspaceFolder h)
          (scanned_dirs h) extensionOwned (env_PYTHONPATH h)]
  /\ reads (trace_of (start_scanning h cb r s)) = scanned_reads h
  /\ search_path_scanned (path h) (extraPaths_of h) (workspaceFolder h) []
       extensionOwned (env_PYTHONPATH h)
     = search_path_spec (path h) (extraPaths_of h) (workspaceFolder h)
         extensionOwned (env_PYTHONPATH h)
  /\ match workspaceFolder h with
     | Some (c :: w) => exists more, scanned_reads h = (c :: w) :: more
     | _ => scanned_dirs h = [] /\ scanned_reads h = []
     end.
Proof.
  intros E; cbv zeta.
  destruct (start_scanning_paths h cb r s E) as [Hp Hr].
  split; [|split; [|split; [|split; [|split]]]].
  - destruct r as [c|e];
      [rewrite start_idle_spawned by exact E | rewrite start_idle_threw by exact E];
      unfold trace_of, search_paths; simpl; rewrite pythonPathEnv_spec; reflexivity.
  - destruct r as [c|e];
      [rewrite start_idle_spawned by exact E | rewrite start_idle_threw by exact E];
      reflexivity.
  - rewrite Hp, pythonPathEnv_scanned; reflexivity.
  - exact Hr.
  - reflexivity.
  - unfold scanned_dirs, scanned_reads.
    destruct (workspaceFolder h) as [[|c w]|]; [split; reflexivity | | split; reflexivity].
    cbn [truthy_str].
    destruct (addSubdirs_reads h 6 (c :: w)
                {| scan_paths := []; dirCount := 0; dirs_read := [] |}) as [more Em].
    exists more; rewrite Em; reflexivity.
Qed.

Lemma C3_search_path_witness :
  process example_manager = None
  /\ search_paths
       (trace_of (start example_host None (Spawned (example_child 1%N))
                    example_manager))
     = [u "/ws/lib:/abs/x:/ext/python:/old"].
Proof.
  split; [reflexivity|].
  destruct (C3_search_path example_host None (Spawned (example_child 1%N))
              example_manager eq_refl) as [H _].
  rewrite H; vm_compute; reflexivity.
Defined.

(* ================================================================== *)
(** ** Decoding chunks *)
(* ================================================================== *)

Lemma decode_ascii (bs : list byte) :
  Forall is_ascii bs -> Utf8.decode Utf8.dinit bs = map Byte.to_N bs.
Proof.
  induction 1 as [|b r Hb _ IH]; [reflexivity|].
  cbn [Utf8.decode map]; unfold Utf8.dstep.
  cbn [Utf8.bytes_needed Utf8.dinit]; unfold Utf8.lead.
  apply N.leb_le in Hb; rewrite Hb, IH; reflexivity.
Qed.

Lemma toString_ascii (bs : list byte) :
  Forall is_ascii bs -> Utf8.toString bs = map Byte.to_N bs.
Proof. apply decode_ascii. Qed.

(** Chunks of ASCII bytes decode to the text of their concatenation. *)
Lemma toString_ascii_chunks (chunks : list (list byte)) :
  Forall is_ascii (List.concat chunks) ->
  List.concat (map Utf8.toString chunks) = map Byte.to_N (List.concat chunks).
Proof.
  intros H; apply Forall_concat in H.
  induction H as [|c rest Hc _ IH]; [reflexivity|].
  cbn [map List.concat]; rewrite map_app, IH, toString_ascii by exact Hc.
  reflexivity.
Qed.

Lemma fragment_after_line_feed (pre : jsstring) : fragment (pre ++ [NL]) = [].
Proof.
  destruct (split_lines_sound pre) as (E & Hf & Hl).
  assert (Ep : pre ++ [NL]
               = unlines (complete_lines pre ++ [fragment pre]) ++ []).
  { rewrite E at 1; unfold unlines.
    rewrite map_app, concat_app; simpl.
    rewrite !app_nil_r, app_assoc; reflexivity. }
  unfold fragment at 1; rewrite Ep, split_lines_unlines; [reflexivity | | simpl; tauto].
  apply Forall_app; split; [exact Hl | constructor; [exact Hf | constructor]].
Qed.

(** The fragment of a text is what follows its last line feed. *)
Lemma fragment_after_last_line_feed (pre post : jsstring) :
  ~ In NL post -> fragment (pre ++ NL :: post) = post.
Proof.
  intros Hn.
  replace (pre ++ NL :: post) with ((pre ++ [NL]) ++ post)
    by (rewrite <- app_assoc; reflexivity).
  unfold fragment at 1; rewrite split_lines_app; cbn [snd].
  rewrite fragment_after_line_feed; cbn [app].
  unfold fragment; rewrite split_lines_no_nl by exact Hn; reflexivity.
Qed.

(** *** Line feeds survive decoding, and only they decode to line feeds *)

Lemma land_low_bits (b k : N) : N.land b (N.ones k) = (b mod 2 ^ k)%N.
Proof. apply N.land_ones. Qed.

Lemma continuation_bits (c b : N) :
  c <> 0%N \/ (129 <= b <= 191)%N ->
  N.lor (N.shiftl c 6) (N.land b 63) <> 0%N.
Proof.
  intros H E; apply N.lor_eq_0_iff in E as [E1 E2].
  apply N.shiftl_eq_0_iff in E1.
  destruct H as [H | H]; [contradiction|].
  change 63%N with (N.ones 6) in E2; rewrite land_low_bits in E2.
  change (2 ^ 6)%N with 64%N in E2.
  assert (Hm : (b mod 64 = b - 128)%N).
  { symmetry; apply (N.mod_unique b 64 2); lia. }
  lia.
Qed.

Lemma completed_code_point (c b : N) :
  c <> 0%N -> N.lor (N.shiftl c 6) (N.land b 63) <> NL.
Proof.
  intros Hc E.
  assert (Hb : N.testbit (N.lor (N.shiftl c 6) (N.land b 63)) (N.log2 c + 6)
               = true).
  { rewrite N.lor_spec, N.shiftl_spec_alt, N.bit_log2 by exact Hc; reflexivity. }
  rewrite E in Hb.
  rewrite N.bits_above_log2 in Hb; [discriminate|].
  change (N.log2 NL) with 3%N; lia.
Qed.

Lemma utf16_no_line_feed (cp : N) : cp <> NL -> ~ In NL (Utf8.utf16 cp).
Proof.
  unfold Utf8.utf16, NL; intros H.
  destruct (N.ltb cp 65536); cbn [In].
  - intros [E|[]]; congruence.
  - intros [E|[E|[]]]; lia.
Qed.

Lemma lead_tracked (b : N) : tracked (fst (Utf8.lead b)).
Proof.
  unfold Utf8.lead, tracked.
  destruct (N.leb b 127); [simpl; lia|].
  destruct (N.leb 194 b && N.leb b 223) eqn:E2.
  { apply andb_prop in E2 as [H1 H2]; apply N.leb_le in H1, H2.
    cbn [fst Utf8.lower Utf8.upper Utf8.bytes_needed Utf8.code_point].
    split; [lia | split; [lia|]].
    change 31%N with (N.ones 5); rewrite land_low_bits.
    change (2 ^ 5)%N with 32%N.
    assert (Hm : (b mod 32 = b - 192)%N)
      by (symmetry; apply (N.mod_unique b 32 6); lia).
    lia. }
  destruct (N.leb 224 b && N.leb b 239) eqn:E3.
  { apply andb_prop in E3 as [H1 H2]; apply N.leb_le in H1, H2.
    cbn [fst Utf8.lower Utf8.upper Utf8.bytes_needed Utf8.code_point].
    destruct (N.eqb_spec b 224) as [Ea|Ea];
      destruct (N.eqb_spec b 237) as [Eb|Eb];
      (split; [lia | split; [lia|]]); try (right; lia).
    all: left; change 15%N with (N.ones 4); rewrite land_low_bits;
      change (2 ^ 4)%N with 16%N;
      assert (Hm : (b mod 16 = b - 224)%N)
        by (symmetry; apply (N.mod_unique b 16 14); lia);
      lia. }
  destruct (N.leb 240 b && N.leb b 244) eqn:E4; [|simpl; lia].
  apply andb_prop in E4 as [H1 H2]; apply N.leb_le in H1, H2.
  cbn [fst Utf8.lower Utf8.upper Utf8.bytes_needed Utf8.code_point].
  destruct (N.eqb_spec b 240) as [Ea|Ea];
    destruct (N.eqb_spec b 244) as [Eb|Eb];
    (split; [lia | split; [lia|]]); try (right; lia).
  all: left; change 7%N with (N.ones 3); rewrite land_low_bits;
    change (2 ^ 3)%N with 8%N;
    assert (Hm : (b mod 8 = b - 240)%N)
      by (symmetry; apply (N.mod_unique b 8 30); lia);
    lia.
Qed.

Lemma lead_no_line_feed (b : N) : b <> NL -> ~ In NL (snd (Utf8.lead b)).
Proof.
  unfold Utf8.lead; intros Hb.
  repeat match goal with
         | |- context [if ?c then _ else _] => destruct c
         end; cbn [snd In]; intuition (try congruence; try discriminate).
Qed.

Lemma dstep_tracked (st : Utf8.dstate) (b : N) :
  tracked st -> tracked (fst (Utf8.dstep st b)).
Proof.
  intros (Hl & Hu & Hc); unfold Utf8.dstep.
  destruct (Utf8.bytes_needed st) as [|k]; [apply lead_tracked|].
  destruct (N.leb (Utf8.lower st) b && N.leb b (Utf8.upper st)) eqn:E.
  - apply andb_prop in E as [H1 H2]; apply N.leb_le in H1, H2.
    destruct k as [|k']; [simpl; unfold tracked; simpl; lia|].
    unfold tracked;
      cbn [fst Utf8.lower Utf8.upper Utf8.bytes_needed Utf8.code_point].
    split; [lia | split; [lia|]].
    assert (Hnz : N.lor (N.shiftl (Utf8.code_point st) 6) (N.land b 63) <> 0%N).
    { apply continuation_bits; destruct Hc as [Hc|Hc]; [left; exact Hc | right; lia]. }
    destruct k'; [exact Hnz | left; exact Hnz].
  - pose proof (lead_tracked b) as Ht.
    destruct (Utf8.lead b) as [st' out]; exact Ht.
Qed.

Lemma dstep_no_line_feed (st : Utf8.dstate) (b : N) :
  tracked st -> b <> NL -> ~ In NL (snd (Utf8.dstep st b)).
Proof.
  intros (Hl & Hu & Hc) Hb; unfold Utf8.dstep.
  destruct (Utf8.bytes_needed st) as [|k]; [apply lead_no_line_feed; exact Hb|].
  destruct (N.leb (Utf8.lower st) b && N.leb b (Utf8.upper st)).
  - destruct k as [|k']; [|simpl; tauto].
    apply utf16_no_line_feed, completed_code_point; exact Hc.
  - pose proof (lead_no_line_feed b Hb) as Hn.
    destruct (Utf8.lead b) as [st' out]; cbn [snd] in *.
    intros [E|E]; [discriminate | exact (Hn E)].
Qed.

Lemma dstep_line_feed (st : Utf8.dstate) :
  tracked st ->
  Utf8.dstep st NL
  = (Utf8.dinit,
     match Utf8.bytes_needed st with
     | O => [NL]
     | S _ => [Utf8.REPLACEMENT; NL]
     end).
Proof.
  intros (Hl & Hu & Hc); unfold Utf8.dstep.
  destruct (Utf8.bytes_needed st) as [|k]; [reflexivity|].
  replace (N.leb (Utf8.lower st) NL) with false
    by (symmetry; apply N.leb_gt; unfold NL; lia).
  reflexivity.
Qed.

Lemma byte_line_feed (b : byte) : Byte.to_N b = NL -> b = x0a.
Proof.
  intros E; pose proof (Byte.of_to_N b) as H; rewrite E in H.
  vm_compute in H; congruence.
Qed.

(** A line feed byte ends whatever sequence is under way and decodes to a
    line feed; the bytes after it are decoded from a fresh state. *)
Lemma decode_line_feed (st : Utf8.dstate) (a b : list byte) :
  tracked st ->
  Utf8.decode st (a ++ x0a :: b)
  = Utf8.decode st a ++ NL :: Utf8.decode Utf8.dinit b.
Proof.
  revert st; induction a as [|x r IH]; intros st Ht.
  - cbn [app Utf8.decode].
    change (Byte.to_N x0a) with NL; rewrite dstep_line_feed by exact Ht.
    destruct (Utf8.bytes_needed st); reflexivity.
  - cbn [app Utf8.decode].
    pose proof (dstep_tracked st (Byte.to_N x) Ht) as Ht'.
    destruct (Utf8.dstep st (Byte.to_N x)) as [st' out]; cbn [fst] in Ht'.
    rewrite IH by exact Ht'; rewrite app_assoc; reflexivity.
Qed.

(** Bytes other than the line feed byte never decode to a line feed. *)
Lemma decode_no_line_feed (st : Utf8.dstate) (bs : list byte) :
  tracked st -> ~ In x0a bs -> ~ In NL (Utf8.decode st bs).
Proof.
  revert st; induction bs as [|x r IH]; intros st Ht Hn.
  - cbn [Utf8.decode]; destruct (Utf8.bytes_needed st); simpl;
      [tauto | intros [E|[]]; discriminate].
  - cbn [Utf8.decode].
    assert (Hx : Byte.to_N x <> NL)
      by (intros E; apply Hn; left; rewrite (byte_line_feed x E); reflexivity).
    pose proof (dstep_tracked st (Byte.to_N x) Ht) as Ht'.
    pose proof (dstep_no_line_feed st (Byte.to_N x) Ht Hx) as Ho.
    destruct (Utf8.dstep st (Byte.to_N x)) as [st' out]; cbn [fst snd] in *.
    intros Hin; apply in_app_or in Hin as [Hin|Hin]; [exact (Ho Hin)|].
    revert Hin; apply IH; [exact Ht' | intros H; apply Hn; right; exact H].
Qed.

Lemma dinit_tracked : tracked Utf8.dinit.
Proof. unfold tracked; simpl; lia. Qed.

Lemma toString_line_feed (a b : list byte) :
  Utf8.toString (a ++ x0a :: b) = Utf8.toString a ++ NL :: Utf8.toString b.
Proof. apply decode_line_feed, dinit_tracked. Qed.

Lemma toString_no_line_feed (bs : list byte) :
  ~ In x0a bs -> ~ In NL (Utf8.toString bs).
Proof. apply decode_no_line_feed, dinit_tracked. Qed.

(* ================================================================== *)
(** ** Framing across chunks (C1, C2) *)
(* ================================================================== *)

(** Whatever a text of terminated lines is cut into after decoding, the
    handler delivers exactly those lines, trimmed and without the empty
    ones, in order, and leaves the buffer empty. *)
Lemma framer_lines_any_chunking (chunks : list (list byte))
  (lines : list jsstring) (s : PythonManager) :
  outputBuffer s = [] ->
  Forall (fun l => ~ In NL l) lines ->
  List.concat (map Utf8.toString chunks) = unlines lines ->
  feed_chunks chunks s
  = (Normal tt, s,
     flat_map (deliver_events (messageCallback s)) (yielded lines)).
Proof.
  intros Eb Hl Et.
  rewrite feed_chunks_run by (rewrite Eb; simpl; tauto).
  rewrite Eb; cbn [app]; rewrite Et.
  rewrite <- (app_nil_r (unlines lines)).
  unfold fragment, complete_lines.
  rewrite split_lines_unlines by (auto; simpl; tauto); cbn [fst snd].
  rewrite <- Eb, with_outputBuffer_same; reflexivity.
Qed.

Lemma toString_unlines (blines : list (list byte)) :
  Utf8.toString (List.concat (map (fun l => l ++ [x0a]) blines))
  = unlines (map Utf8.toString blines).
Proof.
  unfold unlines; induction blines as [|l rest IH]; [reflexivity|].
  cbn [map List.concat]; rewrite <- !app_assoc; cbn [app].
  rewrite toString_line_feed, IH; reflexivity.
Qed.

(** So it is for a stream of lines of bytes, each ended by a line feed
    byte, cut into chunks none of which ends inside a character (which is
    what makes decoding chunk by chunk the same as decoding the whole; all
    chunks of ASCII bytes are such, [toString_ascii_chunks]): the lines
    delivered are the decoded lines of the stream. *)
Lemma framer_lines_whole_characters (chunks blines : list (list byte))
  (s : PythonManager) :
  outputBuffer s = [] ->
  Forall (fun l => ~ In x0a l) blines ->
  List.concat chunks = List.concat (map (fun l => l ++ [x0a]) blines) ->
  List.concat (map Utf8.toString chunks) = Utf8.toString (List.concat chunks) ->
  feed_chunks chunks s
  = (Normal tt, s,
     flat_map (deliver_events (messageCallback s))
       (yielded (map Utf8.toString blines))).
Proof.
  intros Eb Hl Ec Et; apply framer_lines_any_chunking; [exact Eb | |].
  - apply Forall_map; revert Hl; apply Forall_impl.
    intros l; apply toString_no_line_feed.
  - rewrite Et, Ec; apply toString_unlines.
Qed.

(** C1 (the code at the failing input): the bytes [22 C3 A9 22 0A] are the
    one line ["é"] (a JSON string) and its line feed.  Fed as one chunk, the
    framer passes on that line and the callback receives the string [é];
    fed as the chunks [22 C3] and [A9 22 0A], cut inside the two-byte
    character, the framer passes on a different line and the callback
    receives two replacement characters U+FFFD. *)
Theorem C1_chunk_cut_inside_character :
  let whole := [x22; xc3; xa9; x22; x0a] in
  let first := [x22; xc3] in
  let second := [xa9; x22; x0a] in
  let s := with_messageCallback example_manager (Some (example_callback 1%N)) in
  first ++ second = whole
  /\ Utf8.toString whole = unlines [[34; 233; 34]%N]
  /\ feed [] whole = ([[34; 233; 34]%N], [])
  /\ feed [] first = ([], [34; 65533]%N)
  /\ feed [34; 65533]%N second = ([[34; 65533; 65533; 34]%N], [])
  /\ calls (trace_of (feed_chunks [whole] s)) = [(1%N, JStr [233%N])]
  /\ calls (trace_of (feed_chunks [first; second] s))
     = [(1%N, JStr [65533; 65533]%N)].
Proof. cbv zeta; repeat split; vm_compute; reflexivity. Qed.

(** C2 (the code at the failing input): a worker is started and writes the
    bytes [7B 7D 0A 22 C3 A9], the line [{}] followed by the unterminated
    fragment ["é]; every input is one the host can deliver.  The bytes after
    the last line feed are [22 C3 A9], and received in one chunk they leave
    the two code units of ["é] in the buffer.  Received as the chunks
    [7B 7D 0A 22 C3] and [A9], cut inside the two-byte character, they leave
    three code units, the quote and two replacement characters U+FFFD, which
    are the decoding of no part of the bytes received; the line [{}] is
    delivered either way.  When the rest of the line arrives, the callback
    receives the garbled string. *)
Theorem C2_fragment_cut_inside_character :
  let first := [x7b; x7d; x0a; x22; xc3] in
  let second := [xa9] in
  let closing := [x22; x0a] in
  let started :=
    [call_start (Some (example_callback 1%N)) (Spawned (example_child 1%N))] in
  let after inputs :=
    run example_host (initial (u "/ext")) (started ++ inputs) in
  admissible_run example_host (initial (u "/ext"))
    (started ++ [fire_stdout 1%N first; fire_stdout 1%N second;
                 fire_stdout 1%N closing]) = true
  /\ first ++ second = [x7b; x7d; x0a] ++ [x22; xc3; xa9]
  /\ Utf8.toString [x22; xc3; xa9] = [34; 233]%N
  /\ outputBuffer (mgr (after [fire_stdout 1%N (first ++ second)]))
     = [34; 233]%N
  /\ outputBuffer (mgr (after [fire_stdout 1%N first])) = [34; 65533]%N
  /\ outputBuffer (mgr (after [fire_stdout 1%N first; fire_stdout 1%N second]))
     = [34; 65533; 65533]%N
  /\ calls (trace (after [fire_stdout 1%N (first ++ second)]))
     = [(1%N, JObj [])]
  /\ calls (trace (after [fire_stdout 1%N first; fire_stdout 1%N second]))
     = [(1%N, JObj [])]
  /\ calls (trace (after [fire_stdout 1%N (first ++ second);
                          fire_stdout 1%N closing]))
     = [(1%N, JObj []); (1%N, JStr [233%N])]
  /\ calls (trace (after [fire_stdout 1%N first; fire_stdout 1%N second;
                          fire_stdout 1%N closing]))
     = [(1%N, JObj []); (1%N, JStr [65533; 65533]%N)].
Proof. cbv zeta; repeat split; vm_compute; reflexivity. Qed.

(** What each input does to the buffer, and that only stdout data reaches
    the callback. *)
Lemma react_buffer (h : host) (i : input) (s : PythonManager) :
  match i with
  | fire_stdout _ data =>
      outputBuffer (state_after (react h i s))
      = fragment (outputBuffer s ++ Utf8.toString data)
  | call_start _ _ =>
      calls (trace_of (react h i s)) = []
      /\ outputBuffer (state_after (react h i s))
         = match process s with Some _ => outputBuffer s | None => [] end
  | fire_close _ _ =>
      calls (trace_of (react h i s)) = []
      /\ outputBuffer (state_after (react h i s)) = []
  | _ =>
      calls (trace_of (react h i s)) = []
      /\ outputBuffer (state_after (react h i s)) = outputBuffer s
  end.
Proof.
  destruct i as [cb r | command w | | p err | p data | p data | p code];
    cbn [react].
  - destruct (process s) as [c|] eqn:E.
    + rewrite (start_running h cb r s c E); split; reflexivity.
    + destruct r as [c|e];
        [rewrite start_idle_spawned by exact E
        | rewrite start_idle_threw by exact E]; split; reflexivity.
  - unfold bind; rewrite sendCommand_run.
    destruct (process s) as [c|]; [destruct (has_stdin c); [destruct w|]|];
      split; reflexivity.
  - rewrite dispose_run; destruct (process s); split; reflexivity.
  - rewrite on_error_run; split; reflexivity.
  - rewrite on_stdout_data_run; reflexivity.
  - destruct (on_stderr_data_run data s) as (shown & -> & Hc & _).
    split; [exact Hc | reflexivity].
  - rewrite on_close_run; split; [|reflexivity].
    destruct code as [c|]; [simpl; destruct (Z.eqb c 0)|]; reflexivity.
Qed.

(** No buffer a manager ever holds contains a line feed. *)
Lemma buffer_has_no_line_feed (h : host) (inputs : list input) (w : world) :
  ~ In NL (outputBuffer (mgr w)) ->
  ~ In NL (outputBuffer (mgr (run h w inputs))).
Proof.
  revert w; induction inputs as [|i rest IH]; intros w Hw; [exact Hw|].
  cbn [run]; apply IH.
  pose proof (react_buffer h i (mgr w)) as Hb.
  unfold step, state_after, trace_of in *.
  destruct (react h i (mgr w)) as [[res m] t]; cbn [mgr fst snd] in *.
  destruct i as [cb r | command wr | | p err | p data | p data | p code].
  - destruct Hb as [_ Hb]; rewrite Hb.
    destruct (process (mgr w)); [exact Hw | simpl; tauto].
  - destruct Hb as [_ Hb]; rewrite Hb; exact Hw.
  - destruct Hb as [_ Hb]; rewrite Hb; exact Hw.
  - destruct Hb as [_ Hb]; rewrite Hb; exact Hw.
  - rewrite Hb; apply split_lines_sound.
  - destruct Hb as [_ Hb]; rewrite Hb; exact Hw.
  - destruct Hb as [_ Hb]; rewrite Hb; simpl; tauto.
Qed.

(** One ['data'] event at the level of bytes, on a buffer without a line
    feed: a chunk without a line feed byte is appended to the buffer and
    nothing is delivered; after a chunk with one, the buffer is the decoded
    bytes that follow the chunk's last line feed byte. *)
Lemma on_stdout_data_bytes (s : PythonManager) :
  ~ In NL (outputBuffer s) ->
  (forall data,
     ~ In x0a data ->
     on_stdout_data data s
     = (Normal tt, with_outputBuffer s (outputBuffer s ++ Utf8.toString data), []))
  /\ (forall pre post,
        ~ In x0a post ->
        outputBuffer (state_after (on_stdout_data (pre ++ x0a :: post) s))
        = Utf8.toString post).
Proof.
  intros Hs; split.
  - intros data Hd; rewrite on_stdout_data_run; cbv zeta.
    assert (Hn : ~ In NL (outputBuffer s ++ Utf8.toString data)).
    { intros Hin; apply in_app_or in Hin as [Hin|Hin]; [exact (Hs Hin)|].
      exact (toString_no_line_feed data Hd Hin). }
    unfold fragment, complete_lines; rewrite split_lines_no_nl by exact Hn.
    reflexivity.
  - intros pre post Hp; rewrite on_stdout_data_run; cbv zeta.
    unfold state_after; cbn [fst snd outputBuffer with_outputBuffer].
    rewrite toString_line_feed, app_assoc.
    apply fragment_after_last_line_feed, toString_no_line_feed; exact Hp.
Qed.

(** X17: The buffer as text (lines 88-96, 23 and 135).  On any manager
    reached from a fresh one, feeding chunks delivers only lines that were
    terminated by a line feed, and leaves in the buffer what follows the
    last line feed of the text received so far, each chunk decoded on its
    own (everything received when there was none), so an unterminated
    fragment is never passed on: a chunk without a line feed byte is only
    appended to the buffer.  When no chunk ends inside a character, the
    buffer is the decoding of the bytes after the last line feed byte.
    Every other method and handler leaves the buffer as it is, except
    [start] with no process and ['close'], which empty it; none of them
    delivers anything. *)
Theorem fragment_stays_buffered (h : host) (extensionPath : jsstring)
  (inputs : list input) :
  let s := mgr (run h (initial extensionPath) inputs) in
  (forall chunks : list (list byte),
     let text := outputBuffer s ++ List.concat (map Utf8.toString chunks) in
     let res := feed_chunks chunks s in
     result_of res = Normal tt
     /\ trace_of res
        = flat_map (deliver_events (messageCallback s))
            (yielded (complete_lines text))
     /\ outputBuffer (state_after res) = fragment text
     /\ text = unlines (complete_lines text) ++ fragment text
     /\ ~ In NL (outputBuffer (state_after res))
     /\ (forall pre post, text = pre ++ NL :: post -> ~ In NL post ->
           outputBuffer (state_after res) = post)
     /\ (~ In NL text ->
         outputBuffer (state_after res) = text /\ trace_of res = [])
     /\ (List.concat (map Utf8.toString chunks)
         = Utf8.toString (List.concat chunks) ->
         forall pre post,
           List.concat chunks = pre ++ x0a :: post -> ~ In x0a post ->
           outputBuffer (state_after res) = Utf8.toString post))
  /\ (forall data,
        ~ In x0a data ->
        on_stdout_data data s
        = (Normal tt,
           with_outputBuffer s (outputBuffer s ++ Utf8.toString data), []))
  /\ (forall pre post,
        ~ In x0a post ->
        outputBuffer (state_after (on_stdout_data (pre ++ x0a :: post) s))
        = Utf8.toString post)
  /\ (forall i,
        match i with
        | fire_stdout _ _ => True
        | call_start _ _ =>
            calls (trace_of (react h i s)) = []
            /\ outputBuffer (state_after (react h i s))
               = match process s with Some _ => outputBuffer s | None => [] end
        | fire_close _ _ =>
            calls (trace_of (react h i s)) = []
            /\ outputBuffer (state_after (react h i s)) = []
        | _ =>
            calls (trace_of (react h i s)) = []
            /\ outputBuffer (state_after (react h i s)) = outputBuffer s
        end).
Proof.
  cbv zeta.
  set (s := mgr (run h (initial extensionPath) inputs)).
  assert (Hs : ~ In NL (outputBuffer s))
    by (apply buffer_has_no_line_feed; simpl; tauto).
  destruct (on_stdout_data_bytes s Hs) as [Hb1 Hb2].
  split; [|split; [exact Hb1 | split; [exact Hb2|]]].
  - intros chunks; rewrite (feed_chunks_run chunks s Hs).
    set (text := outputBuffer s ++ List.concat (map Utf8.toString chunks)).
    unfold result_of, trace_of, state_after;
      cbn [fst snd outputBuffer with_outputBuffer].
    destruct (split_lines_sound text) as (E & Hf & Hl).
    split; [reflexivity|]. split; [reflexivity|]. split; [reflexivity|].
    split; [exact E|]. split; [exact Hf|].
    split; [|split].
    + intros pre post -> Hn; apply fragment_after_last_line_feed; exact Hn.
    + intros Hn; unfold fragment, complete_lines.
      rewrite split_lines_no_nl by exact Hn; split; reflexivity.
    + intros Ew pre post Ec Hn; unfold text.
      rewrite Ew, Ec, toString_line_feed, app_assoc.
      apply fragment_after_last_line_feed, toString_no_line_feed; exact Hn.
  - intros i; pose proof (react_buffer h i s) as Hb.
    destruct i; try exact Hb; exact I.
Qed.

(* ================================================================== *)
(** ** Malformed lines (C6) *)
(* ================================================================== *)

Lemma example_stream_ascii : Forall is_ascii example_stream.
Proof.
  unfold is_ascii; repeat (constructor; [vm_compute; discriminate|]).
  constructor.
Qed.

Lemma example_stream_text :
  map Byte.to_N example_stream
  = unlines [sq "{'a':1}"; u "NOT-JSON"; sq "{'b':2}"].
Proof. vm_compute; reflexivity. Qed.

Lemma substring_from_start (s : jsstring) (n : nat) :
  substring s 0 (Z.of_nat n) = firstn n s.
Proof.
  unfold substring, clamp, jslength.
  replace (Z.to_nat (Z.min (Z.max 0 0) (Z.of_nat (List.length s)))) with 0%nat
    by lia.
  replace (Z.to_nat (Z.min (Z.max (Z.of_nat n) 0) (Z.of_nat (List.length s))))
    with (Nat.min n (List.length s)) by lia.
  rewrite Nat.max_0_l, Nat.min_0_l, Nat.sub_0_r; cbn [skipn].
  destruct (Nat.le_ge_cases n (List.length s)) as [H|H].
  - rewrite Nat.min_l by exact H; reflexivity.
  - rewrite Nat.min_r by exact H.
    rewrite firstn_all, firstn_all2 by exact H; reflexivity.
Qed.

(** What delivering one line, and a list of lines, leaves in the trace. *)
Lemma deliver_events_summary (cb : option callback) (line : jsstring) :
  calls (deliver_events cb line)
  = match cb with Some f => parsed_calls f [line] | None => [] end
  /\ filter user_visible (deliver_events cb line) = []
  /\ writes (deliver_events cb line) = []
  /\ spawns (deliver_events cb line) = []
  /\ Forall (fun l => List.length l <= 103)
       (parse_error_previews (deliver_events cb line)).
Proof.
  assert (Hp : List.length (substring line 0 100 ++ u "...") <= 103).
  { change 100%Z with (Z.of_nat 100); rewrite substring_from_start, length_app.
    pose proof (firstn_le_length 100 line) as Hf.
    change (List.length (u "...")) with 3; lia. }
  unfold deliver_events, parsed_calls; cbn [flat_map].
  destruct (JSON_parse line) as [v|].
  - destruct cb as [f|]; [|repeat split; constructor].
    destruct (cb_throws f v); cbn; repeat split;
      repeat (constructor; try exact Hp).
  - destruct cb; cbn; repeat split; repeat (constructor; try exact Hp).
Qed.

Lemma deliver_all_summary (cb : option callback) (lines : list jsstring) :
  calls (flat_map (deliver_events cb) lines)
  = match cb with Some f => parsed_calls f lines | None => [] end
  /\ filter user_visible (flat_map (deliver_events cb) lines) = []
  /\ writes (flat_map (deliver_events cb) lines) = []
  /\ Forall (fun l => List.length l <= 103)
       (parse_error_previews (flat_map (deliver_events cb) lines)).
Proof.
  induction lines as [|l rest (I1 & I2 & I3 & I4)].
  - destruct cb; repeat split; constructor.
  - destruct (deliver_events_summary cb l) as (D1 & D2 & D3 & _ & D5).
    cbn [flat_map]; unfold calls, writes, parse_error_previews in *.
    rewrite !flat_map_app, filter_app, D1, D2, D3, I1, I2, I3.
    split; [destruct cb; [unfold parsed_calls; cbn; rewrite app_nil_r|]; reflexivity|].
    split; [reflexivity|]. split; [reflexivity|].
    apply Forall_app; split; assumption.
Qed.

(** C6: a line that is not JSON only writes to the console: [deliver]
    changes no field and does not throw, so the loop goes on to the next
    line.  For the stream of the three lines [{"a":1}], [NOT-JSON],
    [{"b":2}], however it is cut into chunks, the callback is called exactly
    twice, with the object [{a:1}] and then the object [{b:2}]; nothing is
    shown to the user, the process handle and the callback stay as they
    were, and the buffer ends empty.

    And for every stream, every way of cutting it into chunks and every
    manager whose buffer holds no line feed (a callback being one that
    returns or throws): the handler ends normally and changes only the
    buffer; what it does is, line after line, what delivering that line
    does, for all the lines the text holds; nothing is shown to the user;
    and the callback is called with the value of every line that parses, in
    order.  A line that does not parse leaves one console diagnostic and no
    call, whatever the callback is, so the calls are those of the lines
    before it followed by those of the lines after it. *)
Theorem C6_malformed_line_is_skipped (chunks : list (list byte))
  (s : PythonManager) (cb : callback) :
  List.concat chunks = example_stream ->
  outputBuffer s = [] ->
  messageCallback s = Some cb ->
  let res := feed_chunks chunks s in
  result_of res = Normal tt
  /\ calls (trace_of res)
     = [(cb_id cb, JObj [(u "a", number_of 1)]);
        (cb_id cb, JObj [(u "b", number_of 2)])]
  /\ filter user_visible (trace_of res) = []
  /\ In (console_error (MsgParseError SyntaxError (u "NOT-JSON...") 8))
       (trace_of res)
  /\ state_after res = s
  /\ (forall line s0,
        JSON_parse line = None ->
        deliver line s0
        = (Normal tt, s0,
           [console_error
              (MsgParseError SyntaxError (substring line 0 100 ++ u "...")
                 (jslength line))]))
  /\ (forall (stream : list (list byte)) (s0 : PythonManager),
        ~ In NL (outputBuffer s0) ->
        let text := outputBuffer s0 ++ List.concat (map Utf8.toString stream) in
        let lines := yielded (complete_lines text) in
        let res0 := feed_chunks stream s0 in
        result_of res0 = Normal tt
        /\ state_after res0 = with_outputBuffer s0 (fragment text)
        /\ trace_of res0 = flat_map (deliver_events (messageCallback s0)) lines
        /\ filter user_visible (trace_of res0) = []
        /\ (forall f, messageCallback s0 = Some f ->
              calls (trace_of res0) = parsed_calls f lines))
  /\ (forall (f : option callback) (line : jsstring),
        JSON_parse line = None ->
        deliver_events f line
        = [console_error
             (MsgParseError SyntaxError (substring line 0 100 ++ u "...")
                (jslength line))])
  /\ (forall (f : callback) (before after : list jsstring) (bad : jsstring),
        JSON_parse bad = None ->
        parsed_calls f (before ++ bad :: after)
        = parsed_calls f before ++ parsed_calls f after).
Proof.
  intros Hc Hb Hcb; cbv zeta.
  match goal with
  | |- _ /\ _ /\ _ /\ _ /\ _ /\ _ /\ ?G => assert (HG : G); [|set (General := G) in *]
  end.
  { split; [|split].
    - intros stream s0 Hs0; rewrite (feed_chunks_run stream s0 Hs0).
      unfold result_of, state_after, trace_of; cbn [fst snd].
      destruct (deliver_all_summary (messageCallback s0)
                  (yielded (complete_lines
                     (outputBuffer s0 ++ List.concat (map Utf8.toString stream)))))
        as (H1 & H2 & _).
      split; [reflexivity|]. split; [reflexivity|]. split; [reflexivity|].
      split; [exact H2|].
      intros f Ef; rewrite Ef in H1 |- *; exact H1.
    - intros f line E; unfold deliver_events; rewrite E; reflexivity.
    - intros f before after bad E; unfold parsed_calls.
      rewrite flat_map_app; cbn [flat_map]; rewrite E; reflexivity. }
  assert (Ht : List.concat (map Utf8.toString chunks)
               = unlines [sq "{'a':1}"; u "NOT-JSON"; sq "{'b':2}"]).
  { rewrite toString_ascii_chunks by (rewrite Hc; apply example_stream_ascii).
    rewrite Hc; apply example_stream_text. }
  rewrite (framer_lines_any_chunking chunks
             [sq "{'a':1}"; u "NOT-JSON"; sq "{'b':2}"] s Hb) by
    (try exact Ht; repeat (constructor; [vm_compute; intuition discriminate|]);
     constructor).
  rewrite Hcb.
  unfold result_of, trace_of, state_after; cbn [fst snd].
  replace (yielded [sq "{'a':1}"; u "NOT-JSON"; sq "{'b':2}"])
    with [sq "{'a':1}"; u "NOT-JSON"; sq "{'b':2}"] by (vm_compute; reflexivity).
  cbn [flat_map]; unfold deliver_events.
  replace (JSON_parse (sq "{'a':1}")) with (Some (JObj [(u "a", number_of 1)]))
    by (vm_compute; reflexivity).
  replace (JSON_parse (sq "{'b':2}")) with (Some (JObj [(u "b", number_of 2)]))
    by (vm_compute; reflexivity).
  replace (JSON_parse (u "NOT-JSON")) with (@None jsval) by (vm_compute; reflexivity).
  replace (substring (u "NOT-JSON") 0 100 ++ u "...") with (u "NOT-JSON...")
    by (vm_compute; reflexivity).
  change (jslength (u "NOT-JSON")) with 8%Z.
  split; [reflexivity|].
  split; [|split; [|split; [|split; [|split]]]].
  - destruct (cb_throws cb (JObj [(u "a", number_of 1)]));
      destruct (cb_throws cb (JObj [(u "b", number_of 2)])); reflexivity.
  - destruct (cb_throws cb (JObj [(u "a", number_of 1)]));
      destruct (cb_throws cb (JObj [(u "b", number_of 2)])); reflexivity.
  - destruct (cb_throws cb (JObj [(u "a", number_of 1)]));
      destruct (cb_throws cb (JObj [(u "b", number_of 2)])); simpl; tauto.
  - reflexivity.
  - intros line s0 E; rewrite deliver_run; unfold deliver_events; rewrite E.
    reflexivity.
  - exact HG.
Qed.

Lemma C6_malformed_line_is_skipped_witness :
  List.concat [firstn 5 example_stream; skipn 5 example_stream] = example_stream
  /\ calls
       (trace_of
          (feed_chunks [firstn 5 example_stream; skipn 5 example_stream]
             (with_messageCallback example_manager (Some (example_callback 1%N)))))
     = [(cb_id (example_callback 1%N), JObj [(u "a", number_of 1)]);
        (cb_id (example_callback 1%N), JObj [(u "b", number_of 2)])].
Proof.
  split; [reflexivity|].
  destruct (C6_malformed_line_is_skipped
              [firstn 5 example_stream; skipn 5 example_stream]
              (with_messageCallback example_manager (Some (example_callback 1%N)))
              (example_callback 1%N) eq_refl eq_refl eq_refl) as (_ & H & _).
  exact H.
Defined.

(* ================================================================== *)
(** ** One process per session (C4) *)
(* ================================================================== *)

(** Two calls of [start] in a row, the first of which spawned: the second
    calls [spawn] not at all and keeps the process, the callback is the
    second call's, and it is the one every line decoded afterwards is
    delivered to. *)
Lemma start_twice_spawns_once (h : host) (cb1 cb2 : option callback)
  (c : child) (r2 : spawn_result) (s : PythonManager)
  (chunks : list (list byte)) :
  process s = None ->
  let s1 := state_after (start h cb1 (Spawned c) s) in
  let s2 := state_after (start h cb2 r2 s1) in
  spawns (trace_of (start h cb1 (Spawned c) s))
  = [start_spawn_event h (context s) (Spawned c)]
  /\ spawns (trace_of (start h cb2 r2 s1)) = []
  /\ result_of (start h cb2 r2 s1) = Normal tt
  /\ process s2 = Some c
  /\ messageCallback s2 = cb2
  /\ trace_of (feed_chunks chunks s2)
     = flat_map (deliver_events cb2)
         (yielded (complete_lines (List.concat (map Utf8.toString chunks)))).
Proof.
  intros E; cbv zeta.
  rewrite start_idle_spawned by exact E.
  unfold state_after; cbn [fst snd].
  set (s1 := {| context := context s; process := Some c;
                messageCallback := cb1; outputBuffer := [] |}).
  rewrite (start_running h cb2 r2 s1 c eq_refl).
  unfold result_of, trace_of; cbn [fst snd].
  repeat split.
  rewrite feed_chunks_run by (simpl; tauto); reflexivity.
Qed.

Lemma spawns_deliver_events (cb : option callback) (ls : list jsstring) :
  spawns (flat_map (deliver_events cb) ls) = [].
Proof.
  induction ls as [|l rest IH]; [reflexivity|].
  cbn [flat_map]; unfold spawns in *; rewrite filter_app, IH, app_nil_r.
  unfold deliver_events.
  destruct (JSON_parse l) as [v|]; [|reflexivity].
  destruct cb as [f|]; [|reflexivity].
  simpl; destruct (cb_throws f v); reflexivity.
Qed.

Lemma born_without_spawns (t : list event) : spawns t = [] -> born t = [].
Proof.
  unfold spawns, born; induction t as [|e t IH]; [reflexivity|].
  cbn [filter flat_map]; destruct e; try (intros H; apply IH; exact H);
    discriminate.
Qed.

Lemma step_without_spawn (h : host) (w : world) (i : input)
  (res : completion unit) (m : PythonManager) (t : list event) :
  react h i (mgr w) = (res, m, t) ->
  spawns t = [] ->
  mgr (step h w i) = m
  /\ spawns (trace (step h w i)) = spawns (trace w)
  /\ spawned (step h w i) = spawned w.
Proof.
  intros E Hs; unfold step; rewrite E; cbn [mgr trace spawned].
  rewrite (born_without_spawns t Hs), app_nil_r.
  unfold spawns in *; rewrite filter_app, Hs, app_nil_r; repeat split.
Qed.

(** While a process is held, no input other than [dispose()], ['error'] and
    ['close'] lets go of it, and none calls [spawn]: however often [start]
    is called in between, the session stays with its one process. *)
Lemma one_process_until_exit (h : host) (inputs : list input) (w : world)
  (c : child) :
  forallb keeps_running inputs = true ->
  process (mgr w) = Some c ->
  process (mgr (run h w inputs)) = Some c
  /\ spawns (trace (run h w inputs)) = spawns (trace w)
  /\ spawned (run h w inputs) = spawned w.
Proof.
  revert w; induction inputs as [|i rest IH]; intros w Hk Hp;
    [repeat split; assumption|].
  cbn [forallb] in Hk; apply andb_prop in Hk as [Hi Hk].
  cbn [run].
  assert (Hstep : process (mgr (step h w i)) = Some c
                  /\ spawns (trace (step h w i)) = spawns (trace w)
                  /\ spawned (step h w i) = spawned w).
  { destruct i as [cb r | command wr | | p err | p data | p data | p code];
      try discriminate.
    - destruct (step_without_spawn h w (call_start cb r) _ _ _
                  (start_running h cb r (mgr w) c Hp) eq_refl) as (-> & H2 & H3).
      repeat split; assumption.
    - assert (E : exists b t,
                 react h (call_sendCommand command wr) (mgr w)
                 = (Normal tt, mgr w, t) /\ spawns t = [] /\ b = true).
      { cbn [react]; unfold bind; rewrite sendCommand_run, Hp.
        destruct (has_stdin c); [destruct wr|];
          eexists true, _; (split; [reflexivity | split; reflexivity]). }
      destruct E as (b & t & E & Hs & _).
      destruct (step_without_spawn h w _ _ _ _ E Hs) as (-> & H2 & H3).
      repeat split; assumption.
    - destruct (step_without_spawn h w (fire_stdout p data) _ _ _
                  (on_stdout_data_run data (mgr w))
                  (spawns_deliver_events _ _)) as (-> & H2 & H3).
      repeat split; assumption.
    - destruct (on_stderr_data_run data (mgr w)) as (shown & E & _ & _ & Hsp).
      destruct (step_without_spawn h w (fire_stderr p data) _ _ _ E) as (-> & H2 & H3);
        [exact Hsp | repeat split; assumption]. }
  destruct Hstep as (H1 & H2 & H3).
  destruct (IH (step h w i) Hk H1) as (I1 & I2 & I3).
  repeat split; congruence.
Qed.

(** C4 (the code at the failing input): [start], [dispose], [start], then
    the ['close'] event of the first, killed process, then [start] again,
    with [spawn] succeeding each time.  Every input is one the host can
    deliver.  The ['close'] handler of the first process clears the handle
    of the second, so the manager reports that nothing is running while the
    second process is alive, and the last [start] spawns a third: the
    session has two live worker processes that were never killed. *)
Theorem C4_stale_close_leaves_two_workers :
  let cb := Some (example_callback 1%N) in
  let inputs :=
    [call_start cb (Spawned (example_child 1%N)); call_dispose;
     call_start cb (Spawned (example_child 2%N)); fire_close 1%N None;
     call_start cb (Spawned (example_child 3%N))] in
  admissible_run example_host (initial (u "/ext")) inputs = true
  /\ workers (run example_host (initial (u "/ext")) (firstn 3 inputs)) = [2%N]
  /\ process (mgr (run example_host (initial (u "/ext")) (firstn 3 inputs)))
     = Some (example_child 2%N)
  /\ workers (run example_host (initial (u "/ext")) (firstn 4 inputs)) = [2%N]
  /\ process (mgr (run example_host (initial (u "/ext")) (firstn 4 inputs)))
     = None
  /\ workers (run example_host (initial (u "/ext")) inputs) = [2%N; 3%N]
  /\ killed (trace (run example_host (initial (u "/ext")) inputs)) = [1%N]
  /\ List.length (spawns (trace (run example_host (initial (u "/ext")) inputs)))
     = 3.
Proof. cbv zeta; repeat split; vm_compute; reflexivity. Qed.

(* ================================================================== *)
(** ** Strings *)
(* ================================================================== *)

Lemma startsWith_iff (s prefix : jsstring) :
  startsWith s prefix = true <-> exists post, s = prefix ++ post.
Proof.
  revert s; induction prefix as [|p ps IH]; intros s.
  - split; [intros _; exists s; reflexivity | intros _; destruct s; reflexivity].
  - destruct s as [|c r]; cbn [startsWith app].
    + split; [discriminate | intros [post E]; discriminate].
    + rewrite andb_true_iff, N.eqb_eq, IH; split.
      * intros [-> [post ->]]; exists post; reflexivity.
      * intros [post E]; injection E as -> ->; split;
          [reflexivity | exists post; reflexivity].
Qed.

(** [includes] is the search for a substring. *)
Lemma includes_iff (s needle : jsstring) :
  includes s needle = true <-> exists pre post, s = pre ++ needle ++ post.
Proof.
  induction s as [|c r IH]; cbn [includes].
  - rewrite orb_false_r, startsWith_iff; split.
    + intros [post E]; exists [], post; exact E.
    + intros (pre & post & E); destruct pre as [|x pre]; [exists post; exact E|].
      discriminate.
  - rewrite orb_true_iff, startsWith_iff, IH; split.
    + intros [[post E] | (pre & post & E)].
      * exists [], post; exact E.
      * exists (c :: pre), post; rewrite E; reflexivity.
    + intros (pre & post & E); destruct pre as [|x pre].
      * left; exists post; exact E.
      * right; injection E as _ E; exists pre, post; exact E.
Qed.


(* ================================================================== *)
(** ** Starting, failing to start, stderr *)
(* ================================================================== *)

(** X1: The stderr handler (lines 114-124) changes no field and never throws,
    delivers, writes or spawns.  It shows an error exactly when the decoded
    chunk contains one of the four marker texts as a substring, and what it
    shows is the first 200 code units of the chunk's text. *)
Theorem stderr_shows_marked_errors (data : list byte) (s : PythonManager) :
  let msg := Utf8.toString data in
  let res := on_stderr_data data s in
  result_of res = Normal tt
  /\ state_after res = s
  /\ calls (trace_of res) = [] /\ writes (trace_of res) = []
  /\ spawns (trace_of res) = []
  /\ ((exists m pre post, In m stderr_markers /\ msg = pre ++ m ++ post) ->
      filter user_visible (trace_of res)
      = [showErrorMessage (MsgPythonError (firstn 200 msg))])
  /\ ((forall m pre post, In m stderr_markers -> msg <> pre ++ m ++ post) ->
      filter user_visible (trace_of res) = []).
Proof.
  cbv zeta; unfold on_stderr_data, bind, emit, ret.
  set (msg := Utf8.toString data).
  change 200%Z with (Z.of_nat 200); rewrite substring_from_start.
  destruct (includes msg (u "ModuleNotFoundError")
            || includes msg (u "ImportError")
            || includes msg (u "SyntaxError")
            || includes msg (u "No module named")) eqn:E;
    unfold result_of, state_after, trace_of; cbn [fst snd app];
    (split; [reflexivity|]); (split; [reflexivity|]); (split; [reflexivity|]);
    (split; [reflexivity|]); (split; [reflexivity|]); split.
  - intros _; reflexivity.
  - intros Hno; exfalso.
    rewrite !orb_true_iff in E.
    destruct E as [[[E|E]|E]|E]; apply includes_iff in E as (pre & post & E);
      revert E; apply Hno; simpl; tauto.
  - intros (m & pre & post & Hm & Em); exfalso.
    rewrite !orb_false_iff in E; destruct E as [[[E1 E2] E3] E4].
    assert (Hi : includes msg m = true) by (apply includes_iff; eauto).
    simpl in Hm; destruct Hm as [<-|[<-|[<-|[<-|[]]]]]; congruence.
  - intros _; reflexivity.
Qed.

Lemma start_idle (h : host) (cb : option callback) (r : spawn_result)
  (s : PythonManager) :
  process s = None ->
  start h cb r s
  = (Normal tt, started s cb r,
     starting_event h (context s)
     :: start_spawn_event h (context s) r :: after_spawn h r).
Proof.
  intros E; destruct r as [c|e];
    [rewrite start_idle_spawned by exact E
    | rewrite start_idle_threw by exact E]; reflexivity.
Qed.

(** The scanning variant, when there is no process: everything it does. *)
Lemma start_scanning_idle (h : host) (cb : option callback) (r : spawn_result)
  (s : PythonManager) :
  process s = None ->
  start_scanning h cb r s
  = (Normal tt, started s cb r,
     scanning_prelude h (context s)
     ++ spawn (pythonPath_of h)
          [join (path h) [context s; u "python"; u "variable_inspector.py"]]
          (cwd_of h)
          (pythonPathEnv_of h (context s) (scan_paths (snd (scan_of h)))) r
        :: after_spawn h r).
Proof.
  intros E.
  unfold start_scanning, scanning_prelude, scan_events, scan_of, started,
    after_spawn.
  destruct (workspaceFolder h) as [w|] eqn:Ew.
  2:{ run_method; rewrite !E, !log_entries_run.
      destruct r; cbn; rewrite <- ?app_assoc; reflexivity. }
  destruct (truthy_str w) eqn:Et.
  2:{ run_method; rewrite !E, !log_entries_run.
      destruct r; cbn; rewrite <- ?app_assoc; reflexivity. }
  destruct (addSubdirs h 6 w _) as [c st]; cbn [fst snd].
  destruct c; run_method; rewrite !E, !log_entries_run;
    destruct r; cbn; rewrite <- ?app_assoc; cbn; rewrite <- ?app_assoc;
    reflexivity.
Qed.

Lemma start_scanning_running (h : host) (cb : option callback)
  (r : spawn_result) (s : PythonManager) (c : child) :
  process s = Some c ->
  start_scanning h cb r s
  = (Normal tt, with_messageCallback s cb, [console_log MsgAlreadyRunning]).
Proof. intros E; run_method; rewrite E; reflexivity. Qed.

Lemma spawn_commands_app (a b : list event) :
  spawn_commands (a ++ b) = spawn_commands a ++ spawn_commands b.
Proof. apply flat_map_app. Qed.

Lemma spawn_calls_app (a b : list event) :
  spawn_calls (a ++ b) = spawn_calls a ++ spawn_calls b.
Proof. apply flat_map_app. Qed.

Lemma attaches_app (a b : list event) :
  attaches (a ++ b) = attaches a ++ attaches b.
Proof. apply flat_map_app. Qed.

Lemma log_events_quiet (i : nat) (parts : list jsstring) :
  spawn_commands (log_events i parts) = []
  /\ spawn_calls (log_events i parts) = []
  /\ attaches (log_events i parts) = []
  /\ filter user_visible (log_events i parts) = [].
Proof.
  revert i; induction parts as [|p rest IH]; intros i; [repeat split|].
  destruct (IH (S i)) as (H1 & H2 & H3 & H4); cbn; auto.
Qed.

Lemma readdir_quiet (l : list jsstring) :
  spawn_commands (map readdir l) = []
  /\ spawn_calls (map readdir l) = []
  /\ attaches (map readdir l) = []
  /\ filter user_visible (map readdir l) = [].
Proof. induction l as [|d l (H1 & H2 & H3 & H4)]; cbn; auto. Qed.

(** Before [spawn] the variant only logs, reads directories and shows which
    interpreter it uses. *)
Lemma scanning_prelude_quiet (h : host) (extensionPath : jsstring) :
  spawn_commands (scanning_prelude h extensionPath) = []
  /\ spawn_calls (scanning_prelude h extensionPath) = []
  /\ attaches (scanning_prelude h extensionPath) = []
  /\ filter user_visible (scanning_prelude h extensionPath)
     = [showInformationMessage (MsgUsingPython (pythonPath_of h))].
Proof.
  unfold scanning_prelude.
  set (parts := pythonPathParts_of h extensionPath _).
  destruct (log_events_quiet 0 parts) as (L1 & L2 & L3 & L4).
  assert (Hs : spawn_commands (scan_events h) = []
               /\ spawn_calls (scan_events h) = []
               /\ attaches (scan_events h) = []
               /\ filter user_visible (scan_events h) = []).
  { unfold scan_events.
    destruct (workspaceFolder h) as [w|]; [|repeat split].
    destruct (truthy_str w); [|repeat split].
    destruct (readdir_quiet (dirs_read (snd (scan_of h)))) as (R1 & R2 & R3 & R4).
    rewrite spawn_commands_app, spawn_calls_app, attaches_app, filter_app,
      R1, R2, R3, R4.
    destruct (fst (scan_of h)); repeat split. }
  destruct Hs as (S1 & S2 & S3 & S4).
  rewrite !spawn_commands_app, !spawn_calls_app, !attaches_app, !filter_app,
    L1, L2, L3, L4, S1, S2, S3, S4.
  repeat split.
Qed.

(** X2: The interpreter (lines 26-34): the command handed to [spawn] is never
    the empty string.  It is the editor's interpreter setting when that is
    non-empty, else the extension's own setting when that is non-empty, else
    [python] on Windows and [python3] elsewhere; both versions of [start]
    hand this command, and no other, to [spawn]. *)
Theorem interpreter_is_never_empty (h : host) (cb : option callback)
  (r : spawn_result) (s : PythonManager) :
  pythonPath_of h <> []
  /\ (forall p, python_defaultInterpreterPath h = Some p -> p <> [] ->
        pythonPath_of h = p)
  /\ (truthy_opt (python_defaultInterpreterPath h) = false ->
      forall p, variableExplorer_pythonPath h = Some p -> p <> [] ->
        pythonPath_of h = p)
  /\ (truthy_opt (python_defaultInterpreterPath h) = false ->
      truthy_opt (variableExplorer_pythonPath h) = false ->
      pythonPath_of h
      = match process_platform h with
        | win32 => u "python"
        | other_platform => u "python3"
        end)
  /\ Forall (eq (pythonPath_of h)) (spawn_commands (trace_of (start h cb r s)))
  /\ Forall (eq (pythonPath_of h))
       (spawn_commands (trace_of (start_scanning h cb r s))).
Proof.
  split; [|split; [|split; [|split; [|split]]]].
  - unfold pythonPath_of.
    destruct (python_defaultInterpreterPath h) as [[|c p]|];
      cbn [truthy_opt truthy_str negb];
      try (destruct (variableExplorer_pythonPath h) as [[|c' p']|]);
      cbn [truthy_str]; try destruct (process_platform h); discriminate.
  - intros p E Hp; unfold pythonPath_of; rewrite E.
    destruct p; [contradiction | reflexivity].
  - intros Hd p E Hp; unfold pythonPath_of; rewrite Hd, E; cbn [negb].
    destruct p; [contradiction | reflexivity].
  - intros Hd Hv; unfold pythonPath_of; rewrite Hd; cbn [negb].
    destruct (variableExplorer_pythonPath h) as [[|c p]|];
      [reflexivity | discriminate | reflexivity].
  - destruct (process s) as [c|] eqn:E.
    + rewrite (start_running h cb r s c E); constructor.
    + rewrite start_idle by exact E; unfold trace_of; cbn [snd].
      destruct r; repeat constructor.
  - destruct (process s) as [c|] eqn:E.
    + rewrite (start_scanning_running h cb r s c E); constructor.
    + rewrite start_scanning_idle by exact E; unfold trace_of; cbn [snd].
      destruct (scanning_prelude_quiet h (context s)) as (Q & _).
      rewrite spawn_commands_app, Q; destruct r; repeat constructor.
Qed.

(** X3: A [spawn] that throws (lines 66-76): [start] itself does not throw; the
    manager stays without a process, with the new callback and an empty
    buffer; no handler is attached and exactly one error is shown.  A later
    [start] calls [spawn] again, with the same command, arguments and
    working directory; when [spawn] returns a process, [start] attaches the
    four handlers to it and to nothing else. *)
Theorem spawn_failure_leaves_idle (h : host) (cb cb' : option callback)
  (e : exn) (r' : spawn_result) (s : PythonManager) :
  process s = None ->
  let res := start h cb (SpawnThrew e) s in
  result_of res = Normal tt
  /\ state_after res = started s cb (SpawnThrew e)
  /\ result_of (isRunning (state_after res)) = Normal false
  /\ attaches (trace_of res) = []
  /\ filter user_visible (trace_of res)
     = [showErrorMessage (MsgSpawnFailed (pythonPath_of h))]
  /\ spawn_calls (trace_of (start h cb' r' (state_after res)))
     = [(pythonPath_of h,
         [join (path h) [context s; u "python"; u "variable_inspector.py"]],
         cwd_of h, r')]
  /\ (forall c,
        attaches (trace_of (start h cb (Spawned c) s))
        = [(child_pid c, on_error_h); (child_pid c, on_stdout_h);
           (child_pid c, on_stderr_h); (child_pid c, on_close_h)]
        /\ filter user_visible (trace_of (start h cb (Spawned c) s)) = []).
Proof.
  intros E; cbv zeta.
  rewrite (start_idle h cb (SpawnThrew e) s E).
  unfold result_of, state_after, trace_of; cbn [fst snd].
  split; [reflexivity|]. split; [reflexivity|]. split; [reflexivity|].
  split; [reflexivity|]. split; [reflexivity|].
  split.
  - rewrite start_idle by reflexivity; destruct r'; reflexivity.
  - intros c; rewrite (start_idle h cb (Spawned c) s E); split; reflexivity.
Qed.

Lemma spawn_failure_leaves_idle_witness :
  process example_manager = None
  /\ filter user_visible
       (trace_of (start example_host None (SpawnThrew (Error (u "EAGAIN")))
                    example_manager))
     = [showErrorMessage (MsgSpawnFailed (u "python3"))].
Proof.
  split; [reflexivity|].
  destruct (spawn_failure_leaves_idle example_host None None
              (Error (u "EAGAIN")) (SpawnThrew (Error (u "EAGAIN")))
              example_manager eq_refl) as (_ & _ & _ & _ & H & _).
  exact H.
Defined.

(** X4: The ['error'] event (lines 79-86): the handler does not throw, clears
    the process handle and shows one error; it leaves the output buffer, the
    callback and the context alone.  After it [sendCommand] returns [false]
    without writing, and the next [start] calls [spawn] again and empties
    the buffer. *)
Theorem error_event_clears_handle (h : host) (err : exn)
  (cb : option callback) (r : spawn_result)
  (command : list (jsstring * jsval)) (w : write_result) (s : PythonManager) :
  let res := on_error err s in
  result_of res = Normal tt
  /\ state_after res = with_process s None
  /\ outputBuffer (state_after res) = outputBuffer s
  /\ filter user_visible (trace_of res)
     = [showErrorMessage (MsgProcessError err)]
  /\ calls (trace_of res) = []
  /\ result_of (sendCommand command w (state_after res)) = Normal false
  /\ writes (trace_of (sendCommand command w (state_after res))) = []
  /\ spawns (trace_of (start h cb r (state_after res)))
     = [start_spawn_event h (context s) r]
  /\ outputBuffer (state_after (start h cb r (state_after res))) = [].
Proof.
  cbv zeta; rewrite on_error_run.
  unfold state_after at 1 2 3 4 5 6; cbn [fst snd].
  rewrite sendCommand_run, (start_idle h cb r (with_process s None) eq_refl).
  unfold result_of, state_after, trace_of; cbn [fst snd process with_process].
  repeat split; destruct r; reflexivity.
Qed.

(* ================================================================== *)
(** ** The scanning variant *)
(* ================================================================== *)

(** X5: Both versions of [start] end the same way, leave the same fields,
    make the same [spawn] call apart from the PYTHONPATH, and attach the
    same handlers; a failing scan never keeps the variant from spawning.
    The variant shows one more notification, the interpreter in use, when
    it gets as far as spawning. *)
Theorem scanning_start_differs_only_in_path (h : host)
  (cb : option callback) (r : spawn_result) (s : PythonManager) :
  result_of (start_scanning h cb r s) = Normal tt
  /\ result_of (start h cb r s) = Normal tt
  /\ state_after (start_scanning h cb r s) = state_after (start h cb r s)
  /\ spawn_calls (trace_of (start_scanning h cb r s))
     = spawn_calls (trace_of (start h cb r s))
  /\ attaches (trace_of (start_scanning h cb r s))
     = attaches (trace_of (start h cb r s))
  /\ filter user_visible (trace_of (start_scanning h cb r s))
     = match process s with
       | Some _ => []
       | None => [showInformationMessage (MsgUsingPython (pythonPath_of h))]
       end ++ filter user_visible (trace_of (start h cb r s)).
Proof.
  destruct (process s) as [c|] eqn:E.
  - rewrite (start_scanning_running h cb r s c E), (start_running h cb r s c E).
    repeat split.
  - rewrite (start_scanning_idle h cb r s E), (start_idle h cb r s E).
    unfold result_of, state_after, trace_of; cbn [fst snd].
    destruct (scanning_prelude_quiet h (context s)) as (_ & Q2 & Q3 & Q4).
    rewrite spawn_calls_app, attaches_app, filter_app, Q2, Q3, Q4.
    repeat split.
Qed.

Lemma found_in_more (h : host) (dirs more : list jsstring) (p : jsstring) :
  found_in h dirs p -> found_in h (dirs ++ more) p.
Proof.
  intros (d & es & entry & Hd & Hr & He & Hel & Hp).
  exists d, es, entry; repeat split; auto using in_or_app.
Qed.

Lemma for_entries_scanned (h : host)
  (recurse : jsstring -> scan -> completion unit * scan)
  (dir : jsstring) (all : list dirent) :
  (forall d st, scanned_from h d st (snd (recurse d st))) ->
  readdirSync h dir = Normal all ->
  forall entries st,
    incl entries all -> In dir (dirs_read st) ->
    exists added newreads,
      let r := snd (for_entries h recurse dir entries st) in
      scan_paths r = scan_paths st ++ added
      /\ dirCount r = dirCount st + List.length added
      /\ dirs_read r = dirs_read st ++ newreads
      /\ Forall (found_in h (dirs_read r)) added
      /\ Forall (fun d => In d added) newreads.
Proof.
  intros Hrec Hall; induction entries as [|entry rest IH]; intros st Hin Hdir.
  - exists [], []; cbn; rewrite !app_nil_r, Nat.add_0_r; repeat split; constructor.
  - assert (Hrest : incl rest all) by (intros x Hx; apply Hin; right; exact Hx).
    cbn [for_entries]; destruct (eligible entry) eqn:El; [|apply IH; assumption].
    set (subdir := join (path h) [dir; name entry]).
    set (st1 := {| scan_paths := scan_paths st ++ [subdir];
                   dirCount := S (dirCount st); dirs_read := dirs_read st |}).
    destruct (Hrec subdir st1) as (a1 & n1 & P1 & C1 & R1 & F1 & N1).
    assert (Hsub : found_in h (dirs_read st) subdir).
    { exists dir, all, entry; repeat split; auto; apply Hin; left; reflexivity. }
    destruct (recurse subdir st1) as [[[]|e] st2]; cbn [snd] in *.
    + destruct (IH st2 Hrest) as (a2 & n2 & P2 & C2 & R2 & F2 & N2).
      { rewrite R1; apply in_or_app; left; exact Hdir. }
      cbv zeta in *.
      set (r := snd (for_entries h recurse dir rest st2)) in *.
      exists (subdir :: a1 ++ a2), (n1 ++ n2).
      split; [rewrite P2, P1; cbn; rewrite <- !app_assoc; reflexivity|].
      split; [rewrite C2, C1; cbn; rewrite length_app; lia|].
      split; [rewrite R2, R1; cbn; rewrite <- app_assoc; reflexivity|].
      split.
      * constructor.
        -- rewrite R2, R1; cbn; rewrite <- app_assoc; apply found_in_more; exact Hsub.
        -- apply Forall_app; split; [|exact F2].
           rewrite R2; revert F1; apply Forall_impl; intros p; apply found_in_more.
      * apply Forall_app; split.
        -- revert N1; apply Forall_impl; intros d [->|Hd];
             [left; reflexivity | right; apply in_or_app; left; exact Hd].
        -- revert N2; apply Forall_impl; intros d Hd.
           right; apply in_or_app; right; exact Hd.
    + exists (subdir :: a1), n1.
      split; [rewrite P1; cbn; rewrite <- app_assoc; reflexivity|].
      split; [rewrite C1; cbn; lia|].
      split; [exact R1|].
      split.
      * constructor; [rewrite R1; apply found_in_more; exact Hsub | exact F1].
      * revert N1; apply Forall_impl; intros d [->|Hd];
          [left; reflexivity | right; exact Hd].
Qed.

Lemma addSubdirs_scanned (h : host) (levels : nat) (dir : jsstring) (st : scan) :
  scanned_from h dir st (snd (addSubdirs h levels dir st)).
Proof.
  revert dir st; induction levels as [|n IH]; intros dir st.
  - exists [], []; cbn; rewrite !app_nil_r, Nat.add_0_r; repeat split; constructor.
  - cbn [addSubdirs].
    set (st0 := {| scan_paths := scan_paths st; dirCount := dirCount st;
                   dirs_read := dirs_read st ++ [dir] |}).
    destruct (readdirSync h dir) as [entries|e] eqn:Er.
    + destruct (for_entries_scanned h (addSubdirs h n) dir entries IH Er
                  entries st0 (incl_refl _)) as (a & nr & P & C & R & F & N).
      { subst st0; cbn; apply in_or_app; right; left; reflexivity. }
      cbv zeta in *.
      exists a, (dir :: nr); subst st0; cbn [scan_paths dirCount dirs_read] in *.
      split; [exact P|]. split; [exact C|].
      split; [rewrite R, <- app_assoc; reflexivity|].
      split; [exact F|].
      constructor; [left; reflexivity|].
      revert N; apply Forall_impl; intros d Hd; right; exact Hd.
    + exists [], [dir]; cbn; rewrite app_nil_r, Nat.add_0_r.
      repeat split; constructor; [left; reflexivity | constructor].
Qed.

Lemma scanned_counts_app (a b : list event) :
  scanned_counts (a ++ b) = scanned_counts a ++ scanned_counts b.
Proof. apply flat_map_app. Qed.

Lemma scan_errors_app (a b : list event) :
  scan_errors (a ++ b) = scan_errors a ++ scan_errors b.
Proof. apply flat_map_app. Qed.

Lemma log_events_silent (i : nat) (parts : list jsstring) :
  scanned_counts (log_events i parts) = []
  /\ scan_errors (log_events i parts) = [].
Proof.
  revert i; induction parts as [|p rest IH]; intros i; [split; reflexivity|].
  destruct (IH (S i)); cbn; auto.
Qed.

Lemma readdir_silent (l : list jsstring) :
  scanned_counts (map readdir l) = [] /\ scan_errors (map readdir l) = [].
Proof. induction l as [|d l [H1 H2]]; cbn; auto. Qed.

(** What the variant's trace shows of its scan. *)
Lemma start_scanning_scan (h : host) (cb : option callback) (r : spawn_result)
  (s : PythonManager) :
  process s = None ->
  let t := trace_of (start_scanning h cb r s) in
  search_paths t
  = [pythonPathEnv_of h (context s) (scan_paths (snd (scan_of h)))]
  /\ reads t = dirs_read (snd (scan_of h))
  /\ scanned_counts t
     = match workspaceFolder h, fst (scan_of h) with
       | Some (_ :: _), Normal _ => [dirCount (snd (scan_of h))]
       | _, _ => []
       end
  /\ scan_errors t
     = match workspaceFolder h, fst (scan_of h) with
       | Some (_ :: _), Throw e => [e]
       | _, _ => []
       end.
Proof.
  intros E; cbv zeta; rewrite (start_scanning_idle h cb r s E).
  unfold trace_of; cbn [snd].
  unfold scanning_prelude, scan_events.
  set (parts := pythonPathParts_of h (context s) _).
  destruct (log_events_silent 0 parts) as (L1 & L2).
  pose proof (search_paths_log_events 0 parts) as L3.
  pose proof (reads_log_events 0 parts) as L4.
  rewrite !search_paths_app, !reads_app, !scanned_counts_app, !scan_errors_app,
    L1, L2, L3, L4.
  assert (Ha : search_paths (after_spawn h r) = [] /\ reads (after_spawn h r) = []
               /\ scanned_counts (after_spawn h r) = []
               /\ scan_errors (after_spawn h r) = [])
    by (destruct r; repeat split).
  destruct Ha as (A1 & A2 & A3 & A4).
  change (spawn ?a ?b ?c ?d ?e :: after_spawn h r)
    with ([spawn a b c d e] ++ after_spawn h r).
  rewrite !search_paths_app, !reads_app, !scanned_counts_app, !scan_errors_app,
    A1, A2, A3, A4.
  destruct (workspaceFolder h) as [[|c w]|] eqn:Ew; cbn [truthy_str];
    try (unfold scan_of; rewrite Ew; cbn; repeat split; reflexivity).
  destruct (readdir_silent (dirs_read (snd (scan_of h)))) as (R1 & R2).
  rewrite !search_paths_app, !reads_app, !scanned_counts_app, !scan_errors_app,
    search_paths_readdir, reads_readdir, R1, R2.
  destruct (fst (scan_of h)); cbn; rewrite ?app_nil_r; repeat split.
Qed.

(** X6: The scan of the variant (lines 39-68 of the variant): every directory
    it adds to PYTHONPATH, after the resolved extra paths, is the join of a
    directory it read with the name of an entry of that directory that is
    itself a directory and whose name does not start with [.] or [__] and
    is not [node_modules] or [venv]; every directory it reads is the
    workspace root or one it added; and the count it logs, when the scan
    ends without a throw, is the number of directories added. *)
Theorem scan_adds_only_eligible_directories (h : host) (cb : option callback)
  (r : spawn_result) (s : PythonManager) :
  process s = None ->
  let t := trace_of (start_scanning h cb r s) in
  exists added,
    search_paths t
    = [pythonPathEnv_of h (context s) (resolvedPaths_of h ++ added)]
    /\ Forall (found_in h (reads t)) added
    /\ Forall (fun d => workspaceFolder h = Some d \/ In d added) (reads t)
    /\ Forall (eq (List.length added)) (scanned_counts t).
Proof.
  intros E; cbv zeta.
  destruct (start_scanning_scan h cb r s E) as (-> & -> & -> & _).
  unfold scan_of.
  destruct (workspaceFolder h) as [[|c w]|] eqn:Ew; cbn [truthy_str fst snd].
  1,3: exists []; rewrite app_nil_r; repeat split; constructor.
  destruct (addSubdirs_scanned h 6 (c :: w)
              {| scan_paths := resolvedPaths_of h; dirCount := 0;
                 dirs_read := [] |}) as (a & nr & P & C & R & F & N).
  cbn [scan_paths dirCount dirs_read app] in *.
  exists a; rewrite P; split; [reflexivity|].
  split; [exact F|].
  split.
  - rewrite R; revert N; apply Forall_impl; intros d [->|Hd]; auto.
  - destruct (fst _); constructor; [symmetry; exact C | constructor].
Qed.

Lemma scan_adds_only_eligible_directories_witness :
  process example_manager = None
  /\ exists added,
       search_paths
         (trace_of (start_scanning example_host None
                      (Spawned (example_child 1%N)) example_manager))
       = [pythonPathEnv_of example_host (context example_manager)
            (resolvedPaths_of example_host ++ added)]
       /\ Forall (eq (List.length added))
            (scanned_counts
               (trace_of (start_scanning example_host None
                            (Spawned (example_child 1%N)) example_manager))).
Proof.
  split; [reflexivity|].
  destruct (scan_adds_only_eligible_directories example_host None
              (Spawned (example_child 1%N)) example_manager eq_refl)
    as (added & H1 & _ & _ & H4).
  exists added; split; assumption.
Defined.

(** X7: A workspace root that cannot be read: the variant logs the error, adds
    nothing, and hands [spawn] the very PYTHONPATH the plain [start]
    does. *)
Theorem unreadable_workspace_adds_nothing (h : host) (cb : option callback)
  (r : spawn_result) (s : PythonManager) (w : jsstring) (e : exn) :
  process s = None ->
  workspaceFolder h = Some w -> w <> [] ->
  readdirSync h w = Throw e ->
  let t := trace_of (start_scanning h cb r s) in
  search_paths t = search_paths (trace_of (start h cb r s))
  /\ reads t = [w]
  /\ scan_errors t = [e]
  /\ scanned_counts t = []
  /\ List.length (spawns t) = 1.
Proof.
  intros E Ew Hw Er; cbv zeta.
  destruct (start_scanning_scan h cb r s E) as (-> & -> & -> & ->).
  assert (Es : scan_of h
               = (Throw e, {| scan_paths := resolvedPaths_of h; dirCount := 0;
                              dirs_read := [w] |})).
  { unfold scan_of; rewrite Ew.
    destruct w as [|c w']; [contradiction|]; cbn [truthy_str addSubdirs].
    rewrite Er; reflexivity. }
  rewrite Es, Ew; cbn [fst snd scan_paths dirs_read].
  destruct w as [|c w']; [contradiction|].
  rewrite (start_idle h cb r s E), (start_scanning_idle h cb r s E).
  unfold trace_of; cbn [snd].
  split; [destruct r; reflexivity|].
  split; [reflexivity|]. split; [reflexivity|]. split; [reflexivity|].
  destruct (scanning_prelude_quiet h (context s)) as (_ & Q & _).
  assert (Hl : forall t0, List.length (spawns t0) = List.length (spawn_calls t0)).
  { induction t0 as [|x t0 IH]; [reflexivity|]; destruct x; cbn; auto. }
  rewrite Hl, spawn_calls_app, Q; destruct r; reflexivity.
Qed.

Lemma unreadable_workspace_adds_nothing_witness :
  process example_manager = None
  /\ workspaceFolder unreadable_host = Some (u "/ws")
  /\ u "/ws" <> []
  /\ readdirSync unreadable_host (u "/ws") = Throw (Error (u "EACCES"))
  /\ search_paths
       (trace_of (start_scanning unreadable_host None
                    (Spawned (example_child 1%N)) example_manager))
     = search_paths
         (trace_of (start unreadable_host None
                      (Spawned (example_child 1%N)) example_manager)).
Proof.
  assert (Hne : u "/ws" <> []) by discriminate.
  split; [reflexivity|]. split; [reflexivity|]. split; [exact Hne|].
  split; [reflexivity|].
  destruct (unreadable_workspace_adds_nothing unreadable_host None
              (Spawned (example_child 1%N)) example_manager (u "/ws")
              (Error (u "EACCES")) eq_refl eq_refl Hne eq_refl) as (H & _).
  exact H.
Defined.

(* ================================================================== *)
(** ** What reaches the parser and the callback *)
(* ================================================================== *)

Lemma trimStart_starts_black (s : jsstring) : starts_black (trimStart s) = true.
Proof.
  induction s as [|c r IH]; [reflexivity|]; cbn [trimStart].
  destruct (is_white_space c) eqn:E; [exact IH | cbn; rewrite E; reflexivity].
Qed.

Lemma trimStart_black (s : jsstring) : starts_black s = true -> trimStart s = s.
Proof.
  destruct s as [|c r]; [reflexivity|]; cbn.
  destruct (is_white_space c); [discriminate | reflexivity].
Qed.

Lemma trimStart_snoc (a : jsstring) (c : code_unit) :
  is_white_space c = false -> trimStart (a ++ [c]) = trimStart a ++ [c].
Proof.
  intros Hc; induction a as [|x a IH]; cbn [app trimStart].
  - rewrite Hc; reflexivity.
  - destruct (is_white_space x); [exact IH | reflexivity].
Qed.

Lemma trimStart_incl (s : jsstring) (c : code_unit) :
  In c (trimStart s) -> In c s.
Proof.
  induction s as [|x r IH]; [tauto|]; cbn [trimStart].
  destruct (is_white_space x); [intros H; right; exact (IH H) | tauto].
Qed.

Lemma trim_incl (s : jsstring) (c : code_unit) : In c (trim s) -> In c s.
Proof.
  unfold trim, trimEnd; intros H.
  apply in_rev, trimStart_incl, in_rev in H.
  exact (trimStart_incl s c H).
Qed.

(** A trimmed text neither starts nor ends with white space, and trimming
    it again changes nothing. *)
Lemma trim_black (s : jsstring) :
  starts_black (trim s) = true /\ ends_black (trim s) = true
  /\ trim (trim s) = trim s.
Proof.
  assert (He : ends_black (trim s) = true).
  { unfold ends_black, trim, trimEnd; rewrite rev_involutive.
    apply trimStart_starts_black. }
  assert (Hs : starts_black (trim s) = true).
  { unfold trim, trimEnd.
    pose proof (trimStart_starts_black s) as Hb.
    destruct (trimStart s) as [|c r]; [reflexivity|].
    cbn in Hb; apply negb_true_iff in Hb.
    cbn [rev]; rewrite trimStart_snoc by exact Hb.
    rewrite rev_app_distr; cbn; rewrite Hb; reflexivity. }
  split; [exact Hs | split; [exact He|]].
  unfold trim at 1; rewrite (trimStart_black _ Hs).
  unfold trimEnd; unfold ends_black in He.
  rewrite (trimStart_black _ He); apply rev_involutive.
Qed.

Lemma trim_white (s : jsstring) :
  forallb is_white_space s = true -> trim s = [].
Proof.
  intros H; assert (E : trimStart s = []).
  { induction s as [|c r IH]; [reflexivity|]; cbn in *.
    apply andb_prop in H as [-> H]; exact (IH H). }
  unfold trim; rewrite E; reflexivity.
Qed.

(** X8: The lines the stdout handler hands to [JSON.parse] (lines 94-98), from
    any buffer and any chunk: none is empty, none contains a line feed, and
    none starts or ends with a white space character (trimming one again
    changes nothing); there are at most as many as the text has line
    feeds. *)
Theorem lines_for_the_parser_are_trimmed (buf : jsstring) (data : list byte) :
  Forall (fun l => l <> [] /\ ~ In NL l
                   /\ starts_black l = true /\ ends_black l = true
                   /\ trim l = l)
    (fst (feed buf data))
  /\ List.length (fst (feed buf data))
     <= count_occ N.eq_dec (buf ++ Utf8.toString data) NL.
Proof.
  rewrite feed_split; cbn [fst].
  set (text := buf ++ Utf8.toString data).
  destruct (split_lines_sound text) as (E & Hf & Hl).
  split.
  - unfold yielded; apply Forall_forall; intros l Hin.
    apply filter_In in Hin as [Hin Ht].
    apply in_map_iff in Hin as (raw & <- & Hraw).
    rewrite Forall_forall in Hl; specialize (Hl raw Hraw).
    destruct (trim_black raw) as (Hs & He & Hi).
    split; [destruct (trim raw); [discriminate | discriminate]|].
    split; [intros H; apply Hl, (trim_incl raw NL H)|].
    repeat split; assumption.
  - assert (Hc : forall t, List.length (complete_lines t)
                           = count_occ N.eq_dec t NL).
    { unfold complete_lines; induction t as [|c r IH]; [reflexivity|].
      cbn [split_lines count_occ].
      destruct (split_lines r) as [ls frag]; cbn [fst] in *.
      destruct (N.eq_dec c NL) as [->|Hne].
      - rewrite N.eqb_refl; cbn; rewrite IH; reflexivity.
      - apply N.eqb_neq in Hne; rewrite Hne.
        destruct ls; cbn in *; exact IH. }
    rewrite <- Hc; unfold yielded.
    etransitivity; [apply filter_length_le|]; rewrite length_map; reflexivity.
Qed.

(** X9: The callback and the [try] around it (lines 98-110), for a
    callback that returns or throws and does not itself call the manager
    (one that does, and so changes the buffer, the callback or the process
    under the loop, is outside the model).  The stdout handler does not
    throw, and the callback is called once for each line that parses, in
    order, with the parsed value: a callback that throws is caught like a
    parse error and stops nothing.  With no callback the lines are parsed
    and dropped.  Nothing is shown to the user or written to the worker, and
    a diagnostic quotes at most 103 code units of the line. *)
Theorem callback_failures_are_contained (chunks : list (list byte))
  (s : PythonManager) :
  ~ In NL (outputBuffer s) ->
  let text := outputBuffer s ++ List.concat (map Utf8.toString chunks) in
  let res := feed_chunks chunks s in
  result_of res = Normal tt
  /\ state_after res = with_outputBuffer s (fragment text)
  /\ calls (trace_of res)
     = match messageCallback s with
       | Some f => parsed_calls f (yielded (complete_lines text))
       | None => []
       end
  /\ filter user_visible (trace_of res) = []
  /\ writes (trace_of res) = []
  /\ Forall (fun l => List.length l <= 103)
       (parse_error_previews (trace_of res)).
Proof.
  intros Hs; cbv zeta; rewrite (feed_chunks_run chunks s Hs).
  unfold result_of, state_after, trace_of; cbn [fst snd].
  destruct (deliver_all_summary (messageCallback s)
              (yielded (complete_lines
                 (outputBuffer s ++ List.concat (map Utf8.toString chunks)))))
    as (H1 & H2 & H3 & H4).
  repeat split; assumption.
Qed.

Lemma callback_failures_are_contained_witness :
  ~ In NL (outputBuffer
             (with_messageCallback example_manager
                (Some (throwing_callback 7%N))))
  /\ calls
       (trace_of
          (feed_chunks [example_stream]
             (with_messageCallback example_manager
                (Some (throwing_callback 7%N)))))
     = [(7%N, JObj [(u "a", number_of 1)]); (7%N, JObj [(u "b", number_of 2)])].
Proof.
  assert (Hn : ~ In NL (outputBuffer
                          (with_messageCallback example_manager
                             (Some (throwing_callback 7%N)))))
    by (simpl; tauto).
  split; [exact Hn|].
  destruct (callback_failures_are_contained [example_stream]
              (with_messageCallback example_manager
                 (Some (throwing_callback 7%N))) Hn) as (_ & _ & H & _).
  rewrite H; vm_compute; reflexivity.
Defined.

(* ================================================================== *)
(** ** Line boundaries and chunk boundaries *)
(* ================================================================== *)

Lemma count_line_feeds_decode (st : Utf8.dstate) (bs : list byte) :
  tracked st ->
  count_occ N.eq_dec (Utf8.decode st bs) NL
  = count_occ Byte.byte_eq_dec bs x0a.
Proof.
  revert st; induction bs as [|x r IH]; intros st Ht.
  - cbn; destruct (Utf8.bytes_needed st); reflexivity.
  - cbn [Utf8.decode count_occ].
    pose proof (dstep_tracked st (Byte.to_N x) Ht) as Ht'.
    destruct (Byte.byte_eq_dec x x0a) as [->|Hne].
    + change (Byte.to_N x0a) with NL.
      rewrite dstep_line_feed by exact Ht; cbv beta iota zeta.
      rewrite (@count_occ_app N N.eq_dec), (IH _ dinit_tracked).
      destruct (Utf8.bytes_needed st); reflexivity.
    + assert (Hx : Byte.to_N x <> NL)
        by (intros Ex; apply Hne, byte_line_feed; exact Ex).
      pose proof (dstep_no_line_feed st (Byte.to_N x) Ht Hx) as Ho.
      destruct (Utf8.dstep st (Byte.to_N x)) as [st' out]; cbn [fst snd] in *.
      rewrite (@count_occ_app N N.eq_dec), (IH _ Ht').
      apply (count_occ_not_In N.eq_dec) in Ho; rewrite Ho; reflexivity.
Qed.

Lemma complete_lines_count (t : jsstring) :
  List.length (complete_lines t) = count_occ N.eq_dec t NL.
Proof.
  unfold complete_lines; induction t as [|c r IH]; [reflexivity|].
  cbn [split_lines count_occ].
  destruct (split_lines r) as [ls frag]; cbn [fst] in *.
  destruct (N.eq_dec c NL) as [->|Hne].
  - rewrite N.eqb_refl; cbn; rewrite IH; reflexivity.
  - apply N.eqb_neq in Hne; rewrite Hne.
    destruct ls; cbn in *; exact IH.
Qed.

(** X10: Decoding chunk by chunk (line 90) may garble a character cut by a chunk
    boundary, but it never makes, loses or moves a line boundary: however
    the bytes are cut into chunks, the text the handler accumulates has
    exactly as many terminated lines as the bytes have line feed bytes, and
    what follows the last line feed byte of a chunk decodes to text without
    a line feed. *)
Theorem chunking_keeps_line_boundaries (chunks : list (list byte)) :
  List.length (complete_lines (List.concat (map Utf8.toString chunks)))
  = count_occ Byte.byte_eq_dec (List.concat chunks) x0a
  /\ count_occ N.eq_dec (List.concat (map Utf8.toString chunks)) NL
     = count_occ N.eq_dec (Utf8.toString (List.concat chunks)) NL
  /\ (forall pre post,
        ~ In x0a post ->
        fragment (Utf8.toString (pre ++ x0a :: post)) = Utf8.toString post
        /\ ~ In NL (Utf8.toString post)).
Proof.
  assert (H : count_occ N.eq_dec (List.concat (map Utf8.toString chunks)) NL
              = count_occ Byte.byte_eq_dec (List.concat chunks) x0a).
  { induction chunks as [|c rest IH]; [reflexivity|].
    cbn [map List.concat]; rewrite (@count_occ_app N N.eq_dec), count_occ_app, IH.
    unfold Utf8.toString; rewrite count_line_feeds_decode by apply dinit_tracked.
    reflexivity. }
  split; [rewrite complete_lines_count; exact H|].
  split.
  - rewrite H; unfold Utf8.toString.
    rewrite count_line_feeds_decode by apply dinit_tracked; reflexivity.
  - intros pre post Hp; split; [|apply toString_no_line_feed; exact Hp].
    rewrite toString_line_feed.
    apply fragment_after_last_line_feed, toString_no_line_feed; exact Hp.
Qed.

(* ================================================================== *)
(** ** Invariants of a session *)
(* ================================================================== *)

(** What an input does to the fields other than the buffer. *)
Lemma react_fields (h : host) (i : input) (s : PythonManager) :
  context (state_after (react h i s)) = context s
  /\ messageCallback (state_after (react h i s))
     = match i with call_start cb _ => cb | _ => messageCallback s end
  /\ process (state_after (react h i s))
     = match i with
       | call_start _ r =>
           match process s with
           | Some c => Some c
           | None => match r with Spawned c => Some c | SpawnThrew _ => None end
           end
       | call_dispose | fire_error _ _ | fire_close _ _ => None
       | _ => process s
       end.
Proof.
  destruct i as [cb r | command w | | p err | p data | p data | p code];
    cbn [react].
  - destruct (process s) as [c|] eqn:E.
    + rewrite (start_running h cb r s c E); repeat split; exact E.
    + rewrite (start_idle h cb r s E); repeat split.
  - unfold bind; rewrite sendCommand_run.
    destruct (process s) as [c|] eqn:E; [destruct (has_stdin c); [destruct w|]|];
      repeat split; exact E.
  - rewrite dispose_run; destruct (process s) eqn:E; repeat split; exact E.
  - rewrite on_error_run; repeat split.
  - rewrite on_stdout_data_run; repeat split.
  - destruct (on_stderr_data_run data s) as (shown & -> & _); repeat split.
  - rewrite on_close_run; repeat split.
Qed.

Lemma run_snoc (h : host) (w : world) (inputs : list input) (i : input) :
  run h w (inputs ++ [i]) = step h (run h w inputs) i.
Proof.
  revert w; induction inputs as [|x rest IH]; intros w; [reflexivity|].
  cbn [app run]; apply IH.
Qed.

Lemma step_mgr (h : host) (w : world) (i : input) :
  mgr (step h w i) = state_after (react h i (mgr w)).
Proof.
  unfold step, state_after; destruct (react h i (mgr w)) as [[res m] t].
  reflexivity.
Qed.

(** X11: The callback and the context (lines 8 and 17): only [start] changes the
    callback, and every [start] does, whether it spawns or not; nothing
    changes the context.  So after any inputs the callback is the one the
    latest [start] was given, and calls and events in between make no
    difference. *)
Theorem callback_is_the_latest_start (h : host) (inputs : list input)
  (w : world) :
  messageCallback (mgr (run h w inputs))
  = last_onMessage (messageCallback (mgr w)) inputs
  /\ context (mgr (run h w inputs)) = context (mgr w).
Proof.
  revert w; induction inputs as [|i rest IH]; intros w; [split; reflexivity|].
  cbn [run]; destruct (IH (step h w i)) as [-> ->]; rewrite step_mgr.
  destruct (react_fields h i (mgr w)) as (Hc & Hm & _); rewrite Hc, Hm.
  destruct i; split; reflexivity.
Qed.

Lemma killed_app (a b : list event) : killed (a ++ b) = killed a ++ killed b.
Proof. apply flat_map_app. Qed.

Lemma written_to_app (a b : list event) :
  written_to (a ++ b) = written_to a ++ written_to b.
Proof. apply flat_map_app. Qed.

Lemma born_app (a b : list event) : born (a ++ b) = born a ++ born b.
Proof. apply flat_map_app. Qed.

Lemma mem_In (p : pid) (l : list pid) : mem p l = true <-> In p l.
Proof.
  unfold mem; rewrite existsb_exists; split.
  - intros (x & Hx & E); apply N.eqb_eq in E; subst; exact Hx.
  - intros H; exists p; split; [exact H | apply N.eqb_refl].
Qed.

Lemma is_write_to_In (p : pid) (t : list event) :
  existsb (is_write_to p) t = true <-> In p (written_to t).
Proof.
  induction t as [|e t IH]; cbn [existsb written_to flat_map];
    [split; [discriminate | intros []]|].
  rewrite orb_true_iff, in_app_iff, IH.
  destruct e; cbn; rewrite ?N.eqb_eq; intuition (try discriminate; auto).
Qed.

Lemma quiet_after_kill_app (a b : list event) :
  quiet_after_kill a = true -> quiet_after_kill b = true ->
  (forall p, In p (killed a) -> ~ In p (written_to b)) ->
  quiet_after_kill (a ++ b) = true.
Proof.
  induction a as [|e a IH]; intros Ha Hb Hk; [exact Hb|].
  assert (Hk' : forall p, In p (killed a) -> ~ In p (written_to b)).
  { intros p Hp; apply Hk; unfold killed in *; cbn [flat_map].
    apply in_or_app; right; exact Hp. }
  destruct e; cbn [app quiet_after_kill] in *; try (apply IH; assumption).
  apply andb_prop in Ha as [Hw Hq]; apply negb_true_iff in Hw.
  rewrite existsb_app, Hw, (IH Hq Hb Hk'); cbn [orb].
  rewrite andb_true_r; apply negb_true_iff.
  destruct (existsb (is_write_to p) b) eqn:E; [|reflexivity].
  exfalso; apply is_write_to_In in E; revert E; apply Hk.
  unfold killed; cbn; left; reflexivity.
Qed.

Lemma deliver_all_effects (cb : option callback) (lines : list jsstring) :
  killed (flat_map (deliver_events cb) lines) = []
  /\ born (flat_map (deliver_events cb) lines) = []
  /\ written_to (flat_map (deliver_events cb) lines) = []
  /\ quiet_after_kill (flat_map (deliver_events cb) lines) = true.
Proof.
  induction lines as [|l rest (I1 & I2 & I3 & I4)]; [repeat split|].
  assert (D : killed (deliver_events cb l) = []
              /\ born (deliver_events cb l) = []
              /\ written_to (deliver_events cb l) = []
              /\ quiet_after_kill (deliver_events cb l) = true).
  { unfold deliver_events; destruct (JSON_parse l) as [v|];
      [destruct cb as [f|]; [destruct (cb_throws f v)|]|]; repeat split. }
  destruct D as (D1 & D2 & D3 & D4); cbn [flat_map].
  rewrite killed_app, born_app, written_to_app, D1, D2, D3, I1, I2, I3.
  repeat split; apply quiet_after_kill_app; auto.
  intros p Hp; rewrite D1 in Hp; contradiction.
Qed.

(** The kills, writes and spawned processes of one input. *)
Lemma react_effects (h : host) (i : input) (s : PythonManager) :
  let t := trace_of (react h i s) in
  killed t
  = match i, process s with
    | call_dispose, Some c => [child_pid c]
    | _, _ => []
    end
  /\ born t
     = match i, process s with
       | call_start _ (Spawned c), None => [child_pid c]
       | _, _ => []
       end
  /\ (forall p, In p (written_to t) ->
        exists c, process s = Some c /\ child_pid c = p)
  /\ quiet_after_kill t = true.
Proof.
  cbv zeta.
  destruct i as [cb r | command w | | p err | p data | p data | p code];
    cbn [react].
  - destruct (process s) as [c|] eqn:E.
    + rewrite (start_running h cb r s c E); destruct r; repeat split;
        try (intros q []).
    + rewrite (start_idle h cb r s E); destruct r; repeat split; try (intros q []).
  - unfold bind; rewrite sendCommand_run.
    destruct (process s) as [c|] eqn:E;
      [destruct (has_stdin c); [destruct w|]|];
      repeat split; cbn; intros p Hp;
      repeat (destruct Hp as [Hp|Hp]; [exists c; split; [reflexivity | exact Hp]|]);
      contradiction.
  - rewrite dispose_run; destruct (process s) as [c|]; repeat split;
      try (intros q []).
  - rewrite on_error_run; repeat split; try (intros q []).
  - rewrite on_stdout_data_run; unfold trace_of; cbn [snd].
    destruct (deliver_all_effects (messageCallback s)
                (yielded (complete_lines (outputBuffer s ++ Utf8.toString data))))
      as (D1 & D2 & D3 & D4).
    rewrite D1, D2, D3; repeat split; [intros q [] | exact D4].
  - unfold on_stderr_data, bind, emit, ret.
    destruct (_ || _); repeat split; try (intros q []).
  - rewrite on_close_run; destruct code as [c|]; [cbn; destruct (Z.eqb c 0)|];
      repeat split; try (intros q []).
Qed.

Lemma step_fields (h : host) (w : world) (i : input) :
  mgr (step h w i) = state_after (react h i (mgr w))
  /\ listening (step h w i)
     = filter (fun p => negb (mem p match i with
                                    | fire_close q _ => [q]
                                    | _ => []
                                    end))
         (listening w ++ born (trace_of (react h i (mgr w))))
  /\ signalled (step h w i)
     = signalled w ++ killed (trace_of (react h i (mgr w)))
  /\ spawned (step h w i) = spawned w ++ born (trace_of (react h i (mgr w)))
  /\ trace (step h w i) = trace w ++ trace_of (react h i (mgr w)).
Proof.
  unfold step, state_after, trace_of.
  destruct (react h i (mgr w)) as [[res m] t]; repeat split.
Qed.

Lemma filter_none_closed (l : list pid) :
  filter (fun p => negb (mem p [])) l = l.
Proof. induction l as [|x l IH]; unfold mem in *; cbn in *; congruence. Qed.

Lemma step_disciplined (h : host) (w : world) (i : input) :
  disciplined w -> admissible w i = true -> disciplined (step h w i).
Proof.
  intros D Ha.
  destruct (step_fields h w i) as (Em & El & Es & Ep & Et).
  destruct (react_fields h i (mgr w)) as (_ & _ & Hp).
  destruct (react_effects h i (mgr w)) as (Hk & Hb & Hw & Hq); cbv zeta in *.
  set (t := trace_of (react h i (mgr w))) in *.
  assert (Hheld : forall c, process (mgr w) = Some c ->
                    In (child_pid c) (spawned w)
                    /\ ~ In (child_pid c) (signalled w)).
  { intros c Hc; destruct (@held_is_live _ D c Hc) as [H1 H2].
    split; [apply (listened_were_spawned D); exact H1 | exact H2]. }
  assert (Hkill : killed t = []
                  \/ exists c, process (mgr w) = Some c
                               /\ killed t = [child_pid c]).
  { rewrite Hk; destruct i; auto.
    destruct (process (mgr w)) as [c|]; [right; exists c; auto | auto]. }
  constructor; rewrite ?Em, ?El, ?Es, ?Ep, ?Et.
  - apply incl_app; [apply incl_appl, (killed_were_spawned D)|].
    destruct Hkill as [->|(c & Hc & ->)]; [intros x []|].
    intros x [<-|[]]; apply in_or_app; left; apply (Hheld c Hc).
  - intros x Hx; apply incl_filter in Hx.
    apply in_app_or in Hx as [Hx|Hx]; apply in_or_app;
      [left; apply (listened_were_spawned D); exact Hx | right; exact Hx].
  - rewrite written_to_app; apply incl_app;
      [apply incl_appl, (written_were_spawned D)|].
    intros x Hx; destruct (Hw x Hx) as (c & Hc & <-).
    apply in_or_app; left; apply (Hheld c Hc).
  - destruct Hkill as [->|(c & Hc & ->)];
      [rewrite app_nil_r; exact (killed_once D)|].
    apply NoDup_app; [exact (killed_once D) | repeat constructor; intros [] |].
    intros x Hx [<-|[]]; exact (proj2 (Hheld c Hc) Hx).
  - rewrite killed_app, (killed_are_signalled D); reflexivity.
  - intros c' Hc'; rewrite Hp in Hc'.
    destruct i as [cb r | command wr | | p err | p data | p data | p code];
      try discriminate; rewrite ?filter_none_closed.
    + destruct (process (mgr w)) as [c|] eqn:E.
      * injection Hc' as <-; rewrite Hk, Hb, !app_nil_r.
        destruct r; rewrite ?app_nil_r; exact (@held_is_live _ D c E).
      * destruct r as [c|e]; [|discriminate].
        injection Hc' as <-; rewrite Hk, Hb, app_nil_r.
        split; [apply in_or_app; right; left; reflexivity|].
        intros Hin; apply (killed_were_spawned D) in Hin.
        cbn in Ha; apply negb_true_iff in Ha.
        apply mem_In in Hin; congruence.
    + rewrite Hk, Hb, !app_nil_r; exact (@held_is_live _ D c' Hc').
    + rewrite Hk, Hb, !app_nil_r; exact (@held_is_live _ D c' Hc').
    + rewrite Hk, Hb, !app_nil_r; exact (@held_is_live _ D c' Hc').
  - apply quiet_after_kill_app; [exact (quiet_once_killed D) | exact Hq |].
    intros p Hp' Hx; rewrite (killed_are_signalled D) in Hp'.
    destruct (Hw p Hx) as (c & Hc & <-); exact (proj2 (Hheld c Hc) Hp').
Qed.

Lemma run_disciplined (h : host) (inputs : list input) (w : world) :
  disciplined w -> admissible_run h w inputs = true ->
  disciplined (run h w inputs).
Proof.
  revert w; induction inputs as [|i rest IH]; intros w D Ha; [exact D|].
  cbn [admissible_run run] in *; apply andb_prop in Ha as [Hi Hr].
  apply IH; [apply step_disciplined; assumption | exact Hr].
Qed.

Lemma initial_disciplined (extensionPath : jsstring) :
  disciplined (initial extensionPath).
Proof.
  constructor; cbn;
    [intros x [] | intros x [] | intros x [] | constructor | reflexivity
    | intros c Hc; discriminate | reflexivity].
Qed.

(** X12: Killing and writing ([dispose], lines 218-223; [sendCommand], lines
    139-155) over a whole session: in every run the host can produce from a
    fresh manager, no process is killed twice, no process is written to
    after it was killed, every process killed or written to is one the
    manager spawned, and the process the manager holds is one of its live
    workers. *)
Theorem kills_and_writes_are_disciplined (h : host) (extensionPath : jsstring)
  (inputs : list input) :
  admissible_run h (initial extensionPath) inputs = true ->
  let w := run h (initial extensionPath) inputs in
  NoDup (killed (trace w))
  /\ quiet_after_kill (trace w) = true
  /\ incl (killed (trace w)) (spawned w)
  /\ incl (written_to (trace w)) (spawned w)
  /\ (forall c, process (mgr w) = Some c -> In (child_pid c) (workers w)).
Proof.
  intros Ha; cbv zeta.
  pose proof (run_disciplined h inputs _ (initial_disciplined extensionPath) Ha)
    as D.
  rewrite (killed_are_signalled D).
  split; [exact (killed_once D)|].
  split; [exact (quiet_once_killed D)|].
  split; [exact (killed_were_spawned D)|].
  split; [exact (written_were_spawned D)|].
  intros c Hc; destruct (@held_is_live _ D c Hc) as [H1 H2].
  unfold workers; apply filter_In; split; [exact H1|].
  apply negb_true_iff; destruct (mem (child_pid c) _) eqn:E; [|reflexivity].
  apply mem_In in E; contradiction.
Qed.

Lemma kills_and_writes_are_disciplined_witness :
  admissible_run example_host (initial (u "/ext")) example_session = true
  /\ NoDup (killed (trace (run example_host (initial (u "/ext"))
                             example_session)))
  /\ quiet_after_kill (trace (run example_host (initial (u "/ext"))
                                example_session)) = true.
Proof.
  split; [vm_compute; reflexivity|].
  destruct (kills_and_writes_are_disciplined example_host (u "/ext")
              example_session eq_refl) as (H1 & H2 & _).
  split; assumption.
Defined.

(* ================================================================== *)
(** ** What is written can be read back *)
(* ================================================================== *)

Lemma hex_value_hex_digit (n : N) :
  (n < 16)%N -> hex_value (hex_digit n) = Some n.
Proof.
  intros H; unfold hex_digit, hex_value, is_digit.
  destruct (N.ltb_spec n 10) as [Hl|Hl].
  - replace (N.leb 48 (48 + n)) with true by (symmetry; apply N.leb_le; lia).
    replace (N.leb (48 + n) 57) with true by (symmetry; apply N.leb_le; lia).
    cbn [andb]; f_equal; lia.
  - replace (N.leb (87 + n) 57) with false by (symmetry; apply N.leb_gt; lia).
    rewrite andb_false_r.
    replace (N.leb 97 (87 + n)) with true by (symmetry; apply N.leb_le; lia).
    replace (N.leb (87 + n) 102) with true by (symmetry; apply N.leb_le; lia).
    cbn [andb]; f_equal; lia.
Qed.

Lemma nibble (c k : N) : (N.land (N.shiftr c k) 15 = (c / 2 ^ k) mod 16)%N.
Proof.
  rewrite N.shiftr_div_pow2; change 15%N with (N.ones 4).
  rewrite N.land_ones; reflexivity.
Qed.

(** The escape [\uXXXX] of a code unit reads back as that code unit. *)
Lemma unicode_escape_reads_back (c : code_unit) (rest : jsstring) :
  (c < 65536)%N ->
  exists a b c' d,
    unicode_escape c ++ rest = 92%N :: 117%N :: a :: b :: c' :: d :: rest
    /\ hex4 a b c' d = Some c.
Proof.
  intros Hc; unfold unicode_escape.
  eexists _, _, _, _; split; [reflexivity|].
  unfold hex4.
  replace (N.land c 15) with (N.land (N.shiftr c 0) 15) by (rewrite N.shiftr_0_r; reflexivity).
  rewrite !nibble.
  change (2 ^ 12)%N with 4096%N; change (2 ^ 8)%N with 256%N;
    change (2 ^ 4)%N with 16%N; change (2 ^ 0)%N with 1%N.
  rewrite !hex_value_hex_digit by (apply N.mod_lt; discriminate).
  f_equal.
  rewrite N.div_1_r.
  pose proof (N.div_mod c 16 ltac:(discriminate)) as H0.
  pose proof (N.div_mod (c / 16) 16 ltac:(discriminate)) as H1.
  pose proof (N.div_mod (c / 16 / 16) 16 ltac:(discriminate)) as H2.
  rewrite !N.Div0.div_div in H1, H2.
  change (16 * 16)%N with 256%N in H1, H2.
  change (256 * 16)%N with 4096%N in H2.
  assert (H4 : (c / 256 / 16 = c / 4096)%N)
    by (rewrite N.Div0.div_div; reflexivity).
  rewrite H4 in H2.
  assert (H3 : (c / 4096 < 16)%N)
    by (apply N.Div0.div_lt_upper_bound; lia).
  rewrite (N.mod_small (c / 4096) 16 H3).
  lia.
Qed.


Lemma surrogate_is_plain_char (c : code_unit) :
  is_high_surrogate c || is_low_surrogate c = true ->
  N.eqb c 34 = false /\ N.eqb c 92 = false /\ N.ltb c 32 = false
  /\ (c < 65536)%N.
Proof.
  unfold is_high_surrogate, is_low_surrogate; intros H.
  apply orb_true_iff in H.
  repeat split; try apply N.eqb_neq; try apply N.ltb_ge;
    destruct H as [H|H]; apply andb_true_iff in H; destruct H as [H1 H2];
    apply N.leb_le in H1; apply N.leb_le in H2; lia.
Qed.

Lemma parse_chars_escape (c : code_unit) (s rest : jsstring) :
  (c < 65536)%N ->
  parse_chars (unicode_escape c ++ s) = map_ok (cons c) (parse_chars s).
Proof.
  intros Hc.
  destruct (unicode_escape_reads_back c s Hc) as (a & b & c' & d & E & Hx).
  rewrite E; cbn [parse_chars N.eqb Pos.eqb]; rewrite Hx; reflexivity.
Qed.

(** A string literal written by [JSON.stringify] reads back as the string
    it was written from, whatever its code units. *)
Lemma parse_chars_quote_chars (s rest : jsstring) :
  parse_chars (quote_chars s ++ 34%N :: rest) = POk s rest.
Proof.
  remember (List.length s) as n eqn:Hn.
  assert (Hle : (List.length s <= n)%nat) by lia; clear Hn.
  revert s Hle; induction n as [|n IH]; intros s Hle.
  - destruct s; [reflexivity | cbn in Hle; lia].
  - destruct s as [|c r]; [reflexivity|].
    cbn [List.length] in Hle.
    assert (IHr : parse_chars (quote_chars r ++ 34%N :: rest) = POk r rest)
      by (apply IH; lia).
    cbn [quote_chars].
    destruct (N.eqb c 8) eqn:E8;
      [apply N.eqb_eq in E8; subst c; cbn [app parse_chars N.eqb Pos.eqb simple_escape];
       rewrite IHr; reflexivity|].
    destruct (N.eqb c 9) eqn:E9;
      [apply N.eqb_eq in E9; subst c; cbn [app parse_chars N.eqb Pos.eqb simple_escape];
       rewrite IHr; reflexivity|].
    destruct (N.eqb c 10) eqn:E10;
      [apply N.eqb_eq in E10; subst c; cbn [app parse_chars N.eqb Pos.eqb simple_escape];
       rewrite IHr; reflexivity|].
    destruct (N.eqb c 12) eqn:E12;
      [apply N.eqb_eq in E12; subst c; cbn [app parse_chars N.eqb Pos.eqb simple_escape];
       rewrite IHr; reflexivity|].
    destruct (N.eqb c 13) eqn:E13;
      [apply N.eqb_eq in E13; subst c; cbn [app parse_chars N.eqb Pos.eqb simple_escape];
       rewrite IHr; reflexivity|].
    destruct (N.eqb c 34) eqn:E34;
      [apply N.eqb_eq in E34; subst c; cbn [app parse_chars N.eqb Pos.eqb simple_escape];
       rewrite IHr; reflexivity|].
    destruct (N.eqb c 92) eqn:E92;
      [apply N.eqb_eq in E92; subst c; cbn [app parse_chars N.eqb Pos.eqb simple_escape];
       rewrite IHr; reflexivity|].
    destruct (N.ltb c 32) eqn:E32.
    { rewrite <- app_assoc, parse_chars_escape, IHr;
        [reflexivity | exact rest | apply N.ltb_lt in E32; lia]. }
    destruct (is_high_surrogate c) eqn:Eh.
    { destruct (surrogate_is_plain_char c) as (_ & _ & _ & Hc);
        [rewrite Eh; reflexivity|].
      destruct r as [|d r'].
      - rewrite parse_chars_escape; [reflexivity | exact rest | exact Hc].
      - destruct (is_low_surrogate d) eqn:El.
        + destruct (surrogate_is_plain_char d) as (D34 & D92 & D32 & _);
            [rewrite El; apply orb_true_r|].
          cbn [app parse_chars]; rewrite E34, E92, E32, D34, D92, D32.
          cbn [List.length] in Hle.
          rewrite IH by lia; reflexivity.
        + rewrite <- app_assoc, parse_chars_escape, IHr;
            [reflexivity | exact rest | exact Hc]. }
    destruct (is_low_surrogate c) eqn:El.
    { destruct (surrogate_is_plain_char c) as (_ & _ & _ & Hc);
        [rewrite El; apply orb_true_r|].
      rewrite <- app_assoc, parse_chars_escape, IHr;
        [reflexivity | exact rest | exact Hc]. }
    cbn [app parse_chars]; rewrite E34, E92, E32, IHr; reflexivity.
Qed.


Lemma next_is_head (c x : code_unit) (r : jsstring) :
  is_json_ws x = false ->
  next_is c (x :: r) = if N.eqb x c then Some r else None.
Proof. intros H; unfold next_is; cbn [skip_ws]; rewrite H; reflexivity. Qed.

Lemma plain_head (v : jsval) :
  plain v = true ->
  exists c t,
    JSON_stringify v = Some (c :: t)
    /\ (c = 110 \/ c = 116 \/ c = 102 \/ c = 34 \/ c = 91 \/ c = 123)%N.
Proof.
  destruct v as [ | | [|] | n | s | items | props]; cbn [plain];
    try discriminate; intros _; eexists _, _; (split; [reflexivity|]); tauto.
Qed.

Lemma plain_elements (items : list jsval) :
  forallb plain items = true ->
  map (fun x => match JSON_stringify x with
                | Some t => t
                | None => u "null"
                end) items = map json_text items.
Proof.
  intros H; apply map_ext_in; intros x Hx.
  rewrite forallb_forall in H; specialize (H x Hx).
  destruct (plain_head x H) as (c & t & E & _).
  unfold json_text; rewrite E; reflexivity.
Qed.

Lemma plain_members (props : list (jsstring * jsval)) :
  forallb (fun kv => plain (snd kv)) props = true ->
  flat_map (fun kv => match JSON_stringify (snd kv) with
                      | Some t => [quote (fst kv) ++ u ":" ++ t]
                      | None => []
                      end) props = map member_line props.
Proof.
  induction props as [|[k x] r IH]; [reflexivity|].
  cbn [forallb flat_map map fst snd]; intros H.
  apply andb_prop in H as [Hx Hr].
  rewrite (IH Hr).
  destruct (plain_head x Hx) as (c & t & E & _).
  unfold member_line, json_text; cbn [fst snd]; rewrite E; reflexivity.
Qed.

Lemma eqb_str_sym (a b : jsstring) : eqb_str a b = eqb_str b a.
Proof.
  unfold eqb_str.
  destruct (list_eq_dec N.eq_dec a b), (list_eq_dec N.eq_dec b a);
    congruence.
Qed.

Lemma distinct_fresh (acc : list (jsstring * jsval)) (k : jsstring) (x : jsval)
  (r : list (jsstring * jsval)) :
  distinct (map fst (acc ++ (k, x) :: r)) = true -> has_own k acc = false.
Proof.
  induction acc as [|[k0 v0] acc IH]; [reflexivity|].
  cbn [app map fst distinct]; intros H.
  apply andb_prop in H as [H0 H1].
  unfold has_own; cbn [existsb fst].
  fold (has_own k acc); rewrite (IH H1), orb_false_r.
  apply negb_true_iff in H0.
  rewrite map_app, existsb_app in H0; apply orb_false_iff in H0 as [_ H0].
  cbn [map existsb fst] in H0; apply orb_false_iff in H0 as [H0 _].
  rewrite eqb_str_sym; exact H0.
Qed.

Lemma obj_set_fresh (k : jsstring) (v : jsval) (acc : list (jsstring * jsval)) :
  has_own k acc = false -> obj_set k v acc = acc ++ [(k, v)].
Proof.
  induction acc as [|[k0 v0] acc IH]; [reflexivity|].
  unfold has_own; cbn [existsb fst obj_set app]; intros H.
  apply orb_false_iff in H as [H0 H1].
  rewrite H0, (IH H1); reflexivity.
Qed.

Lemma json_text_head (x : jsval) (c : code_unit) (tail : jsstring) :
  plain x = true -> (c = 93 \/ c = 125 \/ c = 44)%N ->
  next_is c (json_text x ++ tail) = None.
Proof.
  intros Hx Hc.
  destruct (plain_head x Hx) as (h & t & E & Hh).
  unfold json_text; rewrite E; cbn [to_string app].
  rewrite next_is_head.
  - replace (N.eqb h c) with false; [reflexivity|].
    symmetry; apply N.eqb_neq; lia.
  - unfold is_json_ws.
    repeat (apply orb_false_iff; split); apply N.eqb_neq; lia.
Qed.

(** The elements of an array, read back one after the other. *)
Lemma parse_elements_reads_back (items : list jsval) :
  Forall (fun v => plain v = true ->
            forall fuel rest,
              reads_back (parse_value fuel (json_text v ++ rest)) v rest) items ->
  forallb plain items = true -> items <> [] ->
  forall fuel acc rest,
    reads_back
      (parse_elements fuel acc (JS.join (u ",") (map json_text items) ++ 93%N :: rest))
      (JArr (rev acc ++ items)) rest.
Proof.
  induction 1 as [|x r Hx _ IH]; [congruence|].
  cbn [forallb]; intros Hp _ fuel acc rest.
  apply andb_prop in Hp as [Hpx Hpr].
  destruct fuel as [|f]; [right; reflexivity|].
  cbn [parse_elements].
  destruct r as [|y r'].
  - cbn [map JS.join].
    destruct (Hx Hpx f (93%N :: rest)) as [E|E]; rewrite E; [|right; reflexivity].
    left; reflexivity.
  - change (JS.join (u ",") (map json_text (x :: y :: r')))
      with (json_text x ++ u "," ++ JS.join (u ",") (map json_text (y :: r'))).
    rewrite <- !app_assoc.
    destruct (Hx Hpx f (u "," ++ JS.join (u ",") (map json_text (y :: r')) ++ 93%N :: rest))
      as [E|E]; rewrite E; [|right; reflexivity].
    change (u "," ++ ?t) with (44%N :: t).
    rewrite next_is_head by reflexivity; cbn [N.eqb Pos.eqb].
    specialize (IH Hpr ltac:(discriminate) f (x :: acc) rest).
    cbn [rev] in IH; rewrite <- app_assoc in IH; exact IH.
Qed.

(** The properties of an object, read back one after the other. *)
Lemma parse_members_reads_back (props : list (jsstring * jsval)) :
  Forall (fun kv => plain (snd kv) = true ->
            forall fuel rest,
              reads_back (parse_value fuel (json_text (snd kv) ++ rest))
                (snd kv) rest) props ->
  forallb (fun kv => plain (snd kv)) props = true -> props <> [] ->
  forall fuel acc rest,
    distinct (map fst (acc ++ props)) = true ->
    reads_back
      (parse_members fuel acc
         (JS.join (u ",") (map member_line props) ++ 125%N :: rest))
      (JObj (acc ++ props)) rest.
Proof.
  induction 1 as [|[k x] r Hx _ IH]; [congruence|].
  cbn [forallb fst snd] in *; intros Hp _ fuel acc rest Hd.
  apply andb_prop in Hp as [Hpx Hpr].
  destruct fuel as [|f]; [right; reflexivity|].
  cbn [parse_members].
  pose proof (obj_set_fresh k x acc (distinct_fresh acc k x r Hd)) as Hset.
  assert (Hline : forall tail,
    member_line (k, x) ++ tail
    = 34%N :: quote_chars k ++ 34%N :: 58%N :: json_text x ++ tail).
  { intros tail; unfold member_line, quote; cbn [fst snd].
    change (u ":") with [58%N].
    cbn [app]; rewrite <- !app_assoc; reflexivity. }
  destruct r as [|y r'].
  - cbn [map JS.join]; rewrite Hline.
    rewrite next_is_head by reflexivity; cbn [N.eqb Pos.eqb].
    rewrite parse_chars_quote_chars.
    rewrite next_is_head by reflexivity; cbn [N.eqb Pos.eqb].
    destruct (Hx Hpx f (125%N :: rest)) as [E|E]; rewrite E; [|right; reflexivity].
    rewrite Hset; left; reflexivity.
  - change (JS.join (u ",") (map member_line ((k, x) :: y :: r')))
      with (member_line (k, x) ++ u "," ++ JS.join (u ",") (map member_line (y :: r'))).
    rewrite <- !app_assoc, Hline.
    rewrite next_is_head by reflexivity; cbn [N.eqb Pos.eqb].
    rewrite parse_chars_quote_chars.
    rewrite next_is_head by reflexivity; cbn [N.eqb Pos.eqb].
    destruct (Hx Hpx f (u "," ++ JS.join (u ",") (map member_line (y :: r')) ++ 125%N :: rest))
      as [E|E]; rewrite E; [|right; reflexivity].
    change (u "," ++ ?t) with (44%N :: t).
    rewrite next_is_head by reflexivity; cbn [N.eqb Pos.eqb].
    rewrite Hset.
    specialize (IH Hpr ltac:(discriminate) f (acc ++ [(k, x)]) rest).
    rewrite <- app_assoc in IH; apply IH; exact Hd.
Qed.


(** A plain value written by [JSON.stringify] is read back by the parser,
    whatever follows it, as long as the fuel lasts. *)
Lemma parse_value_reads_back (v : jsval) :
  plain v = true ->
  forall fuel rest, reads_back (parse_value fuel (json_text v ++ rest)) v rest.
Proof.
  induction v as [ | | b | n | s | items IH | props IH]
    using jsval_nested_ind; cbn [plain]; intros Hp fuel rest;
    try discriminate;
    (destruct fuel as [|f]; [right; reflexivity|]).
  - left; reflexivity.
  - left; destruct b; reflexivity.
  - left; unfold json_text; cbn [JSON_stringify to_string quote app parse_value].
    rewrite !next_is_head by reflexivity; cbn [N.eqb Pos.eqb skip_ws is_json_ws orb].
    cbn [parse_scalar N.eqb Pos.eqb].
    rewrite <- app_assoc; cbn [app].
    rewrite parse_chars_quote_chars; reflexivity.
  - unfold json_text; cbn [JSON_stringify to_string].
    rewrite (plain_elements items Hp).
    change (u "[" ++ ?t) with (91%N :: t); cbn [app parse_value].
    rewrite !next_is_head by reflexivity; cbn [N.eqb Pos.eqb].
    rewrite <- app_assoc; change (u "]" ++ rest) with (93%N :: rest).
    destruct items as [|x r].
    + left; reflexivity.
    + replace (next_is 93%N (JS.join (u ",") (map json_text (x :: r)) ++ 93%N :: rest))
        with (@None jsstring).
      * apply (parse_elements_reads_back (x :: r) IH Hp ltac:(discriminate) f [] rest).
      * symmetry.
        cbn [forallb] in Hp; apply andb_prop in Hp as [Hx _].
        destruct r as [|y r'].
        -- cbn [map JS.join]; apply json_text_head; [exact Hx | tauto].
        -- change (JS.join (u ",") (map json_text (x :: y :: r')))
             with (json_text x ++ u "," ++ JS.join (u ",") (map json_text (y :: r'))).
           rewrite <- app_assoc; apply json_text_head; [exact Hx | tauto].
  - apply andb_prop in Hp as [Hp Hd].
    unfold json_text; cbn [JSON_stringify to_string].
    rewrite (plain_members props Hp).
    change (u "{" ++ ?t) with (123%N :: t); cbn [app parse_value].
    rewrite !next_is_head by reflexivity; cbn [N.eqb Pos.eqb].
    rewrite <- app_assoc; change (u "}" ++ rest) with (125%N :: rest).
    destruct props as [|[k x] r].
    + left; reflexivity.
    + replace (next_is 125%N (JS.join (u ",") (map member_line ((k, x) :: r)) ++ 125%N :: rest))
        with (@None jsstring).
      * apply (parse_members_reads_back ((k, x) :: r) IH Hp ltac:(discriminate) f [] rest).
        exact Hd.
      * symmetry.
        destruct r as [|y r']; cbn [map JS.join]; unfold member_line at 1, quote;
          cbn [app]; apply next_is_head; reflexivity.
Qed.

Lemma skip_ws_all (ws : jsstring) :
  forallb is_json_ws ws = true -> skip_ws ws = [].
Proof.
  induction ws as [|c r IH]; [reflexivity|].
  cbn [forallb skip_ws]; intros H; apply andb_prop in H as [Hc Hr].
  rewrite Hc; apply IH; exact Hr.
Qed.

Lemma plain_values_read_back (v : jsval) (ws : jsstring) :
  plain v = true -> forallb is_json_ws ws = true ->
  JSON_parse (json_text v ++ ws) = Some v.
Proof.
  intros Hp Hws; unfold JSON_parse.
  destruct (parse_value_reads_back v Hp
              (2 * List.length (json_text v ++ ws) + 2) ws) as [E|E].
  - rewrite E, (skip_ws_all ws Hws); reflexivity.
  - exfalso; exact (parse_value_budget _ E).
Qed.


Lemma stringify_defined (o : list (jsstring * jsval)) :
  JSON_stringify (JObj (defined o)) = JSON_stringify (JObj o).
Proof.
  cbn [JSON_stringify].
  replace (flat_map (fun kv => match JSON_stringify (snd kv) with
                               | Some t => [quote (fst kv) ++ u ":" ++ t]
                               | None => []
                               end) (defined o))
    with (flat_map (fun kv => match JSON_stringify (snd kv) with
                              | Some t => [quote (fst kv) ++ u ":" ++ t]
                              | None => []
                              end) o); [reflexivity|].
  induction o as [|[k v] r IH]; [reflexivity|].
  cbn [defined filter flat_map fst snd]; fold (defined r).
  destruct v; cbn [flat_map fst snd app]; rewrite IH; reflexivity.
Qed.

(** The line written for a command, without its line feed, reads back as
    the command without its [undefined] properties. *)
Lemma wire_line_reads_back (command : list (jsstring * jsval)) :
  plain (JObj (defined command)) = true ->
  exists json,
    wire_line command = json ++ [NL]
    /\ ~ In NL json
    /\ JSON_parse json = Some (JObj (defined command)).
Proof.
  intros Hp.
  destruct (wire_line_one_line command) as (json & E & Hw & Hn).
  exists json; repeat split; [exact Hw | exact Hn |].
  pose proof (plain_values_read_back (JObj (defined command)) [] Hp eq_refl) as H.
  unfold json_text in H; rewrite stringify_defined, E, app_nil_r in H.
  exact H.
Qed.

(** X13: [sendCommand] (lines 139-155) with [JSON.parse] on the reading
    side: when a worker with a standard input is held and the
    command's defined properties are plain and distinctly named, the one
    write is a single line whose text reads back as the command without its
    [undefined] properties. *)
Theorem sent_commands_read_back (command : list (jsstring * jsval))
  (s : PythonManager) (c : child) :
  process s = Some c -> has_stdin c = true ->
  plain (JObj (defined command)) = true ->
  exists json,
    sendCommand command Written s
    = (Normal true, s, [stdin_write (child_pid c) (json ++ [NL]) Written])
    /\ ~ In NL json
    /\ JSON_parse json = Some (JObj (defined command)).
Proof.
  intros Hp Hs Hc.
  destruct (wire_line_reads_back command Hc) as (json & E & Hn & Hj).
  exists json; repeat split; [|exact Hn | exact Hj].
  rewrite sendCommand_run, Hp, Hs, E; reflexivity.
Qed.

Lemma sent_commands_read_back_witness :
  exists json,
    sendCommand [(u "command", JStr (u "save_session"));
                 (u "file", JStr (sq "C:\tmp\a 'b'.pkl"));
                 (u "extra", JUndefined)] Written
      (with_process example_manager (Some (example_child 7%N)))
    = (Normal true, with_process example_manager (Some (example_child 7%N)),
       [stdin_write 7%N (json ++ [NL]) Written])
    /\ ~ In NL json
    /\ JSON_parse json
       = Some (JObj [(u "command", JStr (u "save_session"));
                     (u "file", JStr (sq "C:\tmp\a 'b'.pkl"))]).
Proof.
  exact (sent_commands_read_back
           [(u "command", JStr (u "save_session"));
            (u "file", JStr (sq "C:\tmp\a 'b'.pkl"));
            (u "extra", JUndefined)]
           (with_process example_manager (Some (example_child 7%N)))
           (example_child 7%N) eq_refl eq_refl eq_refl).
Defined.

Lemma existsb_defined (k : jsstring) (o : list (jsstring * jsval)) :
  existsb (fun k' => eqb_str k' k) (map fst o) = false ->
  existsb (fun k' => eqb_str k' k) (map fst (defined o)) = false.
Proof.
  induction o as [|[k0 v] r IH]; [reflexivity|].
  cbn [map fst existsb defined filter snd]; fold (defined r); intros H.
  apply orb_false_iff in H as [H0 H1].
  destruct v; cbn [map fst existsb]; rewrite ?H0, (IH H1); reflexivity.
Qed.

(** A command whose property names are distinct and whose values are plain
    or [undefined] is written as a plain object. *)
Lemma sendable_command (command : list (jsstring * jsval)) :
  forallb (fun kv => sendable (snd kv)) command = true ->
  distinct (map fst command) = true ->
  plain (JObj (defined command)) = true.
Proof.
  cbn [plain]; induction command as [|[k v] r IH]; [reflexivity|].
  cbn [forallb snd map fst distinct]; intros Hs Hd.
  apply andb_prop in Hs as [Hv Hs]; apply andb_prop in Hd as [Hk Hd].
  specialize (IH Hs Hd); apply andb_prop in IH as [IH1 IH2].
  apply negb_true_iff, existsb_defined in Hk.
  cbn [defined filter snd]; fold (defined r).
  destruct v; try exact (andb_true_intro (conj IH1 IH2));
    cbn [forallb snd map fst distinct];
    rewrite IH1, IH2, Hk; cbn [sendable] in Hv; rewrite ?Hv; reflexivity.
Qed.

(** X14: [runFile], [runCode], [getVariables], [updateVariable],
    [clearNamespace], [saveSession] and [loadSession] (lines 157-212): with a worker held, each of these methods returns [true],
    changes no field and makes one write, a single line that reads back as
    an object whose [command] property is the method's own command name,
    provided its arguments are plain or left out. *)
Theorem requests_name_their_command (h : host) (r : request)
  (s : PythonManager) (c : child) :
  process s = Some c -> has_stdin c = true ->
  forallb sendable (arguments r) = true ->
  exists json o,
    perform h r Written s
    = (Normal true, s, [stdin_write (child_pid c) (json ++ [NL]) Written])
    /\ ~ In NL json
    /\ JSON_parse json = Some (JObj o)
    /\ obj_get (u "command") o = JStr (command_name r).
Proof.
  intros Hp Hs Ha.
  assert (K : forall command,
    forallb (fun kv => sendable (snd kv)) command = true ->
    distinct (map fst command) = true ->
    obj_get (u "command") (defined command) = JStr (command_name r) ->
    exists json o,
      sendCommand command Written s
      = (Normal true, s, [stdin_write (child_pid c) (json ++ [NL]) Written])
      /\ ~ In NL json
      /\ JSON_parse json = Some (JObj o)
      /\ obj_get (u "command") o = JStr (command_name r)).
  { intros command Hc Hd Hg.
    destruct (wire_line_reads_back command (sendable_command command Hc Hd))
      as (json & E & Hn & Hj).
    exists json, (defined command); repeat split; [|exact Hn | exact Hj | exact Hg].
    rewrite sendCommand_run, Hp, Hs, E; reflexivity. }
  destruct r as [a | a | | a b d | | a | a];
    cbn [arguments forallb] in Ha;
    repeat (let H := fresh "H" in apply andb_prop in Ha as [H Ha]);
    cbn [perform]; unfold runFile, runCode, getVariables, updateVariable,
      clearNamespace, saveSession, loadSession;
    apply K; try reflexivity;
    cbn [forallb snd];
    repeat (apply andb_true_intro; split); try assumption; reflexivity.
Qed.

Lemma requests_name_their_command_witness :
  exists json o,
    perform example_host (update_variable (JStr (u "x")) JUndefined (JArr [JNull]))
      Written (with_process example_manager (Some (example_child 7%N)))
    = (Normal true, with_process example_manager (Some (example_child 7%N)),
       [stdin_write 7%N (json ++ [NL]) Written])
    /\ ~ In NL json
    /\ JSON_parse json = Some (JObj o)
    /\ obj_get (u "command") o = JStr (u "update_variable").
Proof.
  exact (requests_name_their_command example_host
           (update_variable (JStr (u "x")) JUndefined (JArr [JNull]))
           (with_process example_manager (Some (example_child 7%N)))
           (example_child 7%N) eq_refl eq_refl eq_refl).
Defined.

(** X15: [isRunning] (lines 214-216) with [sendCommand] and [dispose]:
    [isRunning()] only reads the handle; [sendCommand] returns
    [true] only where [isRunning()] does, writes nothing where it returns
    [false], and after [dispose()] it returns [false]. *)
Theorem sendCommand_needs_a_running_worker (s : PythonManager)
  (command : list (jsstring * jsval)) (w : write_result) :
  state_after (isRunning s) = s
  /\ trace_of (isRunning s) = []
  /\ (result_of (sendCommand command w s) = Normal true ->
      result_of (isRunning s) = Normal true)
  /\ (result_of (isRunning s) = Normal false ->
      writes (trace_of (sendCommand command w s)) = [])
  /\ result_of (isRunning (state_after (dispose s))) = Normal false.
Proof.
  rewrite sendCommand_run, dispose_run.
  assert (R : isRunning s
              = (Normal (match process s with Some _ => true | None => false end),
                 s, [])) by (run_method; reflexivity).
  rewrite R.
  split; [reflexivity|]; split; [reflexivity|]; split; [|split].
  - destruct (process s) as [c|]; [reflexivity|].
    cbn; discriminate.
  - destruct (process s) as [c|]; [cbn; discriminate | reflexivity].
  - destruct (process s) as [c|] eqn:E.
    + reflexivity.
    + cbv [state_after fst snd]; run_method; rewrite E; reflexivity.
Qed.


(* ================================================================== *)
(** ** How deep the scan goes *)
(* ================================================================== *)

Lemma below_trans (h : host) (a b c : jsstring) (m n : nat) :
  below h a m b -> below h b n c -> below h a (m + n) c.
Proof.
  intros Hab Hbc; induction Hbc as [|n d entries entry _ IH Hr Hin He].
  - rewrite Nat.add_0_r; exact Hab.
  - rewrite Nat.add_succ_r; exact (@below_step h a _ d entries entry IH Hr Hin He).
Qed.

Lemma below_zero (h : host) (a x : jsstring) : below h a 0 x -> x = a.
Proof. intros H; inversion H; reflexivity. Qed.

Lemma below_front (h : host) (dir x : jsstring) (n : nat) :
  below h dir (S n) x ->
  exists entries entry,
    readdirSync h dir = Normal entries /\ In entry entries
    /\ eligible entry = true
    /\ below h (join (path h) [dir; name entry]) n x.
Proof.
  intros H; remember (S n) as k eqn:Ek; revert n Ek.
  induction H as [|k d entries entry Hd IH Hr Hin He]; intros n Ek;
    [discriminate|].
  injection Ek as ->.
  destruct n as [|n'].
  - apply below_zero in Hd; subst d.
    exists entries, entry; repeat split; try assumption; constructor.
  - destruct (IH n' eq_refl) as (es0 & e0 & H1 & H2 & H3 & H4).
    exists es0, e0; repeat split; try assumption.
    exact (@below_step h _ _ d entries entry H4 Hr Hin He).
Qed.

Lemma for_entries_within (h : host) (levels : nat) (dir : jsstring)
  (all : list dirent) :
  (forall d st, within h levels d st (snd (addSubdirs h levels d st))) ->
  readdirSync h dir = Normal all ->
  forall entries st,
    incl entries all ->
    exists added newreads,
      let r := snd (for_entries h (addSubdirs h levels) dir entries st) in
      scan_paths r = scan_paths st ++ added
      /\ dirs_read r = dirs_read st ++ newreads
      /\ Forall (fun a => exists n, 1 <= n <= S levels /\ below h dir n a) added
      /\ Forall (fun d => exists n, 1 <= n < S levels /\ below h dir n d) newreads.
Proof.
  intros IH Hr; induction entries as [|entry rest IHe]; intros st Hin.
  - exists [], []; cbn; rewrite !app_nil_r; repeat split; constructor.
  - cbn [for_entries].
    assert (Hrest : incl rest all) by (intros x Hx; apply Hin; right; exact Hx).
    destruct (eligible entry) eqn:He; [|apply IHe; exact Hrest].
    set (subdir := join (path h) [dir; name entry]).
    set (st1 := {| scan_paths := scan_paths st ++ [subdir];
                   dirCount := S (dirCount st);
                   dirs_read := dirs_read st |}).
    assert (Hsub : below h dir 1 subdir).
    { apply (@below_step h dir 0 dir all entry); [constructor | exact Hr | | exact He].
      apply Hin; left; reflexivity. }
    destruct (IH subdir st1) as (a1 & n1 & P1 & R1 & Fa1 & Fn1).
    assert (Fa1' : Forall (fun a => exists n, 1 <= n <= S levels /\ below h dir n a) a1).
    { eapply Forall_impl; [|exact Fa1].
      intros a (n & Hn & Hb); exists (1 + n); split; [lia|].
      exact (below_trans h dir subdir a 1 n Hsub Hb). }
    assert (Fn1' : Forall (fun d => exists n, 1 <= n < S levels /\ below h dir n d) n1).
    { eapply Forall_impl; [|exact Fn1].
      intros a (n & Hn & Hb); exists (1 + n); split; [lia|].
      exact (below_trans h dir subdir a 1 n Hsub Hb). }
    assert (Fs : Forall (fun a => exists n, 1 <= n <= S levels /\ below h dir n a) [subdir]).
    { constructor; [|constructor]. exists 1; split; [lia | exact Hsub]. }
    destruct (addSubdirs h levels subdir st1) as [[[]|e] st2] eqn:E;
      cbn [snd] in P1, R1.
    + destruct (IHe st2 Hrest) as (a2 & n2 & P2 & R2 & Fa2 & Fn2).
      exists ([subdir] ++ a1 ++ a2), (n1 ++ n2); cbv zeta in *.
      rewrite P2, R2, P1, R1; cbn [st1 scan_paths dirs_read].
      rewrite <- !app_assoc; repeat split.
      * apply Forall_app; split; [exact Fs|].
        apply Forall_app; split; assumption.
      * apply Forall_app; split; assumption.
    + exists ([subdir] ++ a1), n1; cbv zeta; cbn [snd].
      rewrite P1, R1; cbn [st1 scan_paths dirs_read].
      rewrite <- !app_assoc; repeat split; [|exact Fn1'].
      apply Forall_app; split; assumption.
Qed.

Lemma addSubdirs_within (h : host) (levels : nat) :
  forall dir st, within h levels dir st (snd (addSubdirs h levels dir st)).
Proof.
  induction levels as [|levels IH]; intros dir st.
  - exists [], []; cbn; rewrite !app_nil_r; repeat split; constructor.
  - cbn [addSubdirs].
    set (st0 := {| scan_paths := scan_paths st; dirCount := dirCount st;
                   dirs_read := dirs_read st ++ [dir] |}).
    assert (Hd : Forall (fun d => exists n, n < S levels /\ below h dir n d) [dir]).
    { constructor; [|constructor]. exists 0; split; [lia | constructor]. }
    destruct (readdirSync h dir) as [entries|e] eqn:Hr.
    + destruct (for_entries_within h levels dir entries IH Hr entries st0
                  (incl_refl _)) as (a & n & P & R & Fa & Fn).
      exists a, ([dir] ++ n); cbv zeta in *.
      rewrite P, R; cbn [st0 scan_paths dirs_read].
      rewrite <- !app_assoc; repeat split; [exact Fa|].
      apply Forall_app; split; [exact Hd|].
      eapply Forall_impl; [|exact Fn].
      intros d (k & Hk & Hb); exists k; split; [lia | exact Hb].
    + exists [], [dir]; cbn [snd st0 scan_paths dirs_read].
      rewrite app_nil_r; repeat split; [constructor | exact Hd].
Qed.

Lemma for_entries_complete (h : host) (levels : nat) (dir : jsstring) :
  (forall d st r, addSubdirs h levels d st = (Normal tt, r) ->
     forall n x, 1 <= n <= levels -> below h d n x -> In x (scan_paths r)) ->
  forall entries st r,
    for_entries h (addSubdirs h levels) dir entries st = (Normal tt, r) ->
    incl (scan_paths st) (scan_paths r)
    /\ (forall entry, In entry entries -> eligible entry = true ->
        forall m x, m <= levels ->
          below h (join (path h) [dir; name entry]) m x -> In x (scan_paths r)).
Proof.
  intros IH; induction entries as [|entry rest IHe]; intros st r E.
  - cbn [for_entries] in E; injection E as <-.
    split; [apply incl_refl | intros entry []].
  - cbn [for_entries] in E.
    destruct (eligible entry) eqn:He.
    + set (subdir := join (path h) [dir; name entry]) in *.
      set (st1 := {| scan_paths := scan_paths st ++ [subdir];
                     dirCount := S (dirCount st);
                     dirs_read := dirs_read st |}) in *.
      destruct (addSubdirs_within h levels subdir st1) as (a1 & n1 & P1 & _).
      destruct (addSubdirs h levels subdir st1) as [[[]|e] st2] eqn:E1;
        [|discriminate].
      cbn [snd] in P1.
      destruct (IHe st2 r E) as (Hincl & Hrest).
      assert (Hst : incl (scan_paths st1) (scan_paths r)).
      { intros x Hx; apply Hincl; rewrite P1; apply in_or_app; left; exact Hx. }
      split.
      * intros x Hx; apply Hst; cbn [st1 scan_paths].
        apply in_or_app; left; exact Hx.
      * intros entry' [<-|Hin] He' m x Hm Hb; [|exact (Hrest entry' Hin He' m x Hm Hb)].
        destruct m as [|m'].
        -- apply below_zero in Hb; subst x.
           apply Hst; cbn [st1 scan_paths]; apply in_or_app; right; left; reflexivity.
        -- apply Hincl, (IH subdir st1 st2 E1 (S m') x); [lia | exact Hb].
    + destruct (IHe st r E) as (Hincl & Hrest).
      split; [exact Hincl|].
      intros entry' [<-|Hin] He'; [congruence | exact (Hrest entry' Hin He')].
Qed.

Lemma addSubdirs_complete (h : host) (levels : nat) :
  forall dir st r,
    addSubdirs h levels dir st = (Normal tt, r) ->
    forall n x, 1 <= n <= levels -> below h dir n x -> In x (scan_paths r).
Proof.
  induction levels as [|levels IH]; intros dir st r E n x Hn Hb; [lia|].
  cbn [addSubdirs] in E.
  destruct n as [|n']; [lia|].
  destruct (below_front h dir x n' Hb) as (entries & entry & Hr & Hin & He & Hb').
  rewrite Hr in E.
  destruct (for_entries_complete h levels dir IH entries _ r E) as (_ & Hc).
  apply (Hc entry Hin He n' x); [lia | exact Hb'].
Qed.

(** X16: The depth of the scan (the [depth > 5] return of [addSubdirs],
    lines 45-62 of the variant): whatever [readdirSync] lists, also where
    directories contain themselves, the scan reads only directories at most
    five steps below the workspace root and adds only directories one to
    six steps below it; and when it ends without a throw it has added every
    accepted directory one to six steps below the root. *)
Theorem scan_reaches_six_levels (h : host) (cb : option callback)
  (r : spawn_result) (s : PythonManager) (w : jsstring) :
  process s = None -> workspaceFolder h = Some w -> w <> [] ->
  let t := trace_of (start_scanning h cb r s) in
  exists added,
    search_paths t
    = [pythonPathEnv_of h (context s) (resolvedPaths_of h ++ added)]
    /\ Forall (fun a => exists n, 1 <= n <= 6 /\ below h w n a) added
    /\ Forall (fun d => exists n, n <= 5 /\ below h w n d) (reads t)
    /\ (scan_errors t = [] ->
        forall n x, 1 <= n <= 6 -> below h w n x -> In x added).
Proof.
  intros E Ew Hw; cbv zeta.
  destruct (start_scanning_scan h cb r s E) as (-> & -> & _ & ->).
  unfold scan_of; cbv zeta; rewrite Ew.
  destruct w as [|c w']; [contradiction|]; cbn [truthy_str].
  set (st0 := {| scan_paths := []; dirCount := 0; dirs_read := [] |}).
  replace {| scan_paths := resolvedPaths_of h; dirCount := 0; dirs_read := [] |}
    with (prepend (resolvedPaths_of h) st0)
    by (unfold prepend, st0; cbn [scan_paths dirCount dirs_read];
        rewrite app_nil_r; reflexivity).
  rewrite addSubdirs_appends; cbn [fst snd].
  destruct (addSubdirs_within h 6 (c :: w') st0)
    as (added & newreads & P & R & Fa & Fn).
  cbn [st0 scan_paths dirs_read app] in P, R.
  exists added; unfold prepend; cbn [scan_paths dirs_read]; rewrite P, R.
  split; [reflexivity|]. split; [exact Fa|]. split.
  - eapply Forall_impl; [|exact Fn].
    intros d (k & Hk & Hb); exists k; split; [lia | exact Hb].
  - intros Herr n x Hn Hb.
    destruct (addSubdirs h 6 (c :: w') st0) as [[[]|e] res] eqn:Es;
      cbn [fst snd] in *; [|discriminate].
    rewrite <- P.
    exact (addSubdirs_complete h 6 (c :: w') st0 res Es n x Hn Hb).
Qed.


Lemma scan_reaches_six_levels_witness :
  workspaceFolder example_host = Some (u "/ws")
  /\ (let t := trace_of (start_scanning example_host None
                           (Spawned (example_child 1%N)) example_manager) in
      exists added,
        search_paths t
        = [pythonPathEnv_of example_host (context example_manager)
             (resolvedPaths_of example_host ++ added)]
        /\ Forall (fun a => exists n, 1 <= n <= 6 /\ below example_host (u "/ws") n a)
             added
        /\ Forall (fun d => exists n, n <= 5 /\ below example_host (u "/ws") n d)
             (reads t)
        /\ (scan_errors t = [] ->
            forall n x, 1 <= n <= 6 -> below example_host (u "/ws") n x ->
              In x added)).
Proof.
  split; [reflexivity|].
  exact (scan_reaches_six_levels example_host None (Spawned (example_child 1%N))
           example_manager (u "/ws") eq_refl eq_refl
           (fun H : u "/ws" = [] => eq_ind (u "/ws")
              (fun l => match l with [] => False | _ :: _ => True end) I [] H)).
Defined.
